(** * Claude history parser: a shallow embedding of [backend/claude_history.py]

    The development follows the Python module top-down: decoded JSON values,
    content blocks, messages, entries and their parsers, the interaction
    builder, conversation threads and the round-trip verifier.  Every
    definition carries the name of the Python function it embeds.

    Conventions.
    - A decoded JSON value is a [pyval].  Fields that Python fills with
      [d.get(...)] hold a [pyval]: the dataclass annotations are not enforced
      at run time, so a field annotated [str] may hold any decoded value.
    - A [str] is a [string], read as its sequence of code points (each one
      held in an 8-bit character).
    - Code that can raise returns [M A].  On decoded values the module
      raises [AttributeError] and [TypeError]; the other exceptions come from
      the library calls that read, decode and write files.
    - Library functions whose result is not computed here ([str()],
      [json.dumps], [datetime.fromisoformat]) are fields of a [Runtime]; the
      clock reading of [datetime.now()] is an explicit argument.
    - The [while] loop of [get_conversations] is run with fuel; [None] means
      the fuel ran out. *)

From Stdlib Require Import List String Ascii ZArith Bool Arith Lia Permutation.
From Stdlib Require Import Floats.SpecFloat.
From Stdlib Require Import Numbers.DecimalString.
From Stdlib Require Numbers.DecimalNat.
Import ListNotations.

Local Open Scope string_scope.
Local Open Scope list_scope.
Set Warnings "-register-all".


(* ================================================================== *)
(** * Exceptions *)
(* ================================================================== *)

Inductive exn : Type :=
| AttributeError
| TypeError
| ValueError
| RecursionError
| UnicodeDecodeError
| UnicodeEncodeError
| OSError.

Inductive M (A : Type) : Type :=
| Ok (a : A)
| Raise (e : exn).

Arguments Ok {A} a.
Arguments Raise {A} e.

Definition bind {A B : Type} (m : M A) (k : A -> M B) : M B :=
  match m with
  | Ok a => k a
  | Raise e => Raise e
  end.

Declare Scope py_scope.
Delimit Scope py_scope with py.
Notation "x <- m ;; k" := (bind m (fun x => k))
  (at level 61, m at next level, right associativity) : py_scope.
Notation "' p <- m ;; k" := (bind m (fun x => match x with p => k end))
  (at level 61, p pattern, m at next level, right associativity) : py_scope.
Local Open Scope py_scope.

(** [for x in xs: st = body(st, x)], stopping at the first exception. *)
Fixpoint foldM {A S : Type} (body : S -> A -> M S) (xs : list A) (st : S) : M S :=
  match xs with
  | [] => Ok st
  | x :: xs' => st' <- body st x ;; foldM body xs' st'
  end.

(* ================================================================== *)
(** * Strings *)
(* ================================================================== *)

Module Str.

(** [s.startswith(p)] *)
Definition startswith (s p : string) : bool := String.prefix p s.

(** [p in s] *)
Fixpoint contains (p s : string) : bool :=
  String.prefix p s ||
  match s with
  | EmptyString => false
  | String _ s' => contains p s'
  end.

(** [c.isspace()] for a code point below 256. *)
Definition isspace (c : ascii) : bool :=
  let n := nat_of_ascii c in
  ((9 <=? n)%nat && (n <=? 13)%nat) || ((28 <=? n)%nat && (n <=? 32)%nat)
  || (n =? 133)%nat || (n =? 160)%nat.

Fixpoint lstrip (s : string) : string :=
  match s with
  | EmptyString => EmptyString
  | String c s' => if isspace c then lstrip s' else s
  end.

Fixpoint rstrip (s : string) : string :=
  match s with
  | EmptyString => EmptyString
  | String c s' =>
      match rstrip s' with
      | EmptyString => if isspace c then EmptyString else String c EmptyString
      | r => String c r
      end
  end.

(** [s.strip()] *)
Definition strip (s : string) : string := rstrip (lstrip s).

(** [sep.join(parts)] *)
Definition join (sep : string) (parts : list string) : string :=
  String.concat sep parts.

(** [s.replace(old, new)] for a one-character [old]. *)
Fixpoint replace (old : ascii) (new s : string) : string :=
  match s with
  | EmptyString => EmptyString
  | String c s' =>
      if Ascii.eqb c old then new ++ replace old new s'
      else String c (replace old new s')
  end.

(** [str(n)] for a non-negative [int]. *)
Definition of_nat (n : nat) : string := NilZero.string_of_uint (Nat.to_uint n).

(** [s.replace(old, new)] for a non-empty [old]: the occurrences of [old]
    are taken from left to right and do not overlap; [skip] counts the
    characters of the occurrence just replaced that are still to be passed. *)
Fixpoint replace_from (old new : string) (skip : nat) (s : string) : string :=
  match s with
  | EmptyString => EmptyString
  | String c s' =>
      match skip with
      | S skip' => replace_from old new skip' s'
      | 0 =>
          if String.prefix old s
          then new ++ replace_from old new (String.length old - 1) s'
          else String c (replace_from old new 0 s')
      end
  end.

Definition replace_str (old new s : string) : string := replace_from old new 0 s.

(** The text before the first [sep], and the text after it when there is
    one. *)
Fixpoint before (sep : ascii) (s : string) : string :=
  match s with
  | EmptyString => EmptyString
  | String c s' => if Ascii.eqb c sep then EmptyString else String c (before sep s')
  end.

Fixpoint after (sep : ascii) (s : string) : option string :=
  match s with
  | EmptyString => None
  | String c s' => if Ascii.eqb c sep then Some s' else after sep s'
  end.

(** [s.split(sep, 1)] for a one-character [sep]. *)
Definition split1 (sep : ascii) (s : string) : list string :=
  before sep s :: match after sep s with Some rest => [rest] | None => [] end.

(** [c.isdigit()] for a code point below 256: the ten decimal digits and the
    superscripts two, three and one. *)
Definition isdigit_char (c : ascii) : bool :=
  let n := nat_of_ascii c in
  ((48 <=? n)%nat && (n <=? 57)%nat) || (n =? 178)%nat || (n =? 179)%nat
  || (n =? 185)%nat.

Fixpoint all_chars (test : ascii -> bool) (s : string) : bool :=
  match s with
  | EmptyString => true
  | String c s' => test c && all_chars test s'
  end.

(** [s.isdigit()] *)
Definition isdigit (s : string) : bool :=
  negb (String.eqb s "") && all_chars isdigit_char s.

End Str.

(* ================================================================== *)
(** * Decoded JSON values *)
(* ================================================================== *)

(** What [json.loads] builds: [None], [bool], [int], [float], [str], [list]
    and [dict] with [str] keys (in insertion order). *)
Inductive pyval : Type :=
| PNone
| PBool (b : bool)
| PInt (z : Z)
| PFloat (f : spec_float)
| PStr (s : string)
| PList (l : list pyval)
| PDict (d : list (string * pyval)).

Definition pydict : Type := list (string * pyval).

Module Dict.

(** [d[k]] as an option. *)
Fixpoint lookup (d : pydict) (k : string) : option pyval :=
  match d with
  | [] => None
  | (k', v) :: d' => if String.eqb k' k then Some v else lookup d' k
  end.

(** [d.get(k, default)] *)
Definition get (d : pydict) (k : string) (default : pyval) : pyval :=
  match lookup d k with
  | Some v => v
  | None => default
  end.

(** [d.get(k)] *)
Definition get_none (d : pydict) (k : string) : pyval := get d k PNone.

End Dict.

(** [test] holds of the two lists element by element; [false] when the
    lengths differ. *)
Fixpoint all2 {A B} (test : A -> B -> bool) (l : list A) (m : list B) : bool :=
  match l, m with
  | [], [] => true
  | x :: l', y :: m' => test x y && all2 test l' m'
  | _, _ => false
  end.

Module Py.

(** [bool(v)] *)
Definition truthy (v : pyval) : bool :=
  match v with
  | PNone => false
  | PBool b => b
  | PInt z => negb (Z.eqb z 0)
  | PFloat (S754_zero _) => false
  | PFloat _ => true
  | PStr s => negb (String.eqb s "")
  | PList l => match l with [] => false | _ => true end
  | PDict d => match d with [] => false | _ => true end
  end.

(** An [int] equals a [float] when they denote the same number. *)
Definition int_eq_float (z : Z) (f : spec_float) : bool :=
  match f with
  | S754_zero _ => Z.eqb z 0
  | S754_finite s m e =>
      let v := if s then Z.neg m else Z.pos m in
      if (0 <=? e)%Z then Z.eqb z (v * 2 ^ e) else Z.eqb (z * 2 ^ (- e)) v
  | _ => false
  end.

Definition int_of_bool (b : bool) : Z := if b then 1%Z else 0%Z.

(** [json.loads] returns one shared object for every [NaN] literal, so two
    [NaN]s met inside containers or as dict keys are the same object. *)
Definition same_nan (a b : pyval) : bool :=
  match a, b with
  | PFloat S754_nan, PFloat S754_nan => true
  | _, _ => false
  end.

(** [a == b] *)
Fixpoint equal (a b : pyval) {struct a} : bool :=
  match a, b with
  | PNone, PNone => true
  | PBool x, PBool y => Bool.eqb x y
  | PBool x, PInt y => Z.eqb (int_of_bool x) y
  | PBool x, PFloat y => int_eq_float (int_of_bool x) y
  | PInt x, PBool y => Z.eqb x (int_of_bool y)
  | PInt x, PInt y => Z.eqb x y
  | PInt x, PFloat y => int_eq_float x y
  | PFloat x, PBool y => int_eq_float (int_of_bool y) x
  | PFloat x, PInt y => int_eq_float y x
  | PFloat x, PFloat y => SFeqb x y
  | PStr x, PStr y => String.eqb x y
  | PList l, PList m =>
      all2 (fun x y => same_nan x y || equal x y) l m
  | PDict d, PDict e =>
      Nat.eqb (List.length d) (List.length e) &&
      forallb (fun kv =>
                 match Dict.lookup e (fst kv) with
                 | Some w => same_nan (snd kv) w || equal (snd kv) w
                 | None => false
                 end) d
  | _, _ => false
  end.

(** [a != b] *)
Definition not_equal (a b : pyval) : bool := negb (equal a b).

(** Equality of dict keys: identity or [==]. *)
Definition key_eq (a b : pyval) : bool := same_nan a b || equal a b.

(** [hash(v)] raises [TypeError] on a [list] or a [dict]. *)
Definition hashable (v : pyval) : bool :=
  match v with
  | PList _ | PDict _ => false
  | _ => true
  end.

Definition check_hashable (v : pyval) : M unit :=
  if hashable v then Ok tt else Raise TypeError.

(** [v.get] exists only on a [dict]. *)
Definition as_dict (v : pyval) : M pydict :=
  match v with
  | PDict d => Ok d
  | _ => Raise AttributeError
  end.

End Py.

(** A Python [dict] keyed by decoded values, in insertion order. *)
Module PyMap.

Definition t (V : Type) : Type := list (pyval * V).

Fixpoint find {V} (m : t V) (k : pyval) : option V :=
  match m with
  | [] => None
  | (k', v) :: m' => if Py.key_eq k' k then Some v else find m' k
  end.

(** [m[k] = v]: an existing key keeps its place. *)
Fixpoint put {V} (m : t V) (k : pyval) (v : V) : t V :=
  match m with
  | [] => [(k, v)]
  | (k', v') :: m' =>
      if Py.key_eq k' k then (k', v) :: m' else (k', v') :: put m' k v
  end.

(** [k in m] *)
Definition mem {V} (m : t V) (k : pyval) : M bool :=
  _ <- Py.check_hashable k ;;
  Ok (match find m k with Some _ => true | None => false end).

(** [m[k] = v] *)
Definition set {V} (m : t V) (k : pyval) (v : V) : M (t V) :=
  _ <- Py.check_hashable k ;;
  Ok (put m k v).

End PyMap.

(* ================================================================== *)
(** * Library functions and the clock *)
(* ================================================================== *)

(** A [datetime.datetime]; [utcoffset] is the offset of an aware value in
    seconds, [None] for a naive one. *)
Record datetime : Type := mk_datetime {
  year : Z; month : Z; day : Z;
  hour : Z; minute : Z; second : Z; microsecond : Z;
  utcoffset : option Z
}.

Record Runtime : Type := mk_runtime {
  (** [datetime.fromisoformat(s)]; [None] when it raises [ValueError]. *)
  fromisoformat : string -> option datetime;
  (** [str(v)] *)
  py_str : pyval -> string;
  (** [json.dumps(v)] *)
  json_dumps : pyval -> string
}.

(* ================================================================== *)
(** * Content blocks *)
(* ================================================================== *)

Module TextContent.
Record t : Type := mk { text : pyval }.

Definition from_dict (d : pydict) : t :=
  mk (Dict.get d "text" (PStr "")).

Definition to_dict (b : t) : pyval :=
  PDict [("type", PStr "text"); ("text", text b)].
End TextContent.

Module ThinkingContent.
Record t : Type := mk { thinking : pyval; signature : pyval }.

Definition from_dict (d : pydict) : t :=
  mk (Dict.get d "thinking" (PStr "")) (Dict.get_none d "signature").

Definition to_dict (b : t) : pyval :=
  let d := [("type", PStr "thinking"); ("thinking", thinking b)] in
  match signature b with
  | PNone => PDict d
  | sig => PDict (d ++ [("signature", sig)])
  end.
End ThinkingContent.

Module ToolUseContent.
Record t : Type := mk { id : pyval; name : pyval; input : pyval }.

Definition from_dict (d : pydict) : t :=
  mk (Dict.get d "id" (PStr "")) (Dict.get d "name" (PStr ""))
     (Dict.get d "input" (PDict [])).

Definition to_dict (b : t) : pyval :=
  PDict [("type", PStr "tool_use"); ("id", id b); ("name", name b);
         ("input", input b)].
End ToolUseContent.

Module ToolResultContent.
Record t : Type := mk { tool_use_id : pyval; content : pyval; is_error : pyval }.

Definition from_dict (d : pydict) : t :=
  mk (Dict.get d "tool_use_id" (PStr "")) (Dict.get d "content" (PStr ""))
     (Dict.get d "is_error" (PBool false)).

Definition to_dict (b : t) : pyval :=
  let d := [("type", PStr "tool_result"); ("tool_use_id", tool_use_id b);
            ("content", content b)] in
  if Py.truthy (is_error b) then PDict (d ++ [("is_error", is_error b)])
  else PDict d.
End ToolResultContent.

(** The subclasses of [ContentBlock]. *)
Inductive ContentBlock : Type :=
| Text (b : TextContent.t)
| Thinking (b : ThinkingContent.t)
| ToolUse (b : ToolUseContent.t)
| ToolResult (b : ToolResultContent.t).

(** [block.to_dict()] *)
Definition block_to_dict (b : ContentBlock) : pyval :=
  match b with
  | Text b => TextContent.to_dict b
  | Thinking b => ThinkingContent.to_dict b
  | ToolUse b => ToolUseContent.to_dict b
  | ToolResult b => ToolResultContent.to_dict b
  end.

Definition parse_content_block (rt : Runtime) (d : pydict) : ContentBlock :=
  let block_type := Dict.get d "type" (PStr "") in
  if Py.equal block_type (PStr "text") then Text (TextContent.from_dict d)
  else if Py.equal block_type (PStr "thinking") then
    Thinking (ThinkingContent.from_dict d)
  else if Py.equal block_type (PStr "tool_use") then
    ToolUse (ToolUseContent.from_dict d)
  else if Py.equal block_type (PStr "tool_result") then
    ToolResult (ToolResultContent.from_dict d)
  else Text (TextContent.mk (PStr (py_str rt (PDict d)))).

Definition parse_content (rt : Runtime) (content : pyval) : list ContentBlock :=
  match content with
  | PStr _ => [Text (TextContent.mk content)]
  | PList items =>
      map (fun item =>
             match item with
             | PDict d => parse_content_block rt d
             | _ => Text (TextContent.mk (PStr (py_str rt item)))
             end) items
  | _ => [Text (TextContent.mk (PStr (py_str rt content)))]
  end.

(** [isinstance(b, TextContent)] *)
Definition is_text (b : ContentBlock) : bool :=
  match b with Text _ => true | _ => false end.

(** [sep.join(parts)] where the parts are arbitrary values: [TypeError] on the
    first part that is not a [str]. *)
Fixpoint strs_of (parts : list pyval) : M (list string) :=
  match parts with
  | [] => Ok []
  | PStr s :: parts' => ss <- strs_of parts' ;; Ok (s :: ss)
  | _ :: _ => Raise TypeError
  end.

Definition join_values (sep : string) (parts : list pyval) : M string :=
  ss <- strs_of parts ;; Ok (Str.join sep ss).

(** [[b.text for b in blocks if isinstance(b, TextContent)]] *)
Fixpoint text_fields (blocks : list ContentBlock) : list pyval :=
  match blocks with
  | [] => []
  | Text b :: blocks' => TextContent.text b :: text_fields blocks'
  | _ :: blocks' => text_fields blocks'
  end.

(** [original_content] defaults to [None]. *)
Definition serialize_content (blocks : list ContentBlock)
    (original_content : pyval) : M pyval :=
  match original_content with
  | PStr _ =>
      match blocks with
      | [Text b] => Ok (TextContent.text b)
      | _ => s <- join_values "" (text_fields blocks) ;; Ok (PStr s)
      end
  | _ => Ok (PList (map block_to_dict blocks))
  end.

(* ================================================================== *)
(** * Messages *)
(* ================================================================== *)

Module Usage.
Record t : Type := mk {
  input_tokens : pyval;
  output_tokens : pyval;
  cache_creation_input_tokens : pyval;
  cache_read_input_tokens : pyval;
  service_tier : pyval;
  _raw : option pydict
}.

(** [Usage()] *)
Definition default : t :=
  mk (PInt 0) (PInt 0) (PInt 0) (PInt 0) (PStr "") None.

Definition from_dict (d : pyval) : M t :=
  match d with
  | PNone => Ok default
  | _ =>
      d <- Py.as_dict d ;;
      Ok (mk (Dict.get d "input_tokens" (PInt 0))
             (Dict.get d "output_tokens" (PInt 0))
             (Dict.get d "cache_creation_input_tokens" (PInt 0))
             (Dict.get d "cache_read_input_tokens" (PInt 0))
             (Dict.get d "service_tier" (PStr ""))
             (Some d))
  end.

Definition to_dict (u : t) : pyval :=
  match _raw u with
  | Some d => PDict d
  | None =>
      let d := [("input_tokens", input_tokens u);
                ("output_tokens", output_tokens u);
                ("cache_creation_input_tokens", cache_creation_input_tokens u);
                ("cache_read_input_tokens", cache_read_input_tokens u)] in
      if Py.truthy (service_tier u)
      then PDict (d ++ [("service_tier", service_tier u)])
      else PDict d
  end.
End Usage.

Module UserMessage.
Record t : Type := mk {
  role : pyval;
  content : list ContentBlock;
  _raw : option pydict
}.

Definition from_dict (rt : Runtime) (d : pyval) : M t :=
  d <- Py.as_dict d ;;
  let content := parse_content rt (Dict.get d "content" (PStr "")) in
  Ok (mk (Dict.get d "role" (PStr "user")) content (Some d)).

Definition to_dict (m : t) : M pyval :=
  match _raw m with
  | Some d => Ok (PDict d)
  | None =>
      c <- serialize_content (content m) PNone ;;
      Ok (PDict [("role", role m); ("content", c)])
  end.
End UserMessage.

Module AssistantMessage.
Record t : Type := mk {
  role : pyval;
  content : list ContentBlock;
  _raw : option pydict;
  model : pyval;
  message_id : pyval;
  stop_reason : pyval;
  stop_sequence : pyval;
  usage : Usage.t
}.

Definition from_dict (rt : Runtime) (d : pyval) : M t :=
  d <- Py.as_dict d ;;
  let content := parse_content rt (Dict.get d "content" (PList [])) in
  usage <- Usage.from_dict (Dict.get_none d "usage") ;;
  Ok (mk (Dict.get d "role" (PStr "assistant")) content (Some d)
         (Dict.get d "model" (PStr "")) (Dict.get d "id" (PStr ""))
         (Dict.get_none d "stop_reason") (Dict.get_none d "stop_sequence")
         usage).

Definition to_dict (m : t) : M pyval :=
  match _raw m with
  | Some d => Ok (PDict d)
  | None =>
      c <- serialize_content (content m) PNone ;;
      let d := [("role", role m); ("content", c)] in
      let d := if Py.truthy (model m) then d ++ [("model", model m)] else d in
      let d :=
        if Py.truthy (message_id m) then d ++ [("id", message_id m)] else d in
      Ok (PDict (d ++ [("type", PStr "message");
                       ("stop_reason", stop_reason m);
                       ("stop_sequence", stop_sequence m);
                       ("usage", Usage.to_dict (usage m))]))
  end.
End AssistantMessage.

(* ================================================================== *)
(** * Entries *)
(* ================================================================== *)

(** The fields of the [Entry] base class. *)
Record EntryBase : Type := mk_base {
  uuid : pyval;
  timestamp : datetime;
  entry_type : pyval;
  raw : pydict
}.

(** The subclasses of [Entry]; [UnknownEntry] is the local class of
    [parse_entry]. *)
Inductive Entry : Type :=
| UserEntry (b : EntryBase) (message : UserMessage.t) (user_type : pyval)
| AssistantEntry (b : EntryBase) (message : AssistantMessage.t) (request_id : pyval)
| SystemEntry (b : EntryBase) (subtype content level is_meta : pyval)
| FileHistorySnapshotEntry (b : EntryBase)
    (message_id snapshot is_snapshot_update : pyval)
| SummaryEntry (b : EntryBase) (summary leaf_uuid : pyval)
| QueueOperationEntry (b : EntryBase) (operation content : pyval)
| UnknownEntry (b : EntryBase).

Definition base (e : Entry) : EntryBase :=
  match e with
  | UserEntry b _ _ | AssistantEntry b _ _ | SystemEntry b _ _ _ _
  | FileHistorySnapshotEntry b _ _ _ | SummaryEntry b _ _
  | QueueOperationEntry b _ _ | UnknownEntry b => b
  end.

(** [entry.parent_uuid] *)
Definition parent_uuid (e : Entry) : pyval :=
  Dict.get_none (raw (base e)) "parentUuid".

(** [entry.session_id] *)
Definition session_id_of (e : Entry) : pyval :=
  Dict.get_none (raw (base e)) "sessionId".

(** [entry.is_sidechain] *)
Definition is_sidechain (e : Entry) : pyval :=
  Dict.get (raw (base e)) "isSidechain" (PBool false).

(** [Entry.to_dict] *)
Definition to_dict (e : Entry) : pyval := PDict (raw (base e)).

(** [isinstance(e, (UserEntry, AssistantEntry))] *)
Definition is_user_or_assistant (e : Entry) : bool :=
  match e with
  | UserEntry _ _ _ | AssistantEntry _ _ _ => true
  | _ => false
  end.

(** [_parse_timestamp]; [now] is what [datetime.now()] reads. *)
Definition _parse_timestamp (rt : Runtime) (now : datetime) (ts : pyval)
  : M datetime :=
  if negb (Py.truthy ts) then Ok now
  else
    match ts with
    | PStr s =>
        match fromisoformat rt (Str.replace "Z"%char "+00:00" s) with
        | Some dt => Ok dt
        | None => Ok now
        end
    | _ => Raise AttributeError
    end.

Module UserEntry.
Definition from_dict (rt : Runtime) (now : datetime) (d : pydict) : M Entry :=
  let msg_dict := Dict.get d "message" (PDict []) in
  ts <- _parse_timestamp rt now (Dict.get d "timestamp" (PStr "")) ;;
  msg <- UserMessage.from_dict rt msg_dict ;;
  Ok (UserEntry (mk_base (Dict.get d "uuid" (PStr "")) ts (PStr "user") d)
                msg (Dict.get d "userType" (PStr "external"))).
End UserEntry.

Module AssistantEntry.
Definition from_dict (rt : Runtime) (now : datetime) (d : pydict) : M Entry :=
  let msg_dict := Dict.get d "message" (PDict []) in
  ts <- _parse_timestamp rt now (Dict.get d "timestamp" (PStr "")) ;;
  msg <- AssistantMessage.from_dict rt msg_dict ;;
  Ok (AssistantEntry
        (mk_base (Dict.get d "uuid" (PStr "")) ts (PStr "assistant") d)
        msg (Dict.get d "requestId" (PStr ""))).
End AssistantEntry.

Module SystemEntry.
Definition from_dict (rt : Runtime) (now : datetime) (d : pydict) : M Entry :=
  ts <- _parse_timestamp rt now (Dict.get d "timestamp" (PStr "")) ;;
  Ok (SystemEntry
        (mk_base (Dict.get d "uuid" (PStr "")) ts (PStr "system") d)
        (Dict.get d "subtype" (PStr "")) (Dict.get d "content" (PStr ""))
        (Dict.get d "level" (PStr "info")) (Dict.get d "isMeta" (PBool false))).
End SystemEntry.

Module FileHistorySnapshotEntry.
Definition from_dict (rt : Runtime) (now : datetime) (d : pydict) : M Entry :=
  snap <- Py.as_dict (Dict.get d "snapshot" (PDict [])) ;;
  ts <- _parse_timestamp rt now (Dict.get snap "timestamp" (PStr "")) ;;
  Ok (FileHistorySnapshotEntry
        (mk_base (Dict.get d "messageId" (Dict.get d "uuid" (PStr ""))) ts
                 (PStr "file-history-snapshot") d)
        (Dict.get d "messageId" (PStr "")) (Dict.get d "snapshot" (PDict []))
        (Dict.get d "isSnapshotUpdate" (PBool false))).
End FileHistorySnapshotEntry.

Module SummaryEntry.
Definition from_dict (now : datetime) (d : pydict) : M Entry :=
  Ok (SummaryEntry
        (mk_base (Dict.get d "leafUuid" (PStr "")) now (PStr "summary") d)
        (Dict.get d "summary" (PStr "")) (Dict.get d "leafUuid" (PStr ""))).
End SummaryEntry.

Module QueueOperationEntry.
Definition from_dict (rt : Runtime) (now : datetime) (d : pydict) : M Entry :=
  ts <- _parse_timestamp rt now (Dict.get d "timestamp" (PStr "")) ;;
  Ok (QueueOperationEntry
        (mk_base (PStr "") ts (PStr "queue-operation") d)
        (Dict.get d "operation" (PStr "")) (Dict.get d "content" (PStr ""))).
End QueueOperationEntry.

(** [parse_entry(d)]: [d.get] raises [AttributeError] when [d] is not a
    [dict]. *)
Definition parse_entry (rt : Runtime) (now : datetime) (d : pyval) : M Entry :=
  d <- Py.as_dict d ;;
  let entry_type := Dict.get d "type" (PStr "") in
  if Py.equal entry_type (PStr "user") then UserEntry.from_dict rt now d
  else if Py.equal entry_type (PStr "assistant") then
    AssistantEntry.from_dict rt now d
  else if Py.equal entry_type (PStr "system") then SystemEntry.from_dict rt now d
  else if Py.equal entry_type (PStr "file-history-snapshot") then
    FileHistorySnapshotEntry.from_dict rt now d
  else if Py.equal entry_type (PStr "summary") then SummaryEntry.from_dict now d
  else if Py.equal entry_type (PStr "queue-operation") then
    QueueOperationEntry.from_dict rt now d
  else
    ts <- _parse_timestamp rt now (Dict.get d "timestamp" (PStr "")) ;;
    Ok (UnknownEntry (mk_base (Dict.get d "uuid" (PStr "")) ts entry_type d)).

(* ================================================================== *)
(** * Interactions *)
(* ================================================================== *)

Module Action.
Record t : Type := mk {
  action_type : string;
  timestamp : option datetime;
  thinking : pyval;
  tool_name : pyval;
  tool_id : pyval;
  tool_input : pyval;
  tool_result : option string;
  is_error : pyval;
  text : option string;
  summary : option string
}.

(** [Action(action_type=..., timestamp=...)] with every other field at its
    default. *)
Definition make (action_type : string) (ts : datetime) : t :=
  mk action_type (Some ts) PNone PNone PNone PNone None (PBool false) None None.

Definition with_thinking (a : t) (v : pyval) : t :=
  mk (action_type a) (timestamp a) v (tool_name a) (tool_id a) (tool_input a)
     (tool_result a) (is_error a) (text a) (summary a).

Definition with_tool (a : t) (name id input : pyval) : t :=
  mk (action_type a) (timestamp a) (thinking a) name id input
     (tool_result a) (is_error a) (text a) (summary a).

(** [a.tool_result = r; a.is_error = e] *)
Definition with_result (a : t) (r : string) (e : pyval) : t :=
  mk (action_type a) (timestamp a) (thinking a) (tool_name a) (tool_id a)
     (tool_input a) (Some r) e (text a) (summary a).

Definition with_text (a : t) (s : string) : t :=
  mk (action_type a) (timestamp a) (thinking a) (tool_name a) (tool_id a)
     (tool_input a) (tool_result a) (is_error a) (Some s) (summary a).

Definition with_summary (a : t) (s : string) : t :=
  mk (action_type a) (timestamp a) (thinking a) (tool_name a) (tool_id a)
     (tool_input a) (tool_result a) (is_error a) (text a) (Some s).
End Action.

Module Interaction.
Record t : Type := mk {
  id : string;
  timestamp : datetime;
  user_prompt : string;
  actions : list Action.t;
  final_response : option string;
  model : pyval;
  cancel_reason : option string
}.

Definition with_actions (i : t) (acts : list Action.t) : t :=
  mk (id i) (timestamp i) (user_prompt i) acts (final_response i) (model i)
     (cancel_reason i).

Definition with_final_response (i : t) (r : option string) : t :=
  mk (id i) (timestamp i) (user_prompt i) (actions i) r (model i)
     (cancel_reason i).

Definition with_model (i : t) (m : pyval) : t :=
  mk (id i) (timestamp i) (user_prompt i) (actions i) (final_response i) m
     (cancel_reason i).

Definition with_cancel_reason (i : t) (r : option string) : t :=
  mk (id i) (timestamp i) (user_prompt i) (actions i) (final_response i)
     (model i) r.
End Interaction.

(** A double quote, a line feed, and the prefix of a thinking block rendered
    as JSON text. *)
Definition dquote : string := String (ascii_of_nat 34) EmptyString.
Definition newline : string := String (ascii_of_nat 10) EmptyString.
Definition THINKING_JSON_PREFIX : string :=
  ("{" ++ dquote ++ "type" ++ dquote ++ ": " ++ dquote ++ "thinking" ++ dquote)%string.

Definition _is_local_command_message (text : string) : bool :=
  if Str.startswith text
       "Caveat: The messages below were generated by the user while running local commands"
  then true
  else if Str.contains "<command-name>" text || Str.contains "<command-message>" text
  then true
  else if Str.contains "<local-command-stdout>" text
          || Str.contains "<local-command-stderr>" text
  then true
  else false.

Definition AUTO_COMPACT_PREFIX : string :=
  "This session is being continued from a previous conversation that ran out of context.".

Definition CANCELLATION_MESSAGES : list string :=
  ["[Request interrupted by user for tool use]";
   "[Request interrupted by user]"].

Definition _is_auto_compact_message (text : string) : bool :=
  Str.startswith (Str.strip text) AUTO_COMPACT_PREFIX.

Definition _is_cancellation_message (text : string) : bool :=
  existsb (String.eqb (Str.strip text)) CANCELLATION_MESSAGES.

(** [text += v] on a [str]: [TypeError] unless [v] is a [str]. *)
Definition str_add (text : string) (v : pyval) : M string :=
  match v with
  | PStr s => Ok (text ++ s)%string
  | _ => Raise TypeError
  end.

(** [isinstance(b, ToolResultContent)] *)
Definition is_tool_result (b : ContentBlock) : bool :=
  match b with ToolResult _ => true | _ => false end.

Definition _is_human_message (entry : Entry) : M bool :=
  match entry with
  | UserEntry _ message _ =>
      if existsb is_tool_result (UserMessage.content message) then Ok false
      else
        text <- foldM (fun text block =>
                         match block with
                         | Text b => str_add text (TextContent.text b)
                         | _ => Ok text
                         end) (UserMessage.content message) "" ;;
        if _is_local_command_message text then Ok false
        else if _is_auto_compact_message text then Ok false
        else if _is_cancellation_message text then Ok false
        else Ok true
  | _ => Ok false
  end.

(** [entry.message.content]; only user and assistant entries have a
    [message]. *)
Definition message_content (entry : Entry) : M (list ContentBlock) :=
  match entry with
  | UserEntry _ message _ => Ok (UserMessage.content message)
  | AssistantEntry _ message _ => Ok (AssistantMessage.content message)
  | _ => Raise AttributeError
  end.

Definition _get_text_content (entry : Entry) : M string :=
  content <- message_content entry ;;
  join_values newline (text_fields content).

(** The loop state of [_extract_actions_from_assistant]. *)
Definition extract_state : Type := (list Action.t * list string * bool)%type.

Definition extract_block (ts : datetime) (st : extract_state)
    (block : ContentBlock) : M extract_state :=
  let '(actions, text_parts, has_tool_use) := st in
  match block with
  | Thinking b =>
      Ok (actions ++ [Action.with_thinking (Action.make "thinking" ts)
                        (ThinkingContent.thinking b)],
          text_parts, has_tool_use)
  | ToolUse b =>
      Ok (actions ++ [Action.with_tool (Action.make "tool_use" ts)
                        (ToolUseContent.name b) (ToolUseContent.id b)
                        (ToolUseContent.input b)],
          text_parts, true)
  | Text b =>
      match TextContent.text b with
      | PStr text =>
          if Str.startswith text "{'type': 'thinking'"
             || Str.startswith text THINKING_JSON_PREFIX
          then Ok st
          else Ok (actions, text_parts ++ [text], has_tool_use)
      | _ => Raise AttributeError
      end
  | ToolResult _ => Ok st
  end.

(** Returns [(actions, final_text, has_tool_use)]. *)
Definition _extract_actions_from_assistant (entry : Entry)
  : M (list Action.t * option string * bool) :=
  content <- message_content entry ;;
  '(actions, text_parts, has_tool_use) <-
     foldM (extract_block (timestamp (base entry))) content ([], [], false) ;;
  let final_text :=
    match text_parts with
    | [] => None
    | _ => Some (Str.join newline text_parts)
    end in
  Ok (actions, final_text, has_tool_use).

(** [block.content if isinstance(block.content, str) else
    json.dumps(block.content)] *)
Definition content_as_str (rt : Runtime) (content : pyval) : string :=
  match content with
  | PStr s => s
  | v => json_dumps rt v
  end.

(** Maps [tool_use_id] to [(result_content, is_error)]. *)
Definition _extract_tool_results (rt : Runtime) (entry : Entry)
  : M (PyMap.t (string * pyval)) :=
  content <- message_content entry ;;
  foldM (fun results block =>
           match block with
           | ToolResult b =>
               let content_str := content_as_str rt (ToolResultContent.content b) in
               PyMap.set results (ToolResultContent.tool_use_id b)
                         (content_str, ToolResultContent.is_error b)
           | _ => Ok results
           end) content [].

(** The test of the scan in [_find_tool_use_action]. *)
Definition is_tool_use_with_id (tool_id : pyval) (action : Action.t) : bool :=
  String.eqb (Action.action_type action) "tool_use"
  && Py.equal (Action.tool_id action) tool_id.

(** The position of the first action that passes [test]. *)
Fixpoint find_index {A} (test : A -> bool) (l : list A) : option nat :=
  match l with
  | [] => None
  | x :: l' => if test x then Some 0 else option_map S (find_index test l')
  end.

(** [_find_tool_use_action]: the [Action] it returns is a reference into the
    action list of the current interaction, given here by its position. *)
Definition _find_tool_use_action (current_interaction : option Interaction.t)
    (tool_id : pyval) : option nat :=
  match current_interaction with
  | None => None
  | Some cur => find_index (is_tool_use_with_id tool_id) (Interaction.actions cur)
  end.

(** Assignment through the reference at position [n]. *)
Fixpoint update_at {A} (n : nat) (f : A -> A) (l : list A) {struct l} : list A :=
  match l with
  | [] => []
  | x :: l' =>
      match n with
      | 0 => f x :: l'
      | S n' => x :: update_at n' f l'
      end
  end.

(** The body of [for tool_id, (result_content, is_error) in
    tool_results.items()]. *)
Definition apply_tool_result (cur : Interaction.t)
    (item : pyval * (string * pyval)) : Interaction.t :=
  let '(tool_id, (result_content, is_error)) := item in
  match _find_tool_use_action (Some cur) tool_id with
  | Some n =>
      Interaction.with_actions cur
        (update_at n (fun a => Action.with_result a result_content is_error)
                   (Interaction.actions cur))
  | None => cur
  end.

(** [bool(s)] for a [str | None]. *)
Definition truthy_str (s : option string) : bool :=
  match s with
  | Some s => negb (String.eqb s "")
  | None => false
  end.

(** The local variables of [build_interactions]. *)
Record builder : Type := mk_builder {
  interactions : list Interaction.t;
  current_interaction : option Interaction.t;
  interaction_counter : nat
}.

Definition set_current (st : builder) (cur : Interaction.t) : builder :=
  mk_builder (interactions st) (Some cur) (interaction_counter st).

(** The branch of a human message. *)
Definition start_interaction (st : builder) (entry : Entry) : M builder :=
  let interactions' :=
    match current_interaction st with
    | Some cur => interactions st ++ [cur]
    | None => interactions st
    end in
  let interaction_counter' := interaction_counter st + 1 in
  user_text <- _get_text_content entry ;;
  Ok (mk_builder interactions'
        (Some (Interaction.mk
                 ("interaction-" ++ Str.of_nat interaction_counter')%string
                 (timestamp (base entry)) user_text [] None PNone None))
        interaction_counter').

(** The branch of a user entry that is not a human message. *)
Definition user_followup (rt : Runtime) (st : builder) (entry : Entry) : M builder :=
  match current_interaction st with
  | None => Ok st
  | Some cur =>
      text <- _get_text_content entry ;;
      if _is_cancellation_message text then
        Ok (set_current st
              (Interaction.with_cancel_reason cur (Some (Str.strip text))))
      else if _is_auto_compact_message text then
        Ok (set_current st
              (Interaction.with_actions cur
                 (Interaction.actions cur ++
                    [Action.with_summary
                       (Action.make "auto_compact" (timestamp (base entry)))
                       text])))
      else
        tool_results <- _extract_tool_results rt entry ;;
        Ok (set_current st (fold_left apply_tool_result tool_results cur))
  end.

(** The branch of an assistant entry. *)
Definition assistant_response (st : builder) (entry : Entry)
    (message : AssistantMessage.t) : M builder :=
  match current_interaction st with
  | None => Ok st
  | Some cur =>
      '(actions, text, has_tool_use) <- _extract_actions_from_assistant entry ;;
      let cur := Interaction.with_actions cur (Interaction.actions cur ++ actions) in
      let cur :=
        match Interaction.model cur with
        | PNone =>
            if Py.truthy (AssistantMessage.model message)
            then Interaction.with_model cur (AssistantMessage.model message)
            else cur
        | _ => cur
        end in
      match text with
      | Some s =>
          if truthy_str text then
            let cur :=
              Interaction.with_actions cur
                (Interaction.actions cur ++
                   [Action.with_text
                      (Action.make "text" (timestamp (base entry))) s]) in
            let final_response' :=
              match Interaction.final_response cur with
              | Some r =>
                  if truthy_str (Some r) then (r ++ newline ++ s)%string else s
              | None => s
              end in
            Ok (set_current st
                  (Interaction.with_final_response cur (Some final_response')))
          else Ok (set_current st cur)
      | None => Ok (set_current st cur)
      end
  end.

(** The body of [for entry in entries]. *)
Definition build_step (rt : Runtime) (st : builder) (entry : Entry) : M builder :=
  match entry with
  | SystemEntry _ _ _ _ _ | SummaryEntry _ _ _ => Ok st
  | _ =>
      human <- _is_human_message entry ;;
      if human then start_interaction st entry
      else
        match entry with
        | UserEntry _ _ _ => user_followup rt st entry
        | AssistantEntry _ message _ => assistant_response st entry message
        | _ => Ok st
        end
  end.

Definition build_interactions (rt : Runtime) (entries : list Entry)
  : M (list Interaction.t) :=
  st <- foldM (build_step rt) entries (mk_builder [] None 0) ;;
  match current_interaction st with
  | Some cur => Ok (interactions st ++ [cur])
  | None => Ok (interactions st)
  end.

(* ================================================================== *)
(** * Sessions and conversation threads *)
(* ================================================================== *)

Record Session : Type := mk_session {
  file_path : string;
  entries : list Entry;
  session_id : pyval
}.

(** [Session.interactions] *)
Definition session_interactions (rt : Runtime) (s : Session) : M (list Interaction.t) :=
  build_interactions rt (entries s).

(** [uuid_to_entry] after its loop. *)
Definition uuid_index (es : list Entry) : M (PyMap.t Entry) :=
  foldM (fun uuid_to_entry entry =>
           if Py.truthy (uuid (base entry))
           then PyMap.set uuid_to_entry (uuid (base entry)) entry
           else Ok uuid_to_entry) es [].

(** [e.parent_uuid and e.parent_uuid in uuid_to_entry] *)
Definition has_parent (uuid_to_entry : PyMap.t Entry) (e : Entry) : M bool :=
  if Py.truthy (parent_uuid e) then PyMap.mem uuid_to_entry (parent_uuid e)
  else Ok false.

(** [[e for e in xs if test(e)]] with a test that can raise. *)
Fixpoint filterM {A} (test : A -> M bool) (xs : list A) : M (list A) :=
  match xs with
  | [] => Ok []
  | x :: xs' =>
      keep <- test x ;;
      rest <- filterM test xs' ;;
      Ok (if keep then x :: rest else rest)
  end.

(** [roots]: entries with no parent or parent not in session. *)
Definition roots_of (uuid_to_entry : PyMap.t Entry) (es : list Entry)
  : M (list Entry) :=
  filterM (fun e => p <- has_parent uuid_to_entry e ;; Ok (negb p)) es.

(** [children] after its loop; [children[k].append(entry)] extends the list
    stored under [k]. *)
Definition children_of (uuid_to_entry : PyMap.t Entry) (es : list Entry)
  : M (PyMap.t (list Entry)) :=
  foldM (fun children entry =>
           p <- has_parent uuid_to_entry entry ;;
           if p then
             let siblings :=
               match PyMap.find children (parent_uuid entry) with
               | Some l => l
               | None => []
               end in
             Ok (PyMap.put children (parent_uuid entry) (siblings ++ [entry]))
           else Ok children) es [].

(** [stack.pop()]: a Python list used as a stack has its top at the end. *)
Definition pop {A} (stack : list A) : option (list A * A) :=
  match rev stack with
  | [] => None
  | top :: below => Some (rev below, top)
  end.

(** The [while stack:] loop, one unit of fuel per iteration. *)
Fixpoint dfs_loop (fuel : nat) (children : PyMap.t (list Entry))
    (stack thread : list Entry) : option (M (list Entry)) :=
  match pop stack with
  | None => Some (Ok thread)
  | Some (stack, entry) =>
      match fuel with
      | 0 => None
      | S fuel' =>
          let thread := thread ++ [entry] in
          match PyMap.mem children (uuid (base entry)) with
          | Raise e => Some (Raise e)
          | Ok true =>
              let kids :=
                match PyMap.find children (uuid (base entry)) with
                | Some l => l
                | None => []
                end in
              dfs_loop fuel' children (stack ++ rev kids) thread
          | Ok false => dfs_loop fuel' children stack thread
          end
      end
  end.

(** The [for root in roots:] loop. *)
Fixpoint threads_from (fuel : nat) (children : PyMap.t (list Entry))
    (roots : list Entry) : option (M (list (list Entry))) :=
  match roots with
  | [] => Some (Ok [])
  | root :: roots' =>
      if is_user_or_assistant root then
        match dfs_loop fuel children [root] [] with
        | None => None
        | Some (Raise e) => Some (Raise e)
        | Some (Ok thread) =>
            match threads_from fuel children roots' with
            | None => None
            | Some (Raise e) => Some (Raise e)
            | Some (Ok conversations) =>
                Some (Ok (match thread with
                          | [] => conversations
                          | _ => thread :: conversations
                          end))
            end
        end
      else threads_from fuel children roots'
  end.

(** [Session.get_conversations]; [fuel] bounds the iterations of each
    [while] loop. *)
Definition get_conversations (fuel : nat) (s : Session)
  : option (M (list (list Entry))) :=
  match uuid_index (entries s) with
  | Raise e => Some (Raise e)
  | Ok uuid_to_entry =>
      match roots_of uuid_to_entry (entries s) with
      | Raise e => Some (Raise e)
      | Ok roots =>
          match children_of uuid_to_entry (entries s) with
          | Raise e => Some (Raise e)
          | Ok children => threads_from fuel children roots
          end
      end
  end.

(* ================================================================== *)
(** * Round-trip verification *)
(* ================================================================== *)

(** What [json.loads] does with the stripped text of a line: it returns the
    decoded value, it raises [JSONDecodeError] (the text is no JSON document),
    or it raises another exception: a plain [ValueError] on an integer
    literal with more digits than the interpreter converts, [RecursionError]
    on a document that is nested too deeply.  [JSONDecodeError] is the only one
    that the callers catch. *)
Inductive loads_result : Type :=
| Loaded (v : pyval)
| JSONDecodeError
| LoadsRaises (e : exn).

(** One line of the file: its text and what [json.loads] does with the
    stripped text. *)
Record line : Type := mk_line {
  line_text : string;
  loads : loads_result
}.

(** What reading a file gives: the lines that iterating over it yields and,
    when [open] raises or the bytes that follow are not UTF-8, the exception
    that ends the iteration after these lines ([OSError],
    [UnicodeDecodeError]). *)
Record text_file : Type := mk_text_file {
  file_lines : list line;
  read_error : option exn
}.

(** The body of the loop over [enumerate(f, 1)]. *)
Definition verify_line (rt : Runtime) (clock : nat -> datetime)
    (mismatched : list nat) (numbered : nat * line) : M (list nat) :=
  let '(line_num, l) := numbered in
  if String.eqb (Str.strip (line_text l)) "" then Ok mismatched
  else
    match loads l with
    | JSONDecodeError => Ok mismatched
    | LoadsRaises e => Raise e
    | Loaded original =>
        entry <- parse_entry rt (clock line_num) original ;;
        let serialized := to_dict entry in
        if Py.not_equal original serialized
        then Ok (mismatched ++ [line_num])
        else Ok mismatched
    end.

(** [enumerate(xs, start)] *)
Fixpoint enumerate {A} (xs : list A) (start : nat) : list (nat * A) :=
  match xs with
  | [] => []
  | x :: xs' => (start, x) :: enumerate xs' (S start)
  end.

(** [verify_roundtrip]; [file] is what reading the file gives and [clock n]
    is the reading of [datetime.now()] while line [n] is parsed. *)
Definition verify_roundtrip (rt : Runtime) (clock : nat -> datetime)
    (file : text_file) : M (bool * list nat) :=
  mismatched <- foldM (verify_line rt clock) (enumerate (file_lines file) 1) [] ;;
  match read_error file with
  | Some e => Raise e
  | None => Ok (Nat.eqb (List.length mismatched) 0, mismatched)
  end.

(* ================================================================== *)
(** * Sessions: construction, views and serialization *)
(* ================================================================== *)

(** [Session.__post_init__]: the session id is that of the first entry that
    has one. *)
Definition __post_init__ (s : Session) : Session :=
  match find (fun entry => Py.truthy (session_id_of entry)) (entries s) with
  | Some entry => mk_session (file_path s) (entries s) (session_id_of entry)
  | None => s
  end.

(** [Session(file_path=p, entries=es)]: [session_id] has its default, then
    [__post_init__] runs. *)
Definition new_session (p : string) (es : list Entry) : Session :=
  __post_init__ (mk_session p es (PStr "")).

(** [Session.user_entries], [assistant_entries], [system_entries] and
    [summaries]: the entries of one class. *)
Definition user_entries (s : Session) : list Entry :=
  filter (fun e => match e with UserEntry _ _ _ => true | _ => false end)
         (entries s).

Definition assistant_entries (s : Session) : list Entry :=
  filter (fun e => match e with AssistantEntry _ _ _ => true | _ => false end)
         (entries s).

Definition system_entries (s : Session) : list Entry :=
  filter (fun e => match e with SystemEntry _ _ _ _ _ => true | _ => false end)
         (entries s).

Definition summaries (s : Session) : list Entry :=
  filter (fun e => match e with SummaryEntry _ _ _ => true | _ => false end)
         (entries s).

(** [Path(p).stem], a library function. *)
Record PathLib : Type := mk_pathlib {
  path_stem : string -> string
}.

(** [Session.is_agent] *)
Definition is_agent (pl : PathLib) (s : Session) : bool :=
  Str.startswith (path_stem pl (file_path s)) "agent-".

(** [serialize_entry]; [dumps v] is [json.dumps(v, ensure_ascii=False)]. *)
Definition serialize_entry (dumps : pyval -> string) (entry : Entry) : string :=
  dumps (to_dict entry).

(** [Session.to_jsonl] *)
Definition to_jsonl (dumps : pyval -> string) (s : Session) : string :=
  let lines := map (serialize_entry dumps) (entries s) in
  Str.join newline lines.





(* ================================================================== *)
(** * Parsing files and directories *)
(* ================================================================== *)

(** The body of the loop of [parse_session_file]. *)
Definition parse_line (rt : Runtime) (clock : nat -> datetime)
    (parsed : list Entry) (numbered : nat * line) : M (list Entry) :=
  let '(line_num, l) := numbered in
  if String.eqb (Str.strip (line_text l)) "" then Ok parsed
  else
    match loads l with
    | JSONDecodeError => Ok parsed
    | LoadsRaises e => Raise e
    | Loaded d =>
        entry <- parse_entry rt (clock line_num) d ;;
        Ok (parsed ++ [entry])
    end.

(** [parse_session_file]; [file] is what reading the file gives and
    [clock n] is the reading of [datetime.now()] while line [n] is parsed. *)
Definition parse_session_file (rt : Runtime) (clock : nat -> datetime)
    (p : string) (file : text_file) : M Session :=
  parsed <- foldM (parse_line rt clock) (enumerate (file_lines file) 1) [] ;;
  match read_error file with
  | Some e => Raise e
  | None => Ok (new_session p parsed)
  end.

(** A file that [sorted(subdir.glob("*.jsonl"))] yields: its path and what
    reading it gives. *)
Record jsonl_file : Type := mk_jsonl_file {
  jsonl_path : string;
  jsonl_text : text_file
}.

(** The lines that reading the file yields. *)
Definition jsonl_lines (f : jsonl_file) : list line :=
  file_lines (jsonl_text f).

(** A child that [sorted(root_path.iterdir())] yields: its [name] and, when it
    [is_dir()], the files of [sorted(subdir.glob("*.jsonl"))] in that
    order. *)
Record dir_child : Type := mk_dir_child {
  child_name : string;
  child_files : option (list jsonl_file)
}.

Record ClaudeHistory : Type := mk_history {
  root_path : string;
  sessions : list Session;
  sources : PyMap.t (list Session)
}.

(** [ClaudeHistory.all_entries] *)
Definition all_entries (h : ClaudeHistory) : list Entry :=
  flat_map entries (sessions h).

(** [ClaudeHistory.all_user_entries] *)
Definition all_user_entries (h : ClaudeHistory) : list Entry :=
  filter (fun e => match e with UserEntry _ _ _ => true | _ => false end)
         (all_entries h).

(** [ClaudeHistory.all_assistant_entries] *)
Definition all_assistant_entries (h : ClaudeHistory) : list Entry :=
  filter (fun e => match e with AssistantEntry _ _ _ => true | _ => false end)
         (all_entries h).

(** [ClaudeHistory.regular_sessions] *)
Definition regular_sessions (pl : PathLib) (h : ClaudeHistory) : list Session :=
  filter (fun s => negb (is_agent pl s)) (sessions h).

(** [ClaudeHistory.agent_sessions] *)
Definition agent_sessions (pl : PathLib) (h : ClaudeHistory) : list Session :=
  filter (is_agent pl) (sessions h).

(** [ClaudeHistory.sessions_by_source], for a [str]. *)
Definition sessions_by_source (h : ClaudeHistory) (source : string)
  : list Session :=
  match PyMap.find (sources h) (PStr source) with
  | Some l => l
  | None => []
  end.

(** The loop over the files of one subdirectory in [load_claude_history];
    the state is [(source_sessions, all_sessions)] and [clock p n] is the
    reading of [datetime.now()] while line [n] of the file [p] is parsed. *)
Definition load_file (rt : Runtime) (clock : string -> nat -> datetime)
    (st : list Session * list Session) (f : jsonl_file)
  : M (list Session * list Session) :=
  let '(source_sessions, all_sessions) := st in
  session <- parse_session_file rt (clock (jsonl_path f)) (jsonl_path f)
                                (jsonl_text f) ;;
  Ok (source_sessions ++ [session], all_sessions ++ [session]).

(** The body of the loop over the children of the root; the state is
    [(all_sessions, sources)]. *)
Definition load_child (rt : Runtime) (clock : string -> nat -> datetime)
    (st : list Session * PyMap.t (list Session)) (child : dir_child)
  : M (list Session * PyMap.t (list Session)) :=
  let '(all_sessions, srcs) := st in
  match child_files child with
  | Some files =>
      '(source_sessions, all_sessions) <-
         foldM (load_file rt clock) files ([], all_sessions) ;;
      Ok (all_sessions, PyMap.put srcs (PStr (child_name child)) source_sessions)
  | None => Ok st
  end.

(** [load_claude_history]; [listing] is what [sorted(root_path.iterdir())]
    yields. *)
Definition load_claude_history (rt : Runtime)
    (clock : string -> nat -> datetime) (root : string)
    (listing : list dir_child) : M ClaudeHistory :=
  '(all_sessions, srcs) <- foldM (load_child rt clock) listing ([], []) ;;
  Ok (mk_history root all_sessions srcs).

(** [verify_all_roundtrips]: the verdicts keyed by [str(file_path)]. *)
Definition verify_all_roundtrips (rt : Runtime)
    (clock : string -> nat -> datetime) (listing : list dir_child)
  : M (PyMap.t (bool * list nat)) :=
  foldM (fun results child =>
           match child_files child with
           | Some files =>
               foldM (fun results f =>
                        verdict <- verify_roundtrip rt (clock (jsonl_path f))
                                                    (jsonl_text f) ;;
                        Ok (PyMap.put results (PStr (jsonl_path f)) verdict))
                     files results
           | None => Ok results
           end) listing [].

(* ================================================================== *)
(** * The server: [backend/server.py] *)
(* ================================================================== *)

(** What a call that can raise [ValueError] does. *)
Inductive int_outcome (A : Type) : Type :=
| Returns (a : A)
| RaisesValueError.

Arguments Returns {A} a.
Arguments RaisesValueError {A}.

(** The decimal digits of a non-empty string of ASCII digits, [None] for any
    other string. *)
Definition ascii_digits (s : string) : option Decimal.uint :=
  NilZero.uint_of_string s.

(** [int(s)]: [ValueError] when [s] is not a decimal literal or has more
    digits than [max_str_digits], the limit of the interpreter
    ([sys.get_int_max_str_digits()], 0 when there is none). Only strings
    without sign, blank or underscore are passed to it here. *)
Definition py_int (max_str_digits : nat) (s : string) : int_outcome Z :=
  match ascii_digits s with
  | Some d =>
      if negb (max_str_digits =? 0)%nat && (max_str_digits <? String.length s)%nat
      then RaisesValueError
      else Returns (Z.of_nat (Nat.of_uint d))
  | None => RaisesValueError
  end.

(** [extract_numeric_id] *)
Definition extract_numeric_id (max_str_digits : nat) (file_name : string)
  : int_outcome (option Z) :=
  let stem := Str.replace_str ".jsonl" "" file_name in
  let parts := Str.split1 "_"%char stem in
  match parts with
  | first :: _ =>
      if (1 <=? List.length parts)%nat && Str.isdigit first then
        match py_int max_str_digits first with
        | Returns n => Returns (Some n)
        | RaisesValueError => RaisesValueError
        end
      else Returns None
  | [] => Returns None
  end.

(** [get_stats]; [loaded_sessions] is the global of that name. *)
Definition get_stats (rt : Runtime) (loaded_sessions : list Session) : M pydict :=
  total_interactions <-
    foldM (fun total s =>
             l <- session_interactions rt s ;; Ok (total + List.length l))
          loaded_sessions 0 ;;
  Ok [("total_sessions", PInt (Z.of_nat (List.length loaded_sessions)));
      ("total_interactions", PInt (Z.of_nat total_interactions))].


(* ================================================================== *)
(** * Vocabulary of the properties *)
(* ================================================================== *)

(** ** Generic facts *)

(** A runtime whose library calls give nothing; the examples that use it do
    not reach them. *)
Definition inert_runtime : Runtime :=
  mk_runtime (fun _ => None) (fun _ => "") (fun _ => "").

Definition epoch : datetime := mk_datetime 1970 1 1 0 0 0 0 None.

(** ** Round trip of entries *)

(** The seven kinds of [Entry], as a tag. *)
Inductive kind : Type :=
| KUser | KAssistant | KSystem | KFileHistorySnapshot | KSummary
| KQueueOperation | KUnknown.

Definition kind_of (e : Entry) : kind :=
  match e with
  | UserEntry _ _ _ => KUser
  | AssistantEntry _ _ _ => KAssistant
  | SystemEntry _ _ _ _ _ => KSystem
  | FileHistorySnapshotEntry _ _ _ _ => KFileHistorySnapshot
  | SummaryEntry _ _ _ => KSummary
  | QueueOperationEntry _ _ _ => KQueueOperation
  | UnknownEntry _ => KUnknown
  end.

(** A decoded value as [json.loads] builds it: the keys of every dict are
    pairwise distinct. *)
Fixpoint well_formed (v : pyval) : Prop :=
  match v with
  | PList l => fold_right (fun x rest => well_formed x /\ rest) True l
  | PDict d =>
      NoDup (map fst d) /\
      fold_right (fun kv rest => well_formed (snd kv) /\ rest) True d
  | _ => True
  end.

(** One record of each kind. *)
Definition sample_record (type : string) : pyval :=
  PDict [("type", PStr type); ("uuid", PStr "u1");
         ("message", PDict [("role", PStr "user"); ("content", PStr "hi")]);
         ("cost", PFloat (S754_finite false 3 (-1)))].

Definition sample_types : list string :=
  ["user"; "assistant"; "system"; "file-history-snapshot"; "summary";
   "queue-operation"; "progress"].

Definition sample_entry (type : string) : option Entry :=
  match parse_entry inert_runtime epoch (sample_record type) with
  | Ok e => Some e
  | Raise _ => None
  end.

(** ** Timestamp decoding *)

(** [isinstance(v, str)] *)
Definition is_str (v : pyval) : bool :=
  match v with PStr _ => true | _ => false end.

(** No character of [s] is [c]. *)
Fixpoint lacks (c : ascii) (s : string) : bool :=
  match s with
  | EmptyString => true
  | String c' s' => negb (Ascii.eqb c' c) && lacks c s'
  end.

(** ** The round-trip verifier *)

(** The line is blank, or [json.loads] is reached and raises
    [JSONDecodeError]. *)
Definition skipped (l : line) : bool :=
  String.eqb (Str.strip (line_text l)) "" ||
  match loads l with JSONDecodeError => true | _ => false end.

(** The decoded value of a line that is not blank and on which [json.loads]
    returns. *)
Definition decoded (l : line) : option pyval :=
  if String.eqb (Str.strip (line_text l)) "" then None
  else match loads l with Loaded v => Some v | _ => None end.

(** The exception that leaves [json.loads] uncaught on a line that is not
    blank. *)
Definition loads_raises (l : line) : option exn :=
  if String.eqb (Str.strip (line_text l)) "" then None
  else match loads l with LoadsRaises e => Some e | _ => None end.

(** Line [n] decodes and [parse_entry] returns an entry whose [to_dict]
    differs from the decoded value. *)
Definition differs (rt : Runtime) (clock : nat -> datetime)
    (numbered : nat * line) : bool :=
  match decoded (snd numbered) with
  | Some original =>
      match parse_entry rt (clock (fst numbered)) original with
      | Ok entry => Py.not_equal original (to_dict entry)
      | Raise _ => false
      end
  | None => false
  end.

(** On every line [json.loads] raises nothing but [JSONDecodeError], and
    every line that decodes is a record that [parse_entry] accepts. *)
Definition parseable (rt : Runtime) (clock : nat -> datetime)
    (numbered : list (nat * line)) : Prop :=
  forall n l,
    In (n, l) numbered ->
    loads_raises l = None /\
    forall original,
      decoded l = Some original ->
      exists entry, parse_entry rt (clock n) original = Ok entry.

(** A file that is read to its end. *)
Definition read_in_full (lines : list line) : text_file :=
  mk_text_file lines None.

Definition sample_file : text_file :=
  read_in_full
    [mk_line "{bad json" JSONDecodeError;
     mk_line "   " JSONDecodeError;
     mk_line "{}" (Loaded (PDict []));
     mk_line "not json either" JSONDecodeError].

(** ** Serializing content *)



(** ** The interaction builder as a state machine *)

(** [isinstance(e, AssistantEntry)] *)
Definition is_assistant (e : Entry) : bool :=
  match e with AssistantEntry _ _ _ => true | _ => false end.

(** [entry] is one that takes the human-message branch. *)
Definition starts_interaction (e : Entry) : bool :=
  match _is_human_message e with
  | Ok true => true
  | _ => false
  end.

(** [current_interaction is not None] *)
Definition active (st : builder) : bool :=
  match current_interaction st with Some _ => true | None => false end.

(** The entries left when every assistant entry that arrives while no
    interaction is active is removed; [active] says whether an interaction
    is active before the first entry. *)
Fixpoint drop_idle_assistants (active : bool) (es : list Entry) : list Entry :=
  match es with
  | [] => []
  | e :: es' =>
      if is_assistant e && negb active then drop_idle_assistants active es'
      else e :: drop_idle_assistants (active || starts_interaction e) es'
  end.

(** The interactions built so far, the current one last. *)
Definition all_interactions (st : builder) : list Interaction.t :=
  interactions st ++
  match current_interaction st with Some cur => [cur] | None => [] end.

(** [f"interaction-{k}"] *)
Definition label (k : nat) : string := ("interaction-" ++ Str.of_nat k)%string.

(** What an interaction keeps of the human message that started it. *)
Definition started_by (i : Interaction.t) (e : Entry) : Prop :=
  Interaction.timestamp i = timestamp (base e) /\
  _get_text_content e = Ok (Interaction.user_prompt i).

Definition header (i : Interaction.t) : string * datetime * string :=
  (Interaction.id i, Interaction.timestamp i, Interaction.user_prompt i).

(** Both absent, or both present with the same header. *)
Definition same_header (o o' : option Interaction.t) : Prop :=
  match o, o' with
  | Some c, Some c' => header c' = header c
  | None, None => True
  | _, _ => False
  end.

(** An entry whose blocks honour the annotations that the builder relies on:
    every text is a [str] and every [tool_use_id] can be a dict key. *)
Definition block_well_typed (b : ContentBlock) : bool :=
  match b with
  | Text t => is_str (TextContent.text t)
  | ToolResult r => Py.hashable (ToolResultContent.tool_use_id r)
  | _ => true
  end.

Definition entry_well_typed (e : Entry) : bool :=
  match e with
  | UserEntry _ m _ => forallb block_well_typed (UserMessage.content m)
  | AssistantEntry _ m _ => forallb block_well_typed (AssistantMessage.content m)
  | _ => true
  end.

(** A human message with one text. *)
Definition human_entry (uuid text : string) : Entry :=
  UserEntry (mk_base (PStr uuid) epoch (PStr "user") [("uuid", PStr uuid)])
    (UserMessage.mk (PStr "user") [Text (TextContent.mk (PStr text))] None)
    (PStr "external").

(** An assistant entry with the given blocks. *)
Definition assistant_entry (uuid : string) (blocks : list ContentBlock) : Entry :=
  AssistantEntry
    (mk_base (PStr uuid) epoch (PStr "assistant") [("uuid", PStr uuid)])
    (AssistantMessage.mk (PStr "assistant") blocks None (PStr "model-x") (PStr "")
       PNone PNone Usage.default) (PStr "").

Definition two_turns : list Entry :=
  [human_entry "u1" "first"; assistant_entry "a1" [Text (TextContent.mk (PStr "ok"))];
   human_entry "u2" "second"].

(** ** Matching tool results to tool uses *)

(** No action of [l] passes the scan for [tool_id]. *)
Definition no_match (tool_id : pyval) (l : list Action.t) : bool :=
  forallb (fun a => negb (is_tool_use_with_id tool_id a)) l.

(** [a.tool_result is None] *)
Definition unresolved (a : Action.t) : Prop := Action.tool_result a = None.

(** Every action that has a result is the first one that the scan for some
    tool id finds. *)
Definition resolved_is_first (acts : list Action.t) : Prop :=
  forall pre a post,
    acts = pre ++ a :: post -> Action.tool_result a <> None ->
    exists tool_id,
      is_tool_use_with_id tool_id a = true /\ no_match tool_id pre = true.

(** The [ToolResultContent] blocks as the items they put in the dict of
    [_extract_tool_results]. *)
Fixpoint tool_result_items (rt : Runtime) (blocks : list ContentBlock)
  : list (pyval * (string * pyval)) :=
  match blocks with
  | [] => []
  | ToolResult b :: blocks' =>
      (ToolResultContent.tool_use_id b,
       (content_as_str rt (ToolResultContent.content b),
        ToolResultContent.is_error b)) :: tool_result_items rt blocks'
  | _ :: blocks' => tool_result_items rt blocks'
  end.

(** The keys of a dict are strings, each at most once. *)
Definition str_keys {V} (m : PyMap.t V) : Prop :=
  exists ks, map fst m = map PStr ks /\ NoDup ks.

(** The invariant of the builder for [resolved_is_first]. *)
Definition builder_resolved_first (st : builder) : Prop :=
  Forall (fun i => resolved_is_first (Interaction.actions i)) (all_interactions st).

(** Every [tool_use_id] is a [str], as its annotation says. *)
Definition tool_ids_are_str (blocks : list ContentBlock) : bool :=
  forallb (fun b =>
             match b with
             | ToolResult r => is_str (ToolResultContent.tool_use_id r)
             | _ => true
             end) blocks.

(** Two tool uses with the same id and one result for it. *)
Definition duplicate_ids : list Entry :=
  [human_entry "u1" "run it twice";
   assistant_entry "a1"
     [ToolUse (ToolUseContent.mk (PStr "t1") (PStr "run") (PDict []));
      ToolUse (ToolUseContent.mk (PStr "t1") (PStr "run") (PDict []))];
   UserEntry (mk_base (PStr "u2") epoch (PStr "user") [])
     (UserMessage.mk (PStr "user")
        [ToolResult (ToolResultContent.mk (PStr "t1") (PStr "done") (PBool false))]
        None) (PStr "external")].

(** ** Conversation threads *)

(** The uuid of an entry and of its parent as strings; [parent_str] is empty
    when [parentUuid] is absent or [None]. *)
Definition uuid_str (e : Entry) : string :=
  match uuid (base e) with PStr u => u | _ => "" end.

Definition parent_str (e : Entry) : string :=
  match parent_uuid e with PStr p => p | _ => "" end.

(** The uuid and the parent reference of every entry have their annotated
    types, [str] and [str | None]. *)
Definition ids_well_typed (es : list Entry) : bool :=
  forallb (fun e =>
             is_str (uuid (base e)) &&
             match parent_uuid e with
             | PStr _ | PNone => true
             | _ => false
             end) es.

(** Some entry of [es] has the uuid [p]. *)
Definition known (es : list Entry) (p : string) : bool :=
  existsb (fun x => String.eqb (uuid_str x) p) es.

(** The parent reference of [e] is present and resolves within [es]. *)
Definition resolves (es : list Entry) (e : Entry) : bool :=
  negb (String.eqb (parent_str e) "") && known es (parent_str e).

(** [e] is a child of the entry with uuid [u]. *)
Definition child_of (es : list Entry) (u : string) (e : Entry) : bool :=
  resolves es e && String.eqb (parent_str e) u.

(** The roots and the children of [u], both in the order of the session. *)
Definition roots (es : list Entry) : list Entry :=
  filter (fun e => negb (resolves es e)) es.

Definition kids (es : list Entry) (u : string) : list Entry :=
  filter (child_of es u) es.

(** [l] is [m] with some elements left out: the elements of [l] occur in
    [m] in the same order. *)
Inductive subseq {A} : list A -> list A -> Prop :=
| subseq_nil m : subseq [] m
| subseq_take x l m : subseq l m -> subseq (x :: l) (x :: m)
| subseq_skip x l m : subseq l m -> subseq l (x :: m).

(** The pre-order walk of a forest: each entry, then the walk of its
    children in the order of the session, then the rest of the forest. *)
Inductive walk (es : list Entry) : list Entry -> list Entry -> Prop :=
| walk_nil : walk es [] []
| walk_cons e rest t1 t2 :
    walk es (kids es (uuid_str e)) t1 -> walk es rest t2 ->
    walk es (e :: rest) (e :: t1 ++ t2).

(** The entry that a parent reference names, in a session whose uuids are
    pairwise distinct: the first entry with that uuid. *)
Definition parent_entry (es : list Entry) (e : Entry) : option Entry :=
  find (fun x => String.eqb (uuid_str x) (parent_str e)) es.

(** The entry reached from [e] by exactly [j] parent links. *)
Fixpoint ancestor (es : list Entry) (j : nat) (e : Entry) : option Entry :=
  match j with
  | 0 => Some e
  | S j' =>
      if resolves es e then
        match parent_entry es e with
        | Some p => ancestor es j' p
        | None => None
        end
      else None
  end.

(** No parent-link cycle: with [n] entries, no chain of [n] parent links
    exists (it would visit an entry twice). *)
Definition no_parent_cycle (es : list Entry) : bool :=
  forallb (fun e => match ancestor es (List.length es) e with
                    | None => true
                    | Some _ => false
                    end) es.

(** The non-empty uuids are pairwise distinct. *)
Definition unique_uuids (es : list Entry) : Prop :=
  NoDup (filter (fun u => negb (String.eqb u "")) (map uuid_str es)).

(** The root that the parent links of [e] lead to, within [fuel] links, in a
    session whose uuids are pairwise distinct. *)
Fixpoint root_of (es : list Entry) (fuel : nat) (e : Entry) : option Entry :=
  if resolves es e then
    match fuel with
    | 0 => None
    | S fuel' =>
        match parent_entry es e with
        | Some p => root_of es fuel' p
        | None => None
        end
    end
  else Some e.

(** The parent links of [e] lead to a root that is a user or an assistant
    entry, in a session whose uuids are pairwise distinct. *)
Definition under_conversation_root (es : list Entry) (e : Entry) : bool :=
  match root_of es (List.length es) e with
  | Some r => is_user_or_assistant r
  | None => false
  end.

(** [children.get(k, [])] *)
Definition lookup_list (children : PyMap.t (list Entry)) (k : pyval) : list Entry :=
  match PyMap.find children k with
  | Some l => l
  | None => []
  end.

(** All the keys are strings. *)
Definition keys_are_str {V} (m : PyMap.t V) : Prop :=
  Forall (fun kv => is_str (fst kv) = true) m.

(** The threads of the user and assistant roots among [rs], as walks. *)
Definition threads_are_walks (es rs : list Entry) (threads : list (list Entry))
  : Prop :=
  Forall2 (fun r t => walk es [r] t) (filter is_user_or_assistant rs) threads.

(** [e] is [j] parent links below a root that is a user or an assistant
    entry. *)
Definition at_level (es : list Entry) (j : nat) (e : Entry) : bool :=
  match ancestor es j e with
  | Some r => negb (resolves es r) && is_user_or_assistant r
  | None => false
  end.

Definition level (es : list Entry) (j : nat) : list Entry :=
  filter (at_level es j) es.

(** The children of the entries of [l], and that step iterated. *)
Definition next (es : list Entry) (l : list Entry) : list Entry :=
  flat_map (fun e => kids es (uuid_str e)) l.

Fixpoint gen (es : list Entry) (k : nat) (l : list Entry) : list Entry :=
  match k with
  | 0 => l
  | S k' => gen es k' (next es l)
  end.

Fixpoint levels (es : list Entry) (k : nat) (l : list Entry) : list Entry :=
  match k with
  | 0 => []
  | S k' => l ++ levels es k' (next es l)
  end.

(** The raw record of an entry with the given uuid and parent reference. *)
Definition id_raw (uuid : string) (parent : pyval) : pydict :=
  [("uuid", PStr uuid); ("parentUuid", parent)].

Definition user_node (uuid : string) (parent : pyval) (text : string) : Entry :=
  UserEntry (mk_base (PStr uuid) epoch (PStr "user") (id_raw uuid parent))
    (UserMessage.mk (PStr "user") [Text (TextContent.mk (PStr text))] None)
    (PStr "external").

Definition assistant_node (uuid : string) (parent : pyval) (text : string) : Entry :=
  AssistantEntry (mk_base (PStr uuid) epoch (PStr "assistant") (id_raw uuid parent))
    (AssistantMessage.mk (PStr "assistant") [Text (TextContent.mk (PStr text))]
       None (PStr "model-x") (PStr "") PNone PNone Usage.default) (PStr "").

Definition system_node (uuid : string) (parent : pyval) : Entry :=
  SystemEntry (mk_base (PStr uuid) epoch (PStr "system") (id_raw uuid parent))
    (PStr "") (PStr "") (PStr "info") (PBool false).

(** A user message followed by a system entry that names it as parent. *)
Definition session_with_system_child : Session :=
  mk_session "a.jsonl"
    [user_node "u1" PNone "hi"; system_node "s1" (PStr "u1")] (PStr "").

(** A system entry followed by a user message that names it as parent. *)
Definition session_with_system_root : Session :=
  mk_session "b.jsonl"
    [system_node "s0" PNone; user_node "u2" (PStr "s0") "hi"] (PStr "").

(** A root with two children, the first of which has a child of its own. *)
Definition branching_session : Session :=
  mk_session "c.jsonl"
    [user_node "u1" PNone "q"; assistant_node "a1" (PStr "u1") "first";
     assistant_node "a2" (PStr "u1") "retry"; user_node "u3" (PStr "a1") "more"]
    (PStr "").

(** ** Threads of sessions in which uuids repeat *)

(** [e] can be in a thread: its parent reference resolves, or it is a root
    that is a user or an assistant entry.  Any other root starts no thread and
    is the child of no entry, so the loop never reaches it. *)
Definition threaded (es : list Entry) (e : Entry) : bool :=
  resolves es e || is_user_or_assistant e.

(** Some entry names the uuid of [e] as its parent. *)
Definition named_as_parent (es : list Entry) (e : Entry) : bool :=
  existsb (child_of es (uuid_str e)) es.

(** No uuid that is named as a parent belongs to two entries that can be in
    a thread.  A file-history snapshot or a summary that repeats the uuid of
    a message is a root of another kind and does not count. *)
Definition parents_distinct (es : list Entry) : Prop :=
  NoDup (map uuid_str
           (filter (fun e => threaded es e && named_as_parent es e) es)).

(** The entry of a thread that the parent reference of [e] names. *)
Definition thread_parent (es : list Entry) (e : Entry) : option Entry :=
  find (fun x => threaded es x && String.eqb (uuid_str x) (parent_str e)) es.

(** [e] is [j] parent links below a root that is a user or an assistant
    entry. *)
Fixpoint at_depth (es : list Entry) (j : nat) (e : Entry) : bool :=
  match j with
  | 0 => negb (resolves es e) && is_user_or_assistant e
  | S j' =>
      if resolves es e then
        match thread_parent es e with
        | Some p => at_depth es j' p
        | None => false
        end
      else false
  end.

(** The root that the parent links of [e] lead to, within [fuel] links. *)
Fixpoint thread_root (es : list Entry) (fuel : nat) (e : Entry) : option Entry :=
  if resolves es e then
    match fuel with
    | 0 => None
    | S fuel' =>
        match thread_parent es e with
        | Some p => thread_root es fuel' p
        | None => None
        end
    end
  else Some e.

(** The parent links of [e] lead to a root that is a user or an assistant
    entry. *)
Definition in_conversation (es : list Entry) (e : Entry) : bool :=
  match thread_root es (List.length es) e with
  | Some r => is_user_or_assistant r
  | None => false
  end.

(** The entry reached from [e] by exactly [j] parent links. *)
Fixpoint thread_ancestor (es : list Entry) (j : nat) (e : Entry) : option Entry :=
  match j with
  | 0 => Some e
  | S j' =>
      if resolves es e then
        match thread_parent es e with
        | Some p => thread_ancestor es j' p
        | None => None
        end
      else None
  end.

(** No parent-link cycle: with [n] entries, no chain of [n] parent links
    exists (it would visit an entry twice). *)
Definition no_link_cycle (es : list Entry) : bool :=
  forallb (fun e => match thread_ancestor es (List.length es) e with
                    | None => true
                    | Some _ => false
                    end) es.

(** Every parent reference that resolves is that of a user or an assistant
    entry and names a user or an assistant entry. *)
Definition conversation_links_only (es : list Entry) : bool :=
  forallb (fun e =>
             negb (resolves es e) ||
             (is_user_or_assistant e &&
              existsb (fun x => is_user_or_assistant x &&
                                String.eqb (uuid_str x) (parent_str e)) es)) es.

(** A file-history snapshot takes its uuid from [messageId] and a summary
    from [leafUuid]: each repeats the uuid of a message. *)
Definition snapshot_node (message_id : string) : Entry :=
  FileHistorySnapshotEntry
    (mk_base (PStr message_id) epoch (PStr "file-history-snapshot")
       [("messageId", PStr message_id)])
    (PStr message_id) (PDict []) (PBool false).

Definition summary_node (leaf_uuid : string) : Entry :=
  SummaryEntry
    (mk_base (PStr leaf_uuid) epoch (PStr "summary") [("leafUuid", PStr leaf_uuid)])
    (PStr "s") (PStr leaf_uuid).

(** A snapshot of a user message, the message, its answer and a summary of
    the answer. *)
Definition session_with_snapshot : Session :=
  mk_session "e.jsonl"
    [snapshot_node "u1"; user_node "u1" PNone "hi";
     assistant_node "a1" (PStr "u1") "hello"; summary_node "a1"] (PStr "").

(** Two user messages with the same uuid, and an answer to that uuid. *)
Definition session_with_shared_uuid : Session :=
  mk_session "f.jsonl"
    [user_node "u1" PNone "first"; user_node "u1" PNone "second";
     assistant_node "a1" (PStr "u1") "reply"] (PStr "").

(** A user message whose uuid is a list. *)
Definition session_with_list_uuid : Session :=
  mk_session "g.jsonl"
    [UserEntry (mk_base (PList [PInt 1]) epoch (PStr "user") [("uuid", PList [PInt 1])])
       (UserMessage.mk (PStr "user") [] None) (PStr "external")] (PStr "").



(** ** Round trips of blocks and messages *)

(** The [is_error] of a tool result is what [from_dict] gives back for the
    record that [to_dict] writes: a truthy value, or [False]. *)
Definition settled (b : ContentBlock) : Prop :=
  match b with
  | ToolResult r =>
      Py.truthy (ToolResultContent.is_error r) = true \/
      ToolResultContent.is_error r = PBool false
  | _ => True
  end.

(** A tool result whose [is_error] is [None]. *)
Definition unsettled_block : ContentBlock :=
  ToolResult (ToolResultContent.mk (PStr "t1") (PStr "out") PNone).

(** A value that [from_dict] reads back from the record that [to_dict]
    writes only when it is truthy: kept when it is truthy or the default. *)
Definition kept_or_default (default v : pyval) : Prop :=
  Py.truthy v = true \/ v = default.

(** ** Which records are accepted *)

(** [_parse_timestamp] returns on [ts]: it is a [str], or falsy. *)
Definition timestamp_ok (ts : pyval) : bool :=
  is_str ts || negb (Py.truthy ts).

(** [isinstance(v, dict)] *)
Definition is_dict (v : pyval) : bool :=
  match v with PDict _ => true | _ => false end.

(** The record has what its kind needs: a timestamp that can be decoded
    (for a file-history snapshot, the one inside a [snapshot] that is a
    dict; for a summary, nothing), and for a user or assistant record a
    [message] that is a dict, whose [usage], for an assistant, is [None] or a
    dict. *)
Definition accepted (d : pydict) : bool :=
  let ty := Dict.get d "type" (PStr "") in
  let ts := timestamp_ok (Dict.get d "timestamp" (PStr "")) in
  if Py.equal ty (PStr "user") then
    ts && is_dict (Dict.get d "message" (PDict []))
  else if Py.equal ty (PStr "assistant") then
    ts && match Dict.get d "message" (PDict []) with
          | PDict m =>
              match Dict.get_none m "usage" with
              | PNone | PDict _ => true
              | _ => false
              end
          | _ => false
          end
  else if Py.equal ty (PStr "system") then ts
  else if Py.equal ty (PStr "file-history-snapshot") then
    match Dict.get d "snapshot" (PDict []) with
    | PDict snap => timestamp_ok (Dict.get snap "timestamp" (PStr ""))
    | _ => false
    end
  else if Py.equal ty (PStr "summary") then true
  else ts.

(** A summary record whose timestamp is a number, and a system record with
    the same timestamp. *)
Definition summary_with_number : pydict :=
  [("type", PStr "summary"); ("timestamp", PInt 5); ("leafUuid", PStr "u1")].

(** ** Files *)

(** The values that the lines of a file decode to, in order. *)
Definition decoded_values (file : list line) : list pyval :=
  flat_map (fun l => match decoded l with Some v => [v] | None => [] end) file.

(** A file with a blank line, a malformed line and two records. *)
Definition two_record_file : text_file :=
  read_in_full
    [mk_line "" JSONDecodeError;
     mk_line "{...}" (Loaded (PDict [("type", PStr "summary"); ("summary", PStr "s")]));
     mk_line "{oops" JSONDecodeError;
     mk_line "{...}" (Loaded (PDict [("type", PStr "user"); ("sessionId", PStr "S1")]))].

(** A line that is an integer literal of 4301 digits: under the default
    limit of 4300 digits [json.loads] raises [ValueError] on it. *)
Definition huge_integer_line : line :=
  mk_line (String.concat "" (List.repeat "1" 4301)) (LoadsRaises ValueError).

(** A file whose second line is the number 5. *)
Definition number_file : text_file :=
  read_in_full [mk_line "{}" (Loaded (PDict [])); mk_line "5" (Loaded (PInt 5))].

(** The text of the lines of [es], each followed by a line feed. *)
Definition lines_text (dumps : pyval -> string) (es : list Entry) : string :=
  String.concat "" (map (fun e => serialize_entry dumps e ++ newline)%string es).



(** A user entry with the given uuid and [sessionId]. *)
Definition entry_of_session (uuid sid : string) : Entry :=
  UserEntry (mk_base (PStr uuid) epoch (PStr "user")
               [("uuid", PStr uuid); ("sessionId", PStr sid)])
    (UserMessage.mk (PStr "user") [] None) (PStr "external").

(** Every line that decodes gives a value as [json.loads] builds it. *)
Definition lines_well_formed (file : list line) : Prop :=
  forall l original,
    In l file -> decoded l = Some original -> well_formed original.

(** The files of the subdirectories of a listing, in order. *)
Definition listing_files (listing : list dir_child) : list jsonl_file :=
  flat_map (fun child => match child_files child with
                         | Some files => files
                         | None => []
                         end) listing.

(** A root with a stray file and one subdirectory of two files. *)
Definition sample_listing : list dir_child :=
  [mk_dir_child "README.md" None;
   mk_dir_child "proj"
     (Some [mk_jsonl_file "root/proj/a.jsonl" two_record_file;
            mk_jsonl_file "root/proj/b.jsonl" sample_file])].

(** ** What every interaction satisfies *)

(** The texts of the text actions, in order. *)
Fixpoint text_actions (acts : list Action.t) : list string :=
  match acts with
  | [] => []
  | a :: acts' =>
      if String.eqb (Action.action_type a) "text" then
        match Action.text a with
        | Some t => t :: text_actions acts'
        | None => text_actions acts'
        end
      else text_actions acts'
  end.

(** The shapes of the actions that the builder makes: a thinking action, a
    tool use without or with its result, a text that is not empty, and the
    summary of an auto-compact message; every field that the shape does not
    name has its default. *)
Inductive action_shape : Action.t -> Prop :=
| shape_thinking ts v :
    action_shape (Action.with_thinking (Action.make "thinking" ts) v)
| shape_tool_use ts name id input :
    action_shape (Action.with_tool (Action.make "tool_use" ts) name id input)
| shape_tool_result ts name id input r e :
    action_shape
      (Action.with_result
         (Action.with_tool (Action.make "tool_use" ts) name id input) r e)
| shape_text ts s :
    s <> "" -> action_shape (Action.with_text (Action.make "text" ts) s)
| shape_auto_compact ts s :
    _is_auto_compact_message s = true ->
    action_shape (Action.with_summary (Action.make "auto_compact" ts) s).

(** [final_response] is the texts of the text actions joined by line feeds,
    [None] when there is none. *)
Definition final_response_ok (i : Interaction.t) : Prop :=
  Interaction.final_response i
  = match text_actions (Interaction.actions i) with
    | [] => None
    | ts => Some (Str.join newline ts)
    end.

(** [cancel_reason] is [None] or one of the cancellation messages. *)
Definition cancel_reason_ok (i : Interaction.t) : Prop :=
  Interaction.cancel_reason i = None \/
  exists m, In m CANCELLATION_MESSAGES /\ Interaction.cancel_reason i = Some m.

(** [model] is [None] or truthy. *)
Definition model_ok (i : Interaction.t) : Prop :=
  Interaction.model i = PNone \/ Py.truthy (Interaction.model i) = true.

Definition interaction_ok (i : Interaction.t) : Prop :=
  Forall action_shape (Interaction.actions i) /\
  final_response_ok i /\ cancel_reason_ok i /\ model_ok i.

(** A human message, two assistant texts around a tool use and its result,
    and a cancellation. *)
Definition cancelled_turn : list Entry :=
  [human_entry "u1" "go";
   assistant_entry "a1"
     [Text (TextContent.mk (PStr "one"));
      ToolUse (ToolUseContent.mk (PStr "t1") (PStr "run") (PDict []))];
   UserEntry (mk_base (PStr "u2") epoch (PStr "user") [])
     (UserMessage.mk (PStr "user")
        [ToolResult (ToolResultContent.mk (PStr "t1") (PStr "done") (PBool false))]
        None) (PStr "external");
   assistant_entry "a2" [Text (TextContent.mk (PStr "two"))];
   UserEntry (mk_base (PStr "u3") epoch (PStr "user") [])
     (UserMessage.mk (PStr "user")
        [Text (TextContent.mk (PStr " [Request interrupted by user] "))] None)
     (PStr "external")].

(** ** Threads in the presence of parent-link cycles *)

(** A root, and two entries that name each other as parent. *)
Definition cyclic_session : Session :=
  mk_session "d.jsonl"
    [user_node "u1" PNone "q"; user_node "a" (PStr "b") "x";
     assistant_node "b" (PStr "a") "y"] (PStr "").

(** ** Numeric ids of file names *)

(** One of the ten decimal digits. *)
Definition decimal_char (c : ascii) : bool :=
  let n := nat_of_ascii c in (48 <=? n)%nat && (n <=? 57)%nat.

(** One of the superscripts two, three and one, for which [isdigit()] holds
    and which [int()] rejects. *)
Definition superscript_char (c : ascii) : bool :=
  let n := nat_of_ascii c in (n =? 178)%nat || (n =? 179)%nat || (n =? 185)%nat.

(** [max_str_digits] lets [int()] read [s]. *)
Definition within_digit_limit (max_str_digits : nat) (s : string) : Prop :=
  max_str_digits = 0 \/ String.length s <= max_str_digits.

(** ** Loading directories *)

(** [parse_session_file] returns a session for the file. *)
Definition parses (rt : Runtime) (clock : string -> nat -> datetime)
    (f : jsonl_file) : bool :=
  match parse_session_file rt (clock (jsonl_path f)) (jsonl_path f)
                           (jsonl_text f) with
  | Ok _ => true
  | Raise _ => false
  end.

(** [s] is the session that [parse_session_file] returns for [f]. *)
Definition parsed_from (rt : Runtime) (clock : string -> nat -> datetime)
    (s : Session) (f : jsonl_file) : Prop :=
  parse_session_file rt (clock (jsonl_path f)) (jsonl_path f) (jsonl_text f)
  = Ok s.

(** The names of the children that are directories. *)
Definition source_names (listing : list dir_child) : list string :=
  flat_map (fun child => match child_files child with
                         | Some _ => [child_name child]
                         | None => []
                         end) listing.


(** The entries of every session have the types that the builder relies
    on. *)
Definition sessions_well_typed (loaded : list Session) : Prop :=
  Forall (fun s => forallb entry_well_typed (entries s) = true) loaded.

(** A path library in which the stem of a path is the path itself. *)
Definition plain_paths : PathLib := mk_pathlib (fun p => p).

(** A history of one regular session and one agent session. *)
Definition mixed_history : ClaudeHistory :=
  mk_history "root"
    [mk_session "main" two_turns (PStr ""); mk_session "agent-1" two_turns (PStr "")]
    [].

(** The [type] of the raw record of the entry is [t]. *)
Definition type_is (t : string) (e : Entry) : bool :=
  Py.equal (Dict.get (raw (base e)) "type" (PStr "")) (PStr t).

(** [parse_entry] returned the entry for some record. *)
Definition parsed_entry (rt : Runtime) (e : Entry) : Prop :=
  exists now v, parse_entry rt now v = Ok e.

(* ================================================================== *)
(** * Generic facts *)
(* ================================================================== *)

Lemma bind_Ok_inv {A B} (m : M A) (k : A -> M B) (b : B) :
  bind m k = Ok b -> exists a, m = Ok a /\ k a = Ok b.
Proof.
  destruct m as [a | e]; simpl; intros H; [eauto | discriminate].
Qed.

(** Splits a successful [bind] in a hypothesis into its two steps. *)
Ltac bind_inv H :=
  let a := fresh "a" in
  let Ha := fresh "Ha" in
  apply bind_Ok_inv in H; destruct H as [a [Ha H]].

Lemma foldM_app {A S} (body : S -> A -> M S) (xs ys : list A) (st : S) :
  foldM body (xs ++ ys) st = (st' <- foldM body xs st ;; foldM body ys st').
Proof.
  revert st; induction xs as [| x xs IH]; intros st; simpl; [reflexivity |].
  destruct (body st x); simpl; [apply IH | reflexivity].
Qed.

(** An invariant of the loop body holds after the loop. *)
Lemma foldM_invariant {A S} (P : S -> Prop) (body : S -> A -> M S) :
  (forall st x st', P st -> body st x = Ok st' -> P st') ->
  forall xs st st', P st -> foldM body xs st = Ok st' -> P st'.
Proof.
  intros Hstep; induction xs as [| x xs IH]; simpl; intros st st' HP H.
  - inversion H; subst; exact HP.
  - bind_inv H. eapply IH; [eapply Hstep; eassumption | exact H].
Qed.

Lemma filter_filter {A} (f g : A -> bool) l :
  filter f (filter g l) = filter (fun x => g x && f x) l.
Proof.
  induction l as [| x l IH]; simpl; [reflexivity |].
  destruct (g x); simpl; [destruct (f x) |]; now rewrite IH.
Qed.

Lemma filter_none {A} (f : A -> bool) l :
  (forall x, In x l -> f x = false) -> filter f l = [].
Proof.
  induction l as [| x l IH]; simpl; intros H; [reflexivity |].
  rewrite (H x) by now left. apply IH. intros y Hy. apply H. now right.
Qed.

Lemma filter_all {A} (f : A -> bool) l :
  (forall x, In x l -> f x = true) -> filter f l = l.
Proof.
  induction l as [| x l IH]; simpl; intros H; [reflexivity |].
  rewrite (H x) by now left. f_equal. apply IH. intros y Hy. apply H. now right.
Qed.

(* ================================================================== *)
(** * Round trip of entries *)
(* ================================================================== *)

Lemma parse_entry_raw rt now d e :
  parse_entry rt now d = Ok e -> exists r, d = PDict r /\ raw (base e) = r.
Proof.
  unfold parse_entry. intros H. bind_inv H.
  destruct d; simpl in Ha; try discriminate. inversion Ha; subst a; clear Ha.
  exists d; split; [reflexivity |].
  repeat match type of H with
         | (if ?c then _ else _) = _ => destruct c
         end;
    unfold UserEntry.from_dict, AssistantEntry.from_dict, SystemEntry.from_dict,
      FileHistorySnapshotEntry.from_dict, SummaryEntry.from_dict,
      QueueOperationEntry.from_dict in H;
    repeat (let a := fresh "a" in let Ha := fresh "Ha" in
            apply bind_Ok_inv in H; destruct H as [a [Ha H]]);
    inversion H; subst e; reflexivity.
Qed.

Section PyvalInduction.

Variable P : pyval -> Prop.
Hypothesis P_none : P PNone.
Hypothesis P_bool : forall b, P (PBool b).
Hypothesis P_int : forall z, P (PInt z).
Hypothesis P_float : forall f, P (PFloat f).
Hypothesis P_str : forall s, P (PStr s).
Hypothesis P_list : forall l, Forall P l -> P (PList l).
Hypothesis P_dict : forall d, Forall (fun kv => P (snd kv)) d -> P (PDict d).

(** Induction over decoded values, through lists and dicts. *)
Lemma pyval_induction : forall v, P v.
Proof.
  fix IH 1. intros [| b | z | f | s | l | d].
  - apply P_none.
  - apply P_bool.
  - apply P_int.
  - apply P_float.
  - apply P_str.
  - apply P_list. induction l as [| x l IHl]; constructor; [apply IH | exact IHl].
  - apply P_dict. induction d as [| [k x] d IHd]; constructor;
      [apply IH | exact IHd].
Qed.

End PyvalInduction.

Lemma float_equal_refl f : f <> S754_nan -> SFeqb f f = true.
Proof.
  unfold SFeqb, SFcompare. destruct f as [s | s | | s m e]; intros H.
  - reflexivity.
  - destruct s; reflexivity.
  - contradiction.
  - destruct s; rewrite Z.compare_refl;
      change (Pos.compare_cont Eq m m) with (Pos.compare m m);
      rewrite Pos.compare_refl; reflexivity.
Qed.

Lemma lookup_nodup d k v :
  NoDup (map fst d) -> In (k, v) d -> Dict.lookup d k = Some v.
Proof.
  induction d as [| [k' v'] d IH]; simpl; intros Hnd Hin; [contradiction |].
  inversion Hnd as [| x l Hnotin Hnd']; subst.
  destruct Hin as [Heq | Hin].
  - inversion Heq; subst. now rewrite String.eqb_refl.
  - destruct (String.eqb_spec k' k) as [-> | Hne]; [| now apply IH].
    exfalso. apply Hnotin. apply in_map_iff. exists (k, v). auto.
Qed.

(** A well-formed value equals itself, as Python compares an object with
    itself inside a container: by identity or by [==]. *)
Lemma equal_refl v :
  well_formed v -> Py.same_nan v v || Py.equal v v = true.
Proof.
  induction v as [| b | z | f | s | l IHl | d IHd] using pyval_induction;
    intros Hwf; simpl.
  - reflexivity.
  - now rewrite Bool.eqb_reflx.
  - now rewrite Z.eqb_refl.
  - destruct f as [s | s | | s m e]; try reflexivity; simpl;
      apply float_equal_refl; discriminate.
  - now rewrite String.eqb_refl.
  - simpl in Hwf. induction IHl as [| x l Hx _ IH]; [reflexivity |].
    simpl in Hwf. destruct Hwf as [Hwx Hwl].
    cbn [all2]. rewrite (Hx Hwx). apply IH, Hwl.
  - simpl in Hwf. destruct Hwf as [Hnd Hwd].
    rewrite Nat.eqb_refl. simpl. apply forallb_forall. intros [k x] Hin.
    cbn [fst snd]. rewrite (lookup_nodup d k x Hnd Hin).
    rewrite Forall_forall in IHd. apply (IHd (k, x) Hin).
    clear - Hwd Hin. induction d as [| [k' x'] d IH]; [contradiction |].
    simpl in Hwd. destruct Hwd as [Hx' Hd]. destruct Hin as [Heq | Hin].
    + inversion Heq; subst. exact Hx'.
    + apply IH; assumption.
Qed.

(** For a well-formed record, the test [original != serialized] of the
    verifier is false. *)
Lemma record_not_equal_itself d :
  well_formed (PDict d) -> Py.not_equal (PDict d) (PDict d) = false.
Proof.
  intros Hwf. unfold Py.not_equal.
  pose proof (equal_refl (PDict d) Hwf) as H.
  change (Py.same_nan (PDict d) (PDict d)) with false in H.
  rewrite orb_false_l in H. rewrite H. reflexivity.
Qed.

(** C1. Every entry that [parse_entry] returns for a decoded record, whatever
    its kind, serializes with [to_dict] to exactly that record; and the
    comparison [original != serialized] of the verifier is false on it. *)
Theorem C1_parse_entry_roundtrip :
  forall rt now d e,
    parse_entry rt now d = Ok e ->
    to_dict e = d /\
    (well_formed d -> Py.not_equal d (to_dict e) = false).
Proof.
  intros rt now d e H. apply parse_entry_raw in H. destruct H as [r [Hd Hr]].
  unfold to_dict. rewrite Hr, Hd. split; [reflexivity |].
  apply record_not_equal_itself.
Qed.

Lemma sample_kinds :
  map (fun ty => option_map kind_of (sample_entry ty)) sample_types
  = map Some [KUser; KAssistant; KSystem; KFileHistorySnapshot; KSummary;
              KQueueOperation; KUnknown].
Proof. reflexivity. Qed.

Lemma C1_parse_entry_roundtrip_witness :
  Forall (fun ty =>
            exists e, parse_entry inert_runtime epoch (sample_record ty) = Ok e
                      /\ to_dict e = sample_record ty) sample_types.
Proof.
  repeat constructor;
    (eexists; split;
     [ reflexivity
     | apply (C1_parse_entry_roundtrip inert_runtime epoch); reflexivity ]).
Defined.

(* ================================================================== *)
(** * Timestamp decoding *)
(* ================================================================== *)

Lemma replace_lacks c new s : lacks c s = true -> Str.replace c new s = s.
Proof.
  induction s as [| c' s IH]; simpl; [reflexivity |].
  destruct (Ascii.eqb c' c); simpl; [discriminate |].
  intros H; rewrite IH by exact H; reflexivity.
Qed.

Lemma replace_app c new s t :
  Str.replace c new (s ++ t) = (Str.replace c new s ++ Str.replace c new t)%string.
Proof.
  induction s as [| c' s IH]; simpl; [reflexivity |].
  destruct (Ascii.eqb c' c); rewrite IH; [| reflexivity].
  generalize (Str.replace c new s) (Str.replace c new t); intros u v.
  clear. induction new as [| n new IHn]; simpl; [reflexivity | now rewrite IHn].
Qed.

(** A trailing [Z] becomes the offset [+00:00]. *)
Lemma replace_trailing_Z s :
  lacks "Z" s = true ->
  Str.replace "Z" "+00:00" (s ++ "Z") = (s ++ "+00:00")%string.
Proof.
  intros H. rewrite replace_app, (replace_lacks _ _ _ H). reflexivity.
Qed.

(** The claim as first written fails: a record whose timestamp is the
    number 5 makes [_parse_timestamp] raise [AttributeError], whatever the
    library and the clock. *)
Lemma C7_number_timestamp_raises :
  ~ exists rt now dt, _parse_timestamp rt now (PInt 5) = Ok dt.
Proof. intros [rt [now [dt H]]]. discriminate H. Qed.

Lemma number_timestamp_fails_entry :
  (fun rt now =>
     parse_entry rt now (PDict [("type", PStr "user"); ("timestamp", PInt 5)]))
  = (fun _ _ => Raise AttributeError).
Proof. reflexivity. Qed.

(** C7 (amended). For a timestamp value that is a string, or that is missing
    or empty (any falsy value), [_parse_timestamp] never raises: it returns the
    datetime that [fromisoformat] reads from the string with every [Z]
    replaced by [+00:00] (so a trailing [Z] becomes an explicit UTC offset),
    and the clock reading when the value is falsy or [fromisoformat] fails. *)
Theorem C7_parse_timestamp_str_or_missing :
  forall rt now ts,
    is_str ts = true \/ Py.truthy ts = false ->
    (exists dt, _parse_timestamp rt now ts = Ok dt) /\
    (Py.truthy ts = false -> _parse_timestamp rt now ts = Ok now) /\
    (forall s, ts = PStr s -> s <> "" ->
       _parse_timestamp rt now ts =
       Ok (match fromisoformat rt (Str.replace "Z" "+00:00" s) with
           | Some dt => dt
           | None => now
           end)) /\
    (forall s, ts = PStr (s ++ "Z") -> lacks "Z" s = true ->
       _parse_timestamp rt now ts =
       Ok (match fromisoformat rt (s ++ "+00:00") with
           | Some dt => dt
           | None => now
           end)) /\
    (forall d, Dict.lookup d "timestamp" = None ->
       _parse_timestamp rt now (Dict.get d "timestamp" (PStr "")) = Ok now).
Proof.
  intros rt now ts Hts.
  assert (Hstr : forall s, s <> "" ->
            _parse_timestamp rt now (PStr s) =
            Ok (match fromisoformat rt (Str.replace "Z" "+00:00" s) with
                | Some dt => dt
                | None => now
                end)).
  { intros s Hs. unfold _parse_timestamp. simpl.
    destruct (String.eqb_spec s ""); [contradiction | simpl].
    destruct (fromisoformat rt _); reflexivity. }
  assert (Hfalsy : Py.truthy ts = false -> _parse_timestamp rt now ts = Ok now).
  { intros H. unfold _parse_timestamp. rewrite H. reflexivity. }
  split; [| split; [exact Hfalsy | split; [| split]]].
  - destruct (Py.truthy ts) eqn:Ht.
    + destruct Hts as [Hs | Hf]; [| discriminate].
      destruct ts; try discriminate.
      eexists. apply Hstr. intros ->. discriminate.
    + eexists. apply Hfalsy. reflexivity.
  - intros s -> Hs. apply Hstr, Hs.
  - intros s -> Hz. rewrite Hstr.
    + rewrite replace_trailing_Z by exact Hz. reflexivity.
    + destruct s; discriminate.
  - intros d Hd. unfold Dict.get. rewrite Hd. reflexivity.
Qed.

Lemma C7_parse_timestamp_str_or_missing_witness :
  _parse_timestamp inert_runtime epoch (PStr "2024-01-01T00:00:00Z") = Ok epoch
  /\ _parse_timestamp inert_runtime epoch PNone = Ok epoch.
Proof.
  split.
  - destruct (C7_parse_timestamp_str_or_missing inert_runtime epoch
                (PStr "2024-01-01T00:00:00Z") (or_introl eq_refl))
      as [_ [_ [_ [H _]]]].
    apply (H "2024-01-01T00:00:00"); reflexivity.
  - destruct (C7_parse_timestamp_str_or_missing inert_runtime epoch PNone
                (or_intror eq_refl)) as [_ [H _]].
    apply H; reflexivity.
Defined.

(* ================================================================== *)
(** * The round-trip verifier *)
(* ================================================================== *)

Lemma enumerate_nth {A} (xs : list A) start i x :
  nth_error xs i = Some x -> In (start + i, x) (enumerate xs start).
Proof.
  revert start i; induction xs as [| y xs IH]; intros start i H.
  - destruct i; discriminate.
  - destruct i as [| i]; simpl in *.
    + inversion H; subst. left. f_equal. lia.
    + right. replace (start + S i) with (S start + i) by lia. apply IH, H.
Qed.

Lemma enumerate_fst {A} (xs : list A) start :
  map fst (enumerate xs start) = seq start (List.length xs).
Proof.
  revert start; induction xs as [| x xs IH]; intros start; simpl;
    [reflexivity | now rewrite IH].
Qed.

Lemma verify_line_skipped rt clock mismatched n l :
  skipped l = true -> verify_line rt clock mismatched (n, l) = Ok mismatched.
Proof.
  unfold skipped, verify_line. intros H.
  destruct (String.eqb _ ""); [reflexivity |].
  destruct (loads l); [discriminate | reflexivity | discriminate].
Qed.

Lemma parseable_tail rt clock x numbered :
  parseable rt clock (x :: numbered) -> parseable rt clock numbered.
Proof. intros Hp n l Hin. apply Hp. right; exact Hin. Qed.

Lemma verify_lines_parseable rt clock numbered mismatched :
  parseable rt clock numbered ->
  foldM (verify_line rt clock) numbered mismatched
  = Ok (mismatched ++ map fst (filter (differs rt clock) numbered)).
Proof.
  revert mismatched; induction numbered as [| [n l] numbered IH];
    intros mismatched Hp; simpl.
  - now rewrite app_nil_r.
  - pose proof (parseable_tail _ _ _ _ Hp) as Hp'.
    destruct (Hp n l (or_introl eq_refl)) as [Hr Hd].
    unfold differs at 1, decoded. unfold decoded in Hd.
    unfold loads_raises in Hr. simpl.
    destruct (String.eqb (Str.strip (line_text l)) "") eqn:Hblank; simpl.
    + apply IH, Hp'.
    + destruct (loads l) as [original | | e] eqn:Hl; simpl;
        [| apply IH, Hp' | discriminate Hr].
      destruct (Hd original eq_refl) as [entry He].
      rewrite He. simpl.
      destruct (Py.not_equal original (to_dict entry)); simpl.
      * rewrite IH by exact Hp'. now rewrite <- app_assoc.
      * apply IH, Hp'.
Qed.

(** The claim as first written fails.  The verifier catches only
    [JSONDecodeError], so it returns no verdict on a file whose only line is
    [5], which decodes to a number on which [parse_entry] raises
    [AttributeError]; nor on a file whose only line is an integer of 4301
    digits, on which [json.loads] raises [ValueError]; nor on a file whose
    bytes are not UTF-8, the reading of which raises
    [UnicodeDecodeError]. *)
Lemma C8_uncaught_exceptions_leave_the_verifier :
  (~ exists rt clock verdict,
       verify_roundtrip rt clock (read_in_full [mk_line "5" (Loaded (PInt 5))])
       = Ok verdict) /\
  (~ exists rt clock verdict,
       verify_roundtrip rt clock (read_in_full [huge_integer_line]) = Ok verdict) /\
  (~ exists rt clock verdict,
       verify_roundtrip rt clock (mk_text_file [] (Some UnicodeDecodeError))
       = Ok verdict).
Proof.
  repeat split; intros [rt [clock [verdict H]]].
  - discriminate H.
  - unfold verify_roundtrip, read_in_full, file_lines, enumerate in H.
    cbn [foldM] in H. unfold verify_line at 1, huge_integer_line in H.
    cbn [line_text loads] in H.
    destruct (String.eqb _ "") eqn:Hb; [| discriminate H].
    vm_compute in Hb. discriminate Hb.
  - discriminate H.
Qed.

Lemma In_enumerate {A} (xs : list A) start n x :
  In (n, x) (enumerate xs start) -> In x xs.
Proof.
  revert start; induction xs as [| y xs IH]; intros start Hin; [contradiction |].
  destruct Hin as [Heq | Hin]; [inversion Heq; now left | right; eapply IH, Hin].
Qed.

Lemma verify_lines_return rt clock numbered :
  forall mismatched l,
    foldM (verify_line rt clock) numbered mismatched = Ok l ->
    parseable rt clock numbered.
Proof.
  induction numbered as [| [n x] numbered IH]; intros mismatched l H.
  - intros n x [].
  - cbn [foldM] in H. bind_inv H. pose proof (IH _ _ H) as Hrest.
    intros n' x' [Heq | Hin]; [| now apply Hrest].
    inversion Heq; subst n' x'. unfold verify_line in Ha.
    unfold loads_raises, decoded.
    destruct (String.eqb (Str.strip (line_text x)) "");
      [split; [reflexivity | discriminate] |].
    destruct (loads x) as [d | | e];
      [| split; [reflexivity | discriminate] | discriminate Ha].
    split; [reflexivity |]. intros original Hd. inversion Hd; subst.
    destruct (parse_entry rt (clock n) original) as [entry |];
      [eauto | discriminate Ha].
Qed.

(** C8 (amended). The verifier returns exactly on the files that are read to
    their end without an exception and in which, on each line that is not
    blank, [json.loads] returns a record that [parse_entry] accepts or raises
    [JSONDecodeError].  What it returns is a verdict and the list of
    1-indexed numbers of the lines whose entry serializes to a value that
    differs from the decoded line; the verdict is true exactly when the list
    is empty; blank lines and lines that fail JSON decoding are never in the
    list, and a file with only such lines verifies as successful. *)
Theorem C8_verify_roundtrip_verdict :
  forall rt clock file,
    ((exists result, verify_roundtrip rt clock file = Ok result) <->
     read_error file = None /\
     parseable rt clock (enumerate (file_lines file) 1)) /\
    (forall verdict mismatched,
       verify_roundtrip rt clock file = Ok (verdict, mismatched) ->
       mismatched
       = map fst (filter (differs rt clock) (enumerate (file_lines file) 1)) /\
       (verdict = true <-> mismatched = []) /\
       (forall n, In n mismatched ->
          exists l, nth_error (file_lines file) (n - 1) = Some l /\ 1 <= n /\
                    skipped l = false) /\
       (forallb skipped (file_lines file) = true ->
          verdict = true /\ mismatched = [])) /\
    (read_error file = None -> forallb skipped (file_lines file) = true ->
     verify_roundtrip rt clock file = Ok (true, [])).
Proof.
  intros rt clock [file err]. cbn [read_error file_lines].
  assert (Hnone : forall (xs : list line) start,
             forallb skipped xs = true ->
             filter (differs rt clock) (enumerate xs start) = []).
  { induction xs as [| x xs IH]; intros start H; [reflexivity |].
    simpl in H. apply andb_prop in H. destruct H as [Hx Hxs].
    simpl. rewrite IH by exact Hxs.
    unfold differs, decoded; simpl. unfold skipped in Hx.
    destruct (String.eqb _ ""); [reflexivity |].
    destruct (loads x); [discriminate | reflexivity | discriminate]. }
  assert (Hreturns : forall result,
             verify_roundtrip rt clock (mk_text_file file err) = Ok result ->
             err = None /\ parseable rt clock (enumerate file 1)).
  { intros result H. unfold verify_roundtrip in H. bind_inv H.
    cbn [read_error file_lines] in *.
    split; [destruct err; [discriminate H | reflexivity] |].
    eapply verify_lines_return, Ha. }
  assert (Hvalue : err = None -> parseable rt clock (enumerate file 1) ->
             verify_roundtrip rt clock (mk_text_file file err)
             = Ok (Nat.eqb (List.length
                              (map fst (filter (differs rt clock) (enumerate file 1)))) 0,
                   map fst (filter (differs rt clock) (enumerate file 1)))).
  { intros -> Hp. unfold verify_roundtrip. cbn [read_error file_lines].
    rewrite verify_lines_parseable by exact Hp. reflexivity. }
  split; [| split].
  - split; [intros [result H]; eapply Hreturns, H |].
    intros [Hread Hp]. rewrite (Hvalue Hread Hp). eauto.
  - intros verdict mismatched H.
    destruct (Hreturns _ H) as [Hread Hp].
    rewrite (Hvalue Hread Hp) in H. inversion H; subst verdict mismatched; clear H.
    split; [reflexivity | split; [| split]].
    + destruct (map fst _); simpl; split; intros H; try reflexivity; discriminate.
    + intros n Hn. apply in_map_iff in Hn. destruct Hn as [[n' l] [Hfst Hin]].
      simpl in Hfst; subst n'. apply filter_In in Hin. destruct Hin as [Hin Hd].
      assert (Hgen : forall (xs : list line) start,
                 In (n, l) (enumerate xs start) ->
                 start <= n /\ nth_error xs (n - start) = Some l).
      { induction xs as [| x xs IH]; intros start H; [destruct H |].
        destruct H as [H | H].
        - inversion H; subst. rewrite Nat.sub_diag. split; [lia | reflexivity].
        - apply IH in H. destruct H as [Hle Hnth]. split; [lia |].
          replace (n - start) with (S (n - S start)) by lia. exact Hnth. }
      apply Hgen in Hin. destruct Hin as [Hle Hnth].
      exists l. split; [exact Hnth | split; [exact Hle |]].
      unfold differs, decoded in Hd. simpl in Hd. unfold skipped.
      destruct (String.eqb _ ""); [discriminate |].
      destruct (loads l); [reflexivity | discriminate | reflexivity].
    + intros Hall. rewrite Hnone by exact Hall. split; reflexivity.
  - intros Hread Hall. rewrite Hvalue.
    + rewrite Hnone by exact Hall. reflexivity.
    + exact Hread.
    + intros n l Hin. apply In_enumerate in Hin.
      rewrite forallb_forall in Hall. specialize (Hall l Hin).
      unfold skipped in Hall. unfold loads_raises, decoded.
      destruct (String.eqb _ ""); [split; [reflexivity | discriminate] |].
      destruct (loads l); try discriminate Hall.
      split; [reflexivity | discriminate].
Qed.

(** On well-formed records the entry is the record itself, so no line is
    ever reported. *)
Lemma verify_roundtrip_never_differs rt clock file :
  (forall l original, In l (file_lines file) -> decoded l = Some original ->
                      well_formed original) ->
  read_error file = None ->
  parseable rt clock (enumerate (file_lines file) 1) ->
  verify_roundtrip rt clock file = Ok (true, []).
Proof.
  intros Hwf Hread Hp. unfold verify_roundtrip.
  rewrite verify_lines_parseable by exact Hp. rewrite Hread.
  rewrite filter_none; [reflexivity |].
  intros [n l] Hin. unfold differs. cbn [fst snd].
  destruct (decoded l) as [original |] eqn:Hd; [| reflexivity].
  destruct (parse_entry rt (clock n) original) as [entry |] eqn:He; [| reflexivity].
  destruct (parse_entry_raw _ _ _ _ He) as [r [Horig Hraw]].
  unfold to_dict. rewrite Hraw, Horig. apply record_not_equal_itself.
  rewrite <- Horig. apply (Hwf l); [| exact Hd].
  eapply In_enumerate, Hin.
Qed.

Lemma C8_verify_roundtrip_verdict_witness :
  exists result,
    verify_roundtrip inert_runtime (fun _ => epoch) sample_file = Ok result.
Proof.
  apply (proj1 (C8_verify_roundtrip_verdict inert_runtime (fun _ => epoch)
                  sample_file)).
  split; [reflexivity |].
  intros n l Hin. simpl in Hin.
  repeat (destruct Hin as [Hin | Hin]; [inversion Hin; subst; clear Hin |]);
    try contradiction;
    (split; [reflexivity | intros original Hd; try discriminate Hd]).
  inversion Hd; subst. eexists. reflexivity.
Defined.

(* ================================================================== *)
(** * Serializing content *)
(* ================================================================== *)


Lemma join_empty_single s : Str.join "" [s] = s.
Proof. reflexivity. Qed.

(** A string parsed by [parse_content] is given back as that string. *)
Lemma serialize_parsed_str rt s :
  serialize_content (parse_content rt (PStr s)) (PStr s) = Ok (PStr s).
Proof. reflexivity. Qed.




(* ================================================================== *)
(** * The interaction builder on the example of the specification *)
(* ================================================================== *)

(** C3. The four entries of the example -- a human message, an assistant
    message with one tool use, a user message with its result, an assistant
    message with one text -- give exactly one interaction, with the prompt,
    the two actions and the final response of the specification; this holds
    whatever the other fields of the entries are. *)
Theorem C3_fix_the_bug_example :
  forall rt b1 b2 b3 b4 role1 role3 user_type1 user_type3 raw1 raw3
         role2 raw2 model2 id2 stop2 seq2 usage2 request2 input
         role4 raw4 model4 id4 stop4 seq4 usage4 request4,
    let human :=
      UserEntry b1
        (UserMessage.mk role1 [Text (TextContent.mk (PStr "Fix the bug"))] raw1)
        user_type1 in
    let tool_call :=
      AssistantEntry b2
        (AssistantMessage.mk role2
           [ToolUse (ToolUseContent.mk (PStr "t1") (PStr "run_tests") input)]
           raw2 model2 id2 stop2 seq2 usage2) request2 in
    let tool_answer :=
      UserEntry b3
        (UserMessage.mk role3
           [ToolResult (ToolResultContent.mk (PStr "t1") (PStr "2 failed")
                          (PBool true))] raw3) user_type3 in
    let reply :=
      AssistantEntry b4
        (AssistantMessage.mk role4 [Text (TextContent.mk (PStr "Fixed, rerun"))]
           raw4 model4 id4 stop4 seq4 usage4) request4 in
    exists i,
      build_interactions rt [human; tool_call; tool_answer; reply] = Ok [i] /\
      Interaction.id i = "interaction-1" /\
      Interaction.timestamp i = timestamp b1 /\
      Interaction.user_prompt i = "Fix the bug" /\
      Interaction.actions i =
        [Action.mk "tool_use" (Some (timestamp b2)) PNone (PStr "run_tests")
                   (PStr "t1") input (Some "2 failed") (PBool true) None None;
         Action.mk "text" (Some (timestamp b4)) PNone PNone PNone PNone None
                   (PBool false) (Some "Fixed, rerun") None] /\
      Interaction.final_response i = Some "Fixed, rerun" /\
      Interaction.cancel_reason i = None.
Proof.
  intros. subst human tool_call tool_answer reply.
  unfold build_interactions.
  destruct model2 as [| c | z | [| | |] | [|] | [|] | [|]]; simpl;
    repeat (match goal with
            | |- context [if ?c then _ else _] => destruct c
            end; simpl);
    (eexists; split; [reflexivity | repeat (split; [reflexivity |]); reflexivity]).
Qed.

(* ================================================================== *)
(** * The interaction builder as a state machine *)
(* ================================================================== *)

Lemma same_header_refl o : same_header o o.
Proof. destruct o; simpl; auto. Qed.

Lemma is_human_not_assistant e :
  is_assistant e = true -> _is_human_message e = Ok false.
Proof. destruct e; simpl; try discriminate; reflexivity. Qed.

Lemma idle_assistant_ignored rt st e :
  is_assistant e = true -> current_interaction st = None ->
  build_step rt st e = Ok st.
Proof.
  intros He Hc. destruct e; try discriminate He.
  unfold build_step. simpl. unfold assistant_response. rewrite Hc. reflexivity.
Qed.

Lemma user_followup_header rt st e st' :
  user_followup rt st e = Ok st' ->
  interactions st' = interactions st /\
  interaction_counter st' = interaction_counter st /\
  same_header (current_interaction st) (current_interaction st').
Proof.
  unfold user_followup. destruct (current_interaction st) as [cur |] eqn:Hc.
  - intros H. bind_inv H.
    destruct (_is_cancellation_message a);
      [| destruct (_is_auto_compact_message a)];
      try (inversion H; subst; repeat split; reflexivity).
    bind_inv H. inversion H; subst; simpl. repeat split.
    clear. revert cur. induction a0 as [| [k [r ie]] m IH]; intros cur; simpl.
    + reflexivity.
    + rewrite IH. unfold apply_tool_result, _find_tool_use_action.
      destruct (find_index _ _); reflexivity.
  - intros H. inversion H; subst. rewrite Hc. repeat split.
Qed.

Lemma assistant_response_header st e m st' :
  assistant_response st e m = Ok st' ->
  interactions st' = interactions st /\
  interaction_counter st' = interaction_counter st /\
  same_header (current_interaction st) (current_interaction st').
Proof.
  unfold assistant_response. destruct (current_interaction st) as [cur |] eqn:Hc.
  - intros H. bind_inv H. destruct a as [[acts text] has_tool_use].
    simpl in H.
    destruct (Interaction.model cur) eqn:Hm;
      try destruct (Py.truthy (AssistantMessage.model m));
      destruct text as [txt |]; try destruct (truthy_str (Some txt));
      inversion H; subst; repeat split; reflexivity.
  - intros H. inversion H; subst. rewrite Hc. repeat split.
Qed.

(** A step that does not take the human-message branch keeps the number of
    interactions and the header of each. *)
Lemma build_step_quiet rt st e st' :
  build_step rt st e = Ok st' -> starts_interaction e = false ->
  map header (all_interactions st') = map header (all_interactions st) /\
  interaction_counter st' = interaction_counter st /\
  active st' = active st.
Proof.
  intros H Hh.
  assert (Hkeep : interactions st' = interactions st /\
                  interaction_counter st' = interaction_counter st /\
                  same_header (current_interaction st) (current_interaction st')).
  { unfold build_step in H. unfold starts_interaction in Hh.
    destruct e;
      try (inversion H; subst; repeat split; apply same_header_refl);
      bind_inv H; rewrite Ha in Hh; destruct a; try discriminate Hh;
      try (inversion H; subst; repeat split; apply same_header_refl).
    - eapply user_followup_header; eassumption.
    - eapply assistant_response_header; eassumption. }
  destruct Hkeep as [Hi [Hn Hc]]. unfold all_interactions, active.
  rewrite Hi. unfold same_header in Hc.
  destruct (current_interaction st), (current_interaction st');
    try contradiction; rewrite ?map_app; simpl; rewrite ?Hc; auto.
Qed.

(** A step that takes the human-message branch appends one interaction. *)
Lemma build_step_start rt st e st' :
  build_step rt st e = Ok st' -> starts_interaction e = true ->
  exists i, all_interactions st' = all_interactions st ++ [i] /\
            Interaction.id i = label (S (interaction_counter st)) /\
            started_by i e /\
            interaction_counter st' = S (interaction_counter st) /\
            active st' = true.
Proof.
  intros H Hh. unfold starts_interaction in Hh. unfold build_step in H.
  destruct e; try discriminate Hh;
    bind_inv H; rewrite Ha in Hh; destruct a; try discriminate Hh.
  unfold start_interaction in H. bind_inv H. inversion H; subst; clear H.
  eexists. unfold all_interactions, active, started_by, label. simpl.
  replace (interaction_counter st + 1) with (S (interaction_counter st)) by lia.
  split.
  - destruct (current_interaction st); [| now rewrite app_nil_r]. reflexivity.
  - repeat split; try reflexivity; assumption.
Qed.

Lemma build_step_active rt st e st' :
  build_step rt st e = Ok st' ->
  active st' = active st || starts_interaction e.
Proof.
  intros H. destruct (starts_interaction e) eqn:Hh.
  - destruct (build_step_start _ _ _ _ H Hh) as [i [_ [_ [_ [_ Ha]]]]].
    rewrite Ha. now rewrite orb_true_r.
  - destruct (build_step_quiet _ _ _ _ H Hh) as [_ [_ Ha]].
    rewrite Ha. now rewrite orb_false_r.
Qed.

Lemma drop_idle_assistants_fold rt es :
  forall st,
    foldM (build_step rt) (drop_idle_assistants (active st) es) st
    = foldM (build_step rt) es st.
Proof.
  induction es as [| e es IH]; intros st; simpl; [reflexivity |].
  destruct (is_assistant e && negb (active st)) eqn:Hidle.
  - apply andb_prop in Hidle. destruct Hidle as [He Hna].
    rewrite idle_assistant_ignored; [simpl; apply IH | exact He |].
    unfold active in Hna. destruct (current_interaction st); [discriminate | reflexivity].
  - simpl. destruct (build_step rt st e) as [st' |] eqn:Hstep; simpl; [| reflexivity].
    rewrite <- (build_step_active _ _ _ _ Hstep). apply IH.
Qed.

(** C9. An assistant entry that arrives while no interaction is active
    leaves the builder unchanged, so it adds no action, model or final
    response; and [build_interactions] gives the same result -- the same list
    of interactions, or the same exception -- for a sequence and for the
    sequence without those entries. *)
Theorem C9_idle_assistant_entries_ignored :
  forall rt es,
    build_interactions rt (drop_idle_assistants false es) = build_interactions rt es
    /\ (forall st e, is_assistant e = true -> current_interaction st = None ->
          build_step rt st e = Ok st)
    /\ (forall pre, forallb is_assistant pre = true ->
          build_interactions rt (pre ++ es) = build_interactions rt es).
Proof.
  intros rt es. split; [| split].
  - unfold build_interactions.
    change false with (active (mk_builder [] None 0)).
    rewrite drop_idle_assistants_fold. reflexivity.
  - intros st e. apply idle_assistant_ignored.
  - intros pre Hpre. unfold build_interactions. rewrite foldM_app.
    replace (foldM (build_step rt) pre (mk_builder [] None 0))
      with (Ok (mk_builder [] None 0)); [reflexivity |].
    induction pre as [| a pre IH]; [reflexivity |].
    simpl in Hpre. apply andb_prop in Hpre. destruct Hpre as [Ha Hpre].
    simpl. rewrite idle_assistant_ignored by (exact Ha || reflexivity).
    simpl. apply IH, Hpre.
Qed.

Lemma C9_idle_assistant_entries_ignored_witness :
  build_interactions inert_runtime
    ([AssistantEntry (mk_base (PStr "a1") epoch (PStr "assistant") [])
        (AssistantMessage.mk (PStr "assistant")
           [Text (TextContent.mk (PStr "hello"))] None (PStr "m") (PStr "")
           PNone PNone Usage.default) (PStr "")] ++ [])
  = build_interactions inert_runtime [].
Proof.
  apply (C9_idle_assistant_entries_ignored inert_runtime []). reflexivity.
Defined.

Lemma header_started l l' hs :
  map header l' = map header l ->
  Forall2 started_by l hs -> Forall2 started_by l' hs.
Proof.
  intros Hm Hf. revert l' Hm.
  induction Hf as [| i e l hs Hie Hf IH]; intros l' Hm.
  - destruct l'; [constructor | discriminate].
  - destruct l' as [| i' l']; [discriminate |].
    simpl in Hm. inversion Hm as [[Hid Hts Hup Hrest]].
    constructor; [| apply IH, Hrest].
    destruct Hie as [H1 H2]. split; [now rewrite Hts | now rewrite Hup].
Qed.

Lemma header_ids l l' :
  map header l' = map header l -> map Interaction.id l' = map Interaction.id l.
Proof.
  intros H.
  assert (Hid : forall x, map Interaction.id x = map (fun h => fst (fst h)) (map header x)).
  { intros x. rewrite map_map. reflexivity. }
  rewrite (Hid l'), (Hid l), H. reflexivity.
Qed.

(** The invariant of the loop of [build_interactions]: the interactions built
    so far are those of the human messages met so far, in order, and the k-th
    carries the k-th label. *)
Lemma build_loop_invariant rt es :
  forall st st' hs,
    foldM (build_step rt) es st = Ok st' ->
    Forall2 started_by (all_interactions st) hs ->
    map Interaction.id (all_interactions st)
    = map label (seq 1 (interaction_counter st)) ->
    Forall2 started_by (all_interactions st') (hs ++ filter starts_interaction es)
    /\ map Interaction.id (all_interactions st')
       = map label (seq 1 (interaction_counter st')).
Proof.
  induction es as [| e es IH]; intros st st' hs H Hf Hid; simpl in *.
  - inversion H; subst. rewrite app_nil_r. split; assumption.
  - bind_inv H. destruct (starts_interaction e) eqn:Hh.
    + destruct (build_step_start _ _ _ _ Ha Hh) as [i [Hall [Hi [Hs [Hn _]]]]].
      replace (hs ++ e :: filter starts_interaction es)
        with ((hs ++ [e]) ++ filter starts_interaction es)
        by (rewrite <- app_assoc; reflexivity).
      apply (IH a st' (hs ++ [e]) H).
      * rewrite Hall. apply Forall2_app; [exact Hf | constructor; [exact Hs | constructor]].
      * rewrite Hall, Hn, map_app, Hid, seq_S, map_app. simpl. now rewrite Hi.
    + destruct (build_step_quiet _ _ _ _ Ha Hh) as [Hall [Hn _]].
      apply (IH a st' hs H).
      * eapply header_started; [exact Hall | exact Hf].
      * rewrite (header_ids _ _ Hall), Hn. exact Hid.
Qed.

Lemma build_interactions_all rt es l :
  build_interactions rt es = Ok l ->
  exists st, foldM (build_step rt) es (mk_builder [] None 0) = Ok st /\
             l = all_interactions st.
Proof.
  unfold build_interactions. intros H. bind_inv H. exists a. split; [exact Ha |].
  unfold all_interactions. destruct (current_interaction a); inversion H; subst;
    [reflexivity | now rewrite app_nil_r].
Qed.

Lemma to_uint_nonnil n : Nat.to_uint n <> Decimal.Nil.
Proof.
  intros H.
  assert (Hn : n = 0) by (rewrite <- (DecimalNat.Unsigned.of_to n), H; reflexivity).
  subst. discriminate H.
Qed.

Lemma of_nat_inj n m : Str.of_nat n = Str.of_nat m -> n = m.
Proof.
  unfold Str.of_nat. intros H.
  apply (f_equal NilZero.uint_of_string) in H.
  rewrite !NilZero.usu in H by apply to_uint_nonnil.
  inversion H as [H']. now apply DecimalNat.Unsigned.to_uint_inj.
Qed.

Lemma label_inj n m : label n = label m -> n = m.
Proof.
  unfold label. intros H. apply of_nat_inj.
  simpl in H. inversion H. reflexivity.
Qed.

Lemma NoDup_labels start len : NoDup (map label (seq start len)).
Proof.
  induction (seq_NoDup len start) as [| n l Hn Hl IH]; simpl; constructor; auto.
  intros Hin. apply in_map_iff in Hin. destruct Hin as [m [Hm Hin]].
  apply label_inj in Hm. subst. contradiction.
Qed.

Lemma strs_of_total blocks :
  forallb block_well_typed blocks = true ->
  exists ss, strs_of (text_fields blocks) = Ok ss.
Proof.
  induction blocks as [| b blocks IH]; simpl; intros H; [eauto |].
  apply andb_prop in H. destruct H as [Hb Hbs].
  destruct (IH Hbs) as [ss Hss].
  destruct b as [t | | |]; simpl; eauto.
  simpl in Hb. destruct (TextContent.text t); try discriminate.
  rewrite Hss. simpl. eauto.
Qed.

Lemma is_human_total e :
  entry_well_typed e = true -> exists h, _is_human_message e = Ok h.
Proof.
  destruct e; simpl; eauto. intros H.
  destruct (existsb is_tool_result (UserMessage.content message)); [eauto |].
  assert (Hfold : forall blocks acc,
             forallb block_well_typed blocks = true ->
             exists text,
               foldM (fun text block =>
                        match block with
                        | Text b => str_add text (TextContent.text b)
                        | _ => Ok text
                        end) blocks acc = Ok text).
  { induction blocks as [| blk blocks IH]; simpl; intros acc Hb; [eauto |].
    apply andb_prop in Hb. destruct Hb as [Hb Hbs].
    destruct blk as [t | | |]; simpl; try (apply IH, Hbs).
    simpl in Hb. destruct (TextContent.text t); try discriminate.
    simpl. apply IH, Hbs. }
  destruct (Hfold _ "" H) as [text Htext]. rewrite Htext. simpl.
  destruct (_is_local_command_message text); [eauto |].
  destruct (_is_auto_compact_message text); [eauto |].
  destruct (_is_cancellation_message text); eauto.
Qed.

Lemma get_text_content_total e :
  entry_well_typed e = true -> (exists h, _is_human_message e = Ok h /\ h = true)
  \/ is_user_or_assistant e = true ->
  exists text, _get_text_content e = Ok text.
Proof.
  intros Hwt Hk. unfold _get_text_content, join_values.
  assert (Hua : is_user_or_assistant e = true).
  { destruct Hk as [[h [Hh ->]] | Hk]; [| exact Hk].
    destruct e; simpl in Hh; try discriminate; reflexivity. }
  destruct e; try discriminate Hua; simpl in *;
    destruct (strs_of_total _ Hwt) as [ss Hss]; rewrite Hss; simpl; eauto.
Qed.

Lemma extract_tool_results_total rt e :
  entry_well_typed e = true -> is_user_or_assistant e = true ->
  exists results, _extract_tool_results rt e = Ok results.
Proof.
  intros Hwt Hua. unfold _extract_tool_results.
  assert (Hfold : forall blocks (acc : PyMap.t (string * pyval)),
             forallb block_well_typed blocks = true ->
             exists results,
               foldM (fun results block =>
                        match block with
                        | ToolResult b =>
                            let content_str :=
                              content_as_str rt (ToolResultContent.content b) in
                            PyMap.set results (ToolResultContent.tool_use_id b)
                              (content_str, ToolResultContent.is_error b)
                        | _ => Ok results
                        end) blocks acc = Ok results).
  { induction blocks as [| blk blocks IH]; simpl; intros acc Hb; [eauto |].
    apply andb_prop in Hb. destruct Hb as [Hb Hbs].
    destruct blk as [| | | r]; simpl; try (apply IH, Hbs).
    simpl in Hb. unfold PyMap.set, Py.check_hashable. rewrite Hb. simpl.
    apply IH, Hbs. }
  destruct e; try discriminate Hua; simpl in *; apply Hfold, Hwt.
Qed.

Lemma extract_actions_total e :
  entry_well_typed e = true -> is_user_or_assistant e = true ->
  exists r, _extract_actions_from_assistant e = Ok r.
Proof.
  intros Hwt Hua. unfold _extract_actions_from_assistant.
  assert (Hfold : forall blocks acc,
             forallb block_well_typed blocks = true ->
             exists r, foldM (extract_block (timestamp (base e))) blocks acc = Ok r).
  { induction blocks as [| blk blocks IH]; simpl; intros acc Hb; [eauto |].
    apply andb_prop in Hb. destruct Hb as [Hb Hbs].
    destruct acc as [[acts parts] flag].
    destruct blk as [t | | |]; simpl; try (apply IH, Hbs).
    simpl in Hb. destruct (TextContent.text t); try discriminate.
    destruct (_ || _); simpl; apply IH, Hbs. }
  destruct e; try discriminate Hua; simpl in *;
    destruct (Hfold _ ([], [], false) Hwt) as [[[acts parts] flag] Hr];
    rewrite Hr; simpl; eauto.
Qed.

Lemma build_step_total rt st e :
  entry_well_typed e = true -> exists st', build_step rt st e = Ok st'.
Proof.
  intros Hwt. unfold build_step.
  destruct (is_human_total e Hwt) as [h Hh].
  destruct e; eauto; rewrite Hh; simpl; destruct h; eauto.
  - unfold start_interaction.
    destruct (get_text_content_total _ Hwt (or_intror eq_refl)) as [t Ht].
    rewrite Ht. simpl. eauto.
  - unfold user_followup. destruct (current_interaction st) as [cur |]; [| eauto].
    destruct (get_text_content_total _ Hwt (or_intror eq_refl)) as [t Ht].
    rewrite Ht. simpl.
    destruct (_is_cancellation_message t); [eauto |].
    destruct (_is_auto_compact_message t); [eauto |].
    destruct (extract_tool_results_total rt _ Hwt eq_refl) as [r Hr].
    rewrite Hr. simpl. eauto.
  - simpl in Hh. discriminate Hh.
  - unfold assistant_response. destruct (current_interaction st) as [cur |]; [| eauto].
    destruct (extract_actions_total _ Hwt eq_refl) as [[[acts text] flag] Hr].
    rewrite Hr. simpl.
    destruct text as [txt |]; [destruct (truthy_str (Some txt)) |]; eauto.
  - simpl in Hh. discriminate Hh.
  - simpl in Hh. discriminate Hh.
  - simpl in Hh. discriminate Hh.
Qed.

(** On entries that honour their annotations [build_interactions] raises
    nothing. *)
Lemma build_interactions_total rt es :
  forallb entry_well_typed es = true ->
  exists l, build_interactions rt es = Ok l.
Proof.
  intros Hwt. unfold build_interactions.
  assert (Hfold : forall st, exists st', foldM (build_step rt) es st = Ok st').
  { induction es as [| e es IH]; simpl; intros st; [eauto |].
    simpl in Hwt. apply andb_prop in Hwt. destruct Hwt as [He Hes].
    destruct (build_step_total rt st e He) as [st1 H1]. rewrite H1. simpl.
    apply IH, Hes. }
  destruct (Hfold (mk_builder [] None 0)) as [st' Hst]. rewrite Hst. simpl.
  destruct (current_interaction st'); eauto.
Qed.

(** C10. In the list that [build_interactions] returns, the k-th interaction
    (counting from 1) has the id [interaction-k], and the interactions are,
    one for one and in order, those started by the human messages of the
    sequence: each human message has exactly one interaction, with its
    timestamp and its text as the prompt. *)
Theorem C10_sequential_ids_and_one_per_human_message :
  forall rt es l,
    build_interactions rt es = Ok l ->
    (forall k i, nth_error l k = Some i -> Interaction.id i = label (S k)) /\
    map Interaction.id l = map label (seq 1 (List.length l)) /\
    NoDup (map Interaction.id l) /\
    Forall2 started_by l (filter starts_interaction es) /\
    List.length l = List.length (filter starts_interaction es).
Proof.
  intros rt es l H.
  destruct (build_interactions_all _ _ _ H) as [st [Hfold ->]].
  destruct (build_loop_invariant rt es _ _ [] Hfold) as [Hf Hid];
    [constructor | reflexivity |]. simpl in Hf.
  assert (Hlen : List.length (all_interactions st) = interaction_counter st).
  { apply (f_equal (@List.length _)) in Hid.
    now rewrite !length_map, length_seq in Hid. }
  split; [| split; [| split; [| split]]].
  2: { rewrite Hlen. exact Hid. }
  2: { rewrite Hid. apply NoDup_labels. }
  - intros k i Hk.
    assert (Hk' : nth_error (map Interaction.id (all_interactions st)) k
                  = Some (Interaction.id i)) by now apply map_nth_error.
    rewrite Hid in Hk'.
    rewrite nth_error_map in Hk'.
    destruct (nth_error (seq 1 (interaction_counter st)) k) as [n |] eqn:Hn;
      [| discriminate].
    simpl in Hk'. inversion Hk' as [Hl].
    assert (Hlt : k < interaction_counter st).
    { rewrite <- Hlen. apply nth_error_Some. now rewrite Hk. }
    rewrite nth_error_seq in Hn.
    destruct (Nat.ltb_spec k (interaction_counter st)); [| lia].
    inversion Hn; subst. reflexivity.
  - exact Hf.
  - apply Forall2_length in Hf. exact Hf.
Qed.

Lemma C10_sequential_ids_and_one_per_human_message_witness :
  exists l, build_interactions inert_runtime two_turns = Ok l /\
            map Interaction.id l = ["interaction-1"; "interaction-2"].
Proof.
  destruct (build_interactions_total inert_runtime two_turns eq_refl) as [l Hl].
  exists l. split; [exact Hl |].
  destruct (C10_sequential_ids_and_one_per_human_message inert_runtime two_turns l Hl)
    as [_ [Hid [_ [_ Hlen]]]].
  rewrite Hid, Hlen. reflexivity.
Defined.

(* ================================================================== *)
(** * Matching tool results to tool uses *)
(* ================================================================== *)

Lemma find_index_Some {A} (test : A -> bool) l n :
  find_index test l = Some n ->
  exists pre a post,
    l = pre ++ a :: post /\ List.length pre = n /\ test a = true /\
    forallb (fun x => negb (test x)) pre = true.
Proof.
  revert n; induction l as [| x l IH]; simpl; intros n H; [discriminate |].
  destruct (test x) eqn:Hx.
  - inversion H; subst. exists [], x, l. repeat split; assumption.
  - destruct (find_index test l) as [m |]; [| discriminate].
    inversion H; subst. destruct (IH m eq_refl) as [pre [a [post [Hl [Hn [Ha Hp]]]]]].
    exists (x :: pre), a, post. simpl. rewrite Hx, Hp, Hl, Hn. repeat split; auto.
Qed.

Lemma find_index_None {A} (test : A -> bool) l :
  find_index test l = None -> forallb (fun x => negb (test x)) l = true.
Proof.
  induction l as [| x l IH]; simpl; [reflexivity |].
  destruct (test x); [discriminate |].
  destruct (find_index test l); [discriminate | intros _; now apply IH].
Qed.

Lemma find_index_first {A} (test : A -> bool) pre a post :
  forallb (fun x => negb (test x)) pre = true -> test a = true ->
  find_index test (pre ++ a :: post) = Some (List.length pre).
Proof.
  induction pre as [| x pre IH]; simpl; intros Hp Ha.
  - now rewrite Ha.
  - apply andb_prop in Hp. destruct Hp as [Hx Hp].
    destruct (test x); [discriminate |]. now rewrite IH.
Qed.

Lemma update_at_app {A} (f : A -> A) pre a post :
  update_at (List.length pre) f (pre ++ a :: post) = pre ++ f a :: post.
Proof. induction pre as [| x pre IH]; simpl; [reflexivity | now rewrite IH]. Qed.

Lemma with_result_test tool_id a r ie :
  is_tool_use_with_id tool_id (Action.with_result a r ie)
  = is_tool_use_with_id tool_id a.
Proof. reflexivity. Qed.

(** What one dict item does to the current interaction: the first action
    that the scan finds gets the result, nothing else changes. *)
Lemma apply_tool_result_spec cur tool_id r ie :
  (exists pre a post,
      Interaction.actions cur = pre ++ a :: post /\
      no_match tool_id pre = true /\
      is_tool_use_with_id tool_id a = true /\
      _find_tool_use_action (Some cur) tool_id = Some (List.length pre) /\
      apply_tool_result cur (tool_id, (r, ie))
      = Interaction.with_actions cur (pre ++ Action.with_result a r ie :: post))
  \/ (no_match tool_id (Interaction.actions cur) = true /\
      _find_tool_use_action (Some cur) tool_id = None /\
      apply_tool_result cur (tool_id, (r, ie)) = cur).
Proof.
  unfold apply_tool_result, _find_tool_use_action.
  destruct (find_index (is_tool_use_with_id tool_id) (Interaction.actions cur))
    as [n |] eqn:Hf.
  - left. destruct (find_index_Some _ _ _ Hf) as [pre [a [post [Hl [Hn [Ha Hp]]]]]].
    exists pre, a, post. subst n. rewrite Hl, update_at_app. auto.
  - right. split; [now apply find_index_None | auto].
Qed.

Lemma resolved_is_first_nil : resolved_is_first [].
Proof. intros pre a post H. destruct pre; discriminate. Qed.

Lemma resolved_is_first_app acts new :
  resolved_is_first acts -> Forall unresolved new ->
  resolved_is_first (acts ++ new).
Proof.
  intros Hacts Hnew pre a post Heq Hres.
  apply app_eq_app in Heq. destruct Heq as [l [[H1 H2] | [H1 H2]]].
  - destruct l as [| x l].
    + simpl in H2. subst new. inversion Hnew; subst. contradiction.
    + inversion H2; subst. apply (Hacts pre x l); [reflexivity | exact Hres].
  - subst new. apply Forall_app in Hnew. destruct Hnew as [_ Hnew].
    inversion Hnew; subst. contradiction.
Qed.

Lemma no_match_with_result tool_id pre a r ie rest :
  no_match tool_id (pre ++ Action.with_result a r ie :: rest)
  = no_match tool_id (pre ++ a :: rest).
Proof. unfold no_match. rewrite !forallb_app. reflexivity. Qed.

Lemma resolved_is_first_apply cur item :
  resolved_is_first (Interaction.actions cur) ->
  resolved_is_first (Interaction.actions (apply_tool_result cur item)).
Proof.
  destruct item as [k [r ie]]. intros Hinv.
  destruct (apply_tool_result_spec cur k r ie)
    as [[pre0 [a0 [post0 [Hl [Hp [Ha [_ Happ]]]]]]] | [_ [_ Happ]]];
    rewrite Happ; [| exact Hinv].
  simpl. intros pre a post Heq Hres.
  apply app_eq_app in Heq. destruct Heq as [l [[H1 H2] | [H1 H2]]].
  - destruct l as [| x l]; simpl in H2; inversion H2; subst.
    + rewrite app_nil_r in Hp. exists k. split; [exact Ha | exact Hp].
    + apply (Hinv pre x (l ++ a0 :: post0)); [| exact Hres].
      rewrite Hl, <- app_assoc. reflexivity.
  - destruct l as [| x l]; simpl in H2; inversion H2; subst.
    + rewrite app_nil_r. exists k. split; [exact Ha | exact Hp].
    + destruct (Hinv (pre0 ++ a0 :: l) a post) as [k' [Hk' Hn']];
        [rewrite Hl, <- app_assoc; reflexivity | exact Hres |].
      exists k'. split; [exact Hk' |]. now rewrite no_match_with_result.
Qed.

Lemma extract_block_unresolved ts st b st' :
  extract_block ts st b = Ok st' ->
  Forall unresolved (fst (fst st)) -> Forall unresolved (fst (fst st')).
Proof.
  destruct st as [[acts parts] flag]. unfold extract_block.
  destruct b as [t | t | t | t]; intros H Hacts.
  - destruct (TextContent.text t); try discriminate.
    destruct (_ || _); inversion H; subst; exact Hacts.
  - inversion H; subst. simpl. apply Forall_app. split; [exact Hacts |].
    constructor; [reflexivity | constructor].
  - inversion H; subst. simpl. apply Forall_app. split; [exact Hacts |].
    constructor; [reflexivity | constructor].
  - inversion H; subst; exact Hacts.
Qed.

Lemma extract_actions_unresolved e acts text flag :
  _extract_actions_from_assistant e = Ok (acts, text, flag) ->
  Forall unresolved acts.
Proof.
  unfold _extract_actions_from_assistant. intros H. bind_inv H. bind_inv H.
  destruct a0 as [[acts' parts] flag']. inversion H; subst.
  change acts with (fst (fst (acts, parts, flag))).
  eapply (foldM_invariant (fun st => Forall unresolved (fst (fst st))));
    [| | exact Ha0].
  - intros st x st' HP Hstep. eapply extract_block_unresolved; eassumption.
  - constructor.
Qed.

Lemma resolved_is_first_fold items cur :
  resolved_is_first (Interaction.actions cur) ->
  resolved_is_first (Interaction.actions (fold_left apply_tool_result items cur)).
Proof.
  revert cur; induction items as [| item items IH]; intros cur H; simpl;
    [exact H | apply IH, resolved_is_first_apply, H].
Qed.

Lemma builder_resolved_first_set st cur cur' :
  current_interaction st = Some cur ->
  builder_resolved_first st ->
  resolved_is_first (Interaction.actions cur') ->
  builder_resolved_first (set_current st cur').
Proof.
  unfold builder_resolved_first, all_interactions. intros Hc Hinv Hcur'.
  rewrite Hc in Hinv. simpl. apply Forall_app in Hinv. destruct Hinv as [Hi _].
  apply Forall_app. split; [exact Hi | constructor; [exact Hcur' | constructor]].
Qed.

Lemma builder_resolved_first_current st cur :
  current_interaction st = Some cur -> builder_resolved_first st ->
  resolved_is_first (Interaction.actions cur).
Proof.
  unfold builder_resolved_first, all_interactions. intros Hc Hinv.
  rewrite Hc in Hinv. apply Forall_app in Hinv. destruct Hinv as [_ Hcur].
  now inversion Hcur.
Qed.

Lemma build_step_resolved_first rt st e st' :
  builder_resolved_first st -> build_step rt st e = Ok st' ->
  builder_resolved_first st'.
Proof.
  intros Hinv H. unfold build_step in H.
  destruct e; try (inversion H; subst; exact Hinv);
    bind_inv H; destruct a; try (inversion H; subst; exact Hinv).
  - (* a human message *)
    unfold start_interaction in H. bind_inv H. inversion H; subst; clear H.
    unfold builder_resolved_first, all_interactions in *. simpl.
    apply Forall_app. split.
    + destruct (current_interaction st); [exact Hinv |].
      now rewrite app_nil_r in Hinv.
    + constructor; [apply resolved_is_first_nil | constructor].
  - (* a user entry that is not a human message *)
    unfold user_followup in H.
    destruct (current_interaction st) as [cur |] eqn:Hc;
      [| inversion H; subst; exact Hinv].
    pose proof (builder_resolved_first_current _ _ Hc Hinv) as Hcur.
    bind_inv H.
    destruct (_is_cancellation_message a);
      [| destruct (_is_auto_compact_message a)].
    + inversion H; subst.
      eapply builder_resolved_first_set; [exact Hc | exact Hinv | exact Hcur].
    + inversion H; subst.
      eapply builder_resolved_first_set; [exact Hc | exact Hinv |].
      simpl. apply resolved_is_first_app; [exact Hcur |].
      constructor; [reflexivity | constructor].
    + bind_inv H. inversion H; subst.
      eapply builder_resolved_first_set; [exact Hc | exact Hinv |].
      apply resolved_is_first_fold, Hcur.
  - simpl in Ha. discriminate Ha.
  - (* an assistant entry *)
    unfold assistant_response in H.
    destruct (current_interaction st) as [cur |] eqn:Hc;
      [| inversion H; subst; exact Hinv].
    pose proof (builder_resolved_first_current _ _ Hc Hinv) as Hcur.
    bind_inv H. destruct a as [[acts text] flag].
    pose proof (extract_actions_unresolved _ _ _ _ Ha0) as Hacts.
    assert (Hext : resolved_is_first (Interaction.actions cur ++ acts))
      by (apply resolved_is_first_app; assumption).
    simpl in H.
    destruct (Interaction.model cur);
      try destruct (Py.truthy (AssistantMessage.model message));
      destruct text as [txt |]; try destruct (truthy_str (Some txt));
      inversion H; subst;
      (eapply builder_resolved_first_set; [exact Hc | exact Hinv |]); simpl;
      try exact Hext;
      (apply resolved_is_first_app; [exact Hext |];
       constructor; [reflexivity | constructor]).
Qed.

Lemma build_interactions_resolved_first rt es l :
  build_interactions rt es = Ok l ->
  Forall (fun i => resolved_is_first (Interaction.actions i)) l.
Proof.
  intros H. destruct (build_interactions_all _ _ _ H) as [st [Hfold ->]].
  eapply (foldM_invariant builder_resolved_first); [| | exact Hfold].
  - intros st0 x st1 HP Hstep. eapply build_step_resolved_first; eassumption.
  - constructor.
Qed.

Lemma equal_str_r v s : Py.equal v (PStr s) = true -> v = PStr s.
Proof.
  destruct v; simpl; try discriminate.
  intros H. apply String.eqb_eq in H. now subst.
Qed.

Lemma key_eq_str a b : Py.key_eq (PStr a) (PStr b) = String.eqb a b.
Proof. reflexivity. Qed.

Lemma find_index_update_at {A} (test : A -> bool) f n l :
  (forall x, test (f x) = test x) ->
  find_index test (update_at n f l) = find_index test l.
Proof.
  intros Hf. revert n; induction l as [| x l IH]; intros n; [reflexivity |].
  destruct n as [| n]; simpl; [now rewrite Hf |]. now rewrite IH.
Qed.

Lemma update_at_twice {A} (f g : A -> A) n l :
  update_at n g (update_at n f l) = update_at n (fun x => g (f x)) l.
Proof.
  revert n; induction l as [| x l IH]; intros n; [reflexivity |].
  destruct n as [| n]; simpl; [reflexivity | now rewrite IH].
Qed.

Lemma update_at_comm {A} (f g : A -> A) n m l :
  n <> m -> update_at n f (update_at m g l) = update_at m g (update_at n f l).
Proof.
  revert n m; induction l as [| x l IH]; intros n m Hnm; [reflexivity |].
  destruct n as [| n], m as [| m]; simpl; try reflexivity; [lia |].
  rewrite IH by lia. reflexivity.
Qed.

Lemma find_after_apply cur item tool_id :
  _find_tool_use_action (Some (apply_tool_result cur item)) tool_id
  = _find_tool_use_action (Some cur) tool_id.
Proof.
  destruct item as [k [r ie]]. unfold apply_tool_result, _find_tool_use_action.
  destruct (find_index (is_tool_use_with_id k) (Interaction.actions cur));
    [| reflexivity].
  simpl. apply find_index_update_at. intros x. apply with_result_test.
Qed.

(** A second result for the same id overwrites the first. *)
Lemma apply_tool_result_again cur k v1 v2 :
  apply_tool_result (apply_tool_result cur (k, v1)) (k, v2)
  = apply_tool_result cur (k, v2).
Proof.
  destruct v1 as [r1 e1], v2 as [r2 e2].
  unfold apply_tool_result at 1. rewrite find_after_apply.
  unfold apply_tool_result, _find_tool_use_action.
  destruct (find_index (is_tool_use_with_id k) (Interaction.actions cur));
    [| reflexivity].
  simpl. rewrite update_at_twice. reflexivity.
Qed.

Lemma nth_split_unique {A} (pre pre' : list A) a a' post post' :
  pre ++ a :: post = pre' ++ a' :: post' ->
  List.length pre = List.length pre' -> a = a'.
Proof.
  revert pre'; induction pre as [| x pre IH]; intros [| x' pre'] H Hlen;
    simpl in *; try discriminate.
  - now inversion H.
  - inversion H. eapply IH; [eassumption | lia].
Qed.

(** Results for two different ids go to two different actions. *)
Lemma apply_tool_result_comm cur k k' v v' :
  k <> k' ->
  apply_tool_result (apply_tool_result cur (PStr k, v)) (PStr k', v')
  = apply_tool_result (apply_tool_result cur (PStr k', v')) (PStr k, v).
Proof.
  intros Hk. destruct v as [r e], v' as [r' e'].
  unfold apply_tool_result at 1 3. rewrite !find_after_apply.
  unfold apply_tool_result, _find_tool_use_action.
  destruct (find_index (is_tool_use_with_id (PStr k)) (Interaction.actions cur))
    as [n |] eqn:Hn;
    destruct (find_index (is_tool_use_with_id (PStr k')) (Interaction.actions cur))
    as [n' |] eqn:Hn'; try reflexivity.
  simpl. rewrite update_at_comm; [reflexivity |].
  intros ->.
  destruct (find_index_Some _ _ _ Hn) as [p [a [q [Hl [Hlen [Ha _]]]]]].
  destruct (find_index_Some _ _ _ Hn') as [p' [a' [q' [Hl' [Hlen' [Ha' _]]]]]].
  assert (a' = a).
  { eapply nth_split_unique; [rewrite <- Hl', <- Hl; reflexivity | lia]. }
  subst a'. unfold is_tool_use_with_id in Ha, Ha'.
  apply andb_prop in Ha, Ha'. destruct Ha as [_ Ha], Ha' as [_ Ha'].
  apply equal_str_r in Ha, Ha'. rewrite Ha in Ha'. inversion Ha'. contradiction.
Qed.

Lemma apply_past_fold m cur k v :
  Forall (fun item => exists k1, fst item = PStr k1 /\ k1 <> k) m ->
  apply_tool_result (fold_left apply_tool_result m cur) (PStr k, v)
  = fold_left apply_tool_result m (apply_tool_result cur (PStr k, v)).
Proof.
  revert cur; induction m as [| [k1 v1] m IH]; intros cur Hm; [reflexivity |].
  inversion Hm as [| x l [s [Hs Hne]] Hm']; subst. simpl in Hs. subst k1.
  cbn [fold_left]. rewrite IH by exact Hm'. f_equal.
  apply apply_tool_result_comm. congruence.
Qed.

(** Putting an item in the dict and then running the loop over the dict is
    running the loop over the dict and then applying the item. *)
Lemma fold_put m ks cur k v :
  map fst m = map PStr ks -> NoDup ks ->
  fold_left apply_tool_result (PyMap.put m (PStr k) v) cur
  = apply_tool_result (fold_left apply_tool_result m cur) (PStr k, v)
  /\ exists ks', map fst (PyMap.put m (PStr k) v) = map PStr ks' /\ NoDup ks'
                /\ (forall x, In x ks' <-> In x ks \/ x = k).
Proof.
  revert ks cur; induction m as [| [k1 v1] m IH]; intros ks cur Hks Hnd.
  - destruct ks; [| discriminate]. simpl. split; [reflexivity |].
    exists [k]. repeat split; try (constructor; [intros [] | constructor]).
    + intros [-> | []]. now right.
    + intros [[] | ->]. now left.
  - destruct ks as [| s ks]; [discriminate |].
    simpl in Hks. inversion Hks as [[Hk1 Hrest]]. subst k1.
    inversion Hnd as [| x l Hnotin Hnd']; subst.
    cbn [PyMap.put]. rewrite key_eq_str.
    destruct (String.eqb_spec s k) as [-> | Hne].
    + cbn [fold_left]. split.
      * rewrite apply_past_fold.
        -- now rewrite apply_tool_result_again.
        -- clear - Hrest Hnotin. revert ks Hrest Hnotin.
           induction m as [| [k2 v2] m IHm]; intros ks Hrest Hnotin;
             [constructor |].
           destruct ks as [| s2 ks]; [discriminate |].
           simpl in Hrest. inversion Hrest as [[Hk2 Hrest']].
           constructor.
           ++ exists s2. split; [reflexivity |]. intros ->. apply Hnotin. now left.
           ++ apply (IHm ks Hrest'). intros Hin. apply Hnotin. now right.
      * exists (k :: ks). cbn [map fst]. rewrite Hrest.
        split; [reflexivity | split; [exact Hnd |]].
        intros x. split; [intros H; now left | intros [H | ->]; [exact H | now left]].
    + cbn [fold_left]. destruct (IH ks (apply_tool_result cur (PStr s, v1)) Hrest Hnd')
        as [Hfold [ks' [Hks' [Hnd'' Hin]]]].
      split; [exact Hfold |].
      exists (s :: ks'). cbn [map fst]. rewrite Hks'.
      split; [reflexivity | split].
      * constructor; [| exact Hnd''].
        intros H. apply Hin in H. destruct H as [H | H]; [contradiction | congruence].
      * intros x. split.
        -- intros [H | H]; [left; now left |].
           apply Hin in H. destruct H as [H | H]; [left; now right | now right].
        -- intros [[H | H] | H]; [now left | right; apply Hin; now left |
                                   right; apply Hin; now right].
Qed.

Lemma collect_tool_results rt blocks :
  forall (m : PyMap.t (string * pyval)) ks,
    map fst m = map PStr ks -> NoDup ks ->
    tool_ids_are_str blocks = true ->
    exists m',
      foldM (fun results block =>
               match block with
               | ToolResult b =>
                   let content_str :=
                     content_as_str rt (ToolResultContent.content b) in
                   PyMap.set results (ToolResultContent.tool_use_id b)
                     (content_str, ToolResultContent.is_error b)
               | _ => Ok results
               end) blocks m = Ok m' /\
      forall cur,
        fold_left apply_tool_result m' cur
        = fold_left apply_tool_result (tool_result_items rt blocks)
            (fold_left apply_tool_result m cur).
Proof.
  induction blocks as [| blk blocks IH]; intros m ks Hks Hnd Hty.
  - exists m. split; reflexivity.
  - simpl in Hty. apply andb_prop in Hty. destruct Hty as [Hb Hbs].
    destruct blk as [t | t | t | r]; cbn [foldM tool_result_items];
      try (apply (IH m ks Hks Hnd Hbs)).
    destruct r as [id content is_error]. simpl in Hb.
    destruct id as [| | | | k | |]; try discriminate Hb.
    cbn [ToolResultContent.tool_use_id ToolResultContent.content
         ToolResultContent.is_error].
    unfold PyMap.set. cbn [Py.check_hashable Py.hashable bind].
    set (v := (content_as_str rt content, is_error)).
    destruct (fold_put m ks (Interaction.mk "" epoch "" [] None PNone None) k v Hks Hnd)
      as [_ [ks' [Hks' [Hnd' _]]]].
    destruct (IH (PyMap.put m (PStr k) v) ks' Hks' Hnd' Hbs) as [m' [Hm' Hfold]].
    exists m'. split; [exact Hm' |].
    intros cur. rewrite Hfold.
    rewrite (proj1 (fold_put m ks cur k v Hks Hnd)). reflexivity.
Qed.

(** The tool-result branch applies the [ToolResultContent] blocks of the
    entry one by one, in order. *)
Lemma user_followup_blockwise rt st cur e content text :
  current_interaction st = Some cur ->
  message_content e = Ok content -> tool_ids_are_str content = true ->
  _get_text_content e = Ok text ->
  _is_cancellation_message text = false -> _is_auto_compact_message text = false ->
  user_followup rt st e
  = Ok (set_current st
          (fold_left apply_tool_result (tool_result_items rt content) cur)).
Proof.
  intros Hc Hcontent Hty Htext Hcancel Hcompact.
  destruct (collect_tool_results rt content [] [] eq_refl (NoDup_nil _) Hty)
    as [m' [Hm' Hfold]].
  assert (Hres : _extract_tool_results rt e = Ok m').
  { unfold _extract_tool_results. rewrite Hcontent. exact Hm'. }
  unfold user_followup. rewrite Hc, Htext. cbn [bind].
  rewrite Hcancel, Hcompact, Hres. cbn [bind]. rewrite Hfold. reflexivity.
Qed.

(** C4. A tool result for [tool_id] goes to the action that the linear scan
    of [_find_tool_use_action] finds first -- the earliest [tool_use] action
    of the current interaction whose [tool_id] equals it -- and changes
    nothing else; a tool-result entry applies its ToolResult blocks one by
    one in this way; and so, in every interaction that [build_interactions]
    returns, a [tool_use] action that comes after another one with the same id
    never has a result. *)
Theorem C4_tool_result_goes_to_first_match :
  (forall cur tool_id r ie,
     (exists pre a post,
         Interaction.actions cur = pre ++ a :: post /\
         no_match tool_id pre = true /\
         is_tool_use_with_id tool_id a = true /\
         _find_tool_use_action (Some cur) tool_id = Some (List.length pre) /\
         apply_tool_result cur (tool_id, (r, ie))
         = Interaction.with_actions cur (pre ++ Action.with_result a r ie :: post))
     \/ (no_match tool_id (Interaction.actions cur) = true /\
         _find_tool_use_action (Some cur) tool_id = None /\
         apply_tool_result cur (tool_id, (r, ie)) = cur)) /\
  (forall rt st cur b message user_type text,
     let e := UserEntry b message user_type in
     current_interaction st = Some cur ->
     _is_human_message e = Ok false ->
     tool_ids_are_str (UserMessage.content message) = true ->
     _get_text_content e = Ok text ->
     _is_cancellation_message text = false ->
     _is_auto_compact_message text = false ->
     build_step rt st e
     = Ok (set_current st
             (fold_left apply_tool_result
                (tool_result_items rt (UserMessage.content message)) cur))) /\
  (forall rt es l i pre a mid a' post,
     build_interactions rt es = Ok l -> In i l ->
     Interaction.actions i = pre ++ a :: mid ++ a' :: post ->
     Action.action_type a = "tool_use" ->
     Action.tool_id a' = Action.tool_id a ->
     Action.tool_result a' = None).
Proof.
  split; [| split].
  - intros. apply apply_tool_result_spec.
  - intros rt st cur b message user_type text e Hc Hh Hty Htext Hcancel Hcompact.
    unfold build_step. subst e. rewrite Hh. cbn [bind].
    apply (user_followup_blockwise rt st cur _ (UserMessage.content message) text);
      auto.
  - intros rt es l i pre a mid a' post Hbuild Hin Hacts Htype Hid.
    pose proof (build_interactions_resolved_first _ _ _ Hbuild) as Hall.
    rewrite Forall_forall in Hall. specialize (Hall i Hin).
    destruct (Action.tool_result a') as [r |] eqn:Hres; [| reflexivity].
    exfalso.
    destruct (Hall (pre ++ a :: mid) a' post) as [k [Hk Hnone]].
    + rewrite Hacts, <- app_assoc. reflexivity.
    + rewrite Hres. discriminate.
    + unfold no_match in Hnone. rewrite forallb_app in Hnone.
      apply andb_prop in Hnone. destruct Hnone as [_ Hnone]. simpl in Hnone.
      apply andb_prop in Hnone. destruct Hnone as [Ha _].
      unfold is_tool_use_with_id in Ha, Hk.
      apply andb_prop in Hk. destruct Hk as [_ Hk].
      rewrite Htype, <- Hid, Hk in Ha. discriminate Ha.
Qed.

Lemma duplicate_ids_results :
  match build_interactions inert_runtime duplicate_ids with
  | Ok [i] => map Action.tool_result (Interaction.actions i) = [Some "done"; None]
  | _ => False
  end.
Proof. reflexivity. Qed.

Lemma C4_tool_result_goes_to_first_match_witness :
  exists i a a',
    build_interactions inert_runtime duplicate_ids = Ok [i] /\
    Interaction.actions i = [a; a'] /\
    Action.tool_result a = Some "done" /\
    Action.tool_result a' = None.
Proof.
  eexists; eexists; eexists.
  split; [reflexivity |]. split; [reflexivity |]. split; [reflexivity |].
  eapply (proj2 (proj2 C4_tool_result_goes_to_first_match)
            inert_runtime duplicate_ids _ _ [] _ [] _ []);
    [reflexivity | left; reflexivity | reflexivity | reflexivity | reflexivity].
Defined.

(* ================================================================== *)
(** * Conversation threads *)
(* ================================================================== *)

Lemma find_put_str {V} (m : PyMap.t V) k v k2 :
  keys_are_str m ->
  PyMap.find (PyMap.put m (PStr k) v) (PStr k2)
  = if String.eqb k k2 then Some v else PyMap.find m (PStr k2).
Proof.
  induction m as [| [k1 v1] m IH]; intros Hk; simpl.
  - reflexivity.
  - inversion Hk as [| x l Hk1 Hm]; subst. simpl in Hk1.
    destruct k1; try discriminate Hk1. rewrite !key_eq_str.
    destruct (String.eqb_spec s k) as [-> | Hne]; simpl; rewrite !key_eq_str.
    + destruct (String.eqb k k2); reflexivity.
    + destruct (String.eqb_spec s k2) as [-> | Hne2].
      * destruct (String.eqb_spec k k2); [congruence | reflexivity].
      * apply IH, Hm.
Qed.

Lemma put_keys_are_str {V} (m : PyMap.t V) k v :
  keys_are_str m -> keys_are_str (PyMap.put m (PStr k) v).
Proof.
  induction m as [| [k1 v1] m IH]; intros Hk; simpl.
  - constructor; [reflexivity | constructor].
  - inversion Hk as [| x l Hk1 Hm]; subst.
    destruct (Py.key_eq k1 (PStr k)); constructor; auto. apply IH, Hm.
Qed.

Lemma uuid_index_known es :
  ids_well_typed es = true ->
  exists m, uuid_index es = Ok m /\
            forall p, match PyMap.find m (PStr p) with
                      | Some _ => true
                      | None => false
                      end = negb (String.eqb p "") && known es p.
Proof.
  intros Hty. unfold uuid_index.
  assert (Hgen : forall es (m0 : PyMap.t Entry),
             ids_well_typed es = true -> keys_are_str m0 ->
             exists m,
               foldM (fun uuid_to_entry entry =>
                        if Py.truthy (uuid (base entry))
                        then PyMap.set uuid_to_entry (uuid (base entry)) entry
                        else Ok uuid_to_entry) es m0 = Ok m /\
               forall p, match PyMap.find m (PStr p) with
                         | Some _ => true
                         | None => false
                         end
                         = match PyMap.find m0 (PStr p) with
                           | Some _ => true
                           | None => false
                           end || (negb (String.eqb p "") && known es p)).
  { clear. induction es as [| e es IH]; intros m0 Hty Hk.
    - exists m0. split; [reflexivity |]. intros p. simpl.
      now rewrite andb_false_r, orb_false_r.
    - simpl in Hty. apply andb_prop in Hty. destruct Hty as [He Hes].
      apply andb_prop in He. destruct He as [Hu _].
      cbn [foldM known existsb]. unfold uuid_str at 1.
      destruct (uuid (base e)) as [| | | | u | |] eqn:Hue; try discriminate Hu.
      simpl Py.truthy. destruct (String.eqb_spec u "") as [-> | Hne]; simpl negb.
      + cbn [bind]. destruct (IH m0 Hes Hk) as [m [Hm Hfind]].
        exists m. split; [exact Hm |]. intros p. rewrite Hfind.
        destruct (String.eqb_spec "" p) as [<- | Hp]; simpl; [| reflexivity].
        reflexivity.
      + unfold PyMap.set. cbn [Py.check_hashable Py.hashable bind].
        destruct (IH (PyMap.put m0 (PStr u) e) Hes (put_keys_are_str _ _ _ Hk))
          as [m [Hm Hfind]].
        exists m. split; [exact Hm |]. intros p. rewrite Hfind.
        rewrite find_put_str by exact Hk.
        destruct (String.eqb_spec u p) as [<- | Hup]; simpl.
        * destruct (String.eqb_spec u ""); [contradiction |]. simpl.
          now rewrite orb_true_r.
        * reflexivity. }
  destruct (Hgen es [] Hty (Forall_nil _)) as [m [Hm Hfind]].
  exists m. split; [exact Hm |]. intros p. rewrite Hfind. reflexivity.
Qed.

Lemma has_parent_resolves es m e :
  (forall p, match PyMap.find m (PStr p) with
             | Some _ => true
             | None => false
             end = negb (String.eqb p "") && known es p) ->
  ids_well_typed [e] = true ->
  has_parent m e = Ok (resolves es e).
Proof.
  intros Hfind Hty. simpl in Hty. rewrite andb_true_r in Hty.
  apply andb_prop in Hty. destruct Hty as [_ Hp].
  unfold has_parent, resolves, parent_str.
  destruct (parent_uuid e) as [| | | | p | |]; try discriminate Hp.
  - reflexivity.
  - simpl Py.truthy. destruct (String.eqb p "") eqn:Hempty; [reflexivity |].
    unfold PyMap.mem. cbn [Py.check_hashable Py.hashable bind negb].
    rewrite Hfind, Hempty. reflexivity.
Qed.

Lemma ids_well_typed_cons e es :
  ids_well_typed (e :: es) = true ->
  ids_well_typed [e] = true /\ ids_well_typed es = true.
Proof.
  unfold ids_well_typed. simpl. intros H. apply andb_prop in H.
  destruct H as [He Hes]. rewrite He. auto.
Qed.

Lemma roots_of_roots es m :
  (forall p, match PyMap.find m (PStr p) with
             | Some _ => true
             | None => false
             end = negb (String.eqb p "") && known es p) ->
  forall es', ids_well_typed es' = true ->
  roots_of m es' = Ok (filter (fun e => negb (resolves es e)) es').
Proof.
  intros Hfind. unfold roots_of.
  induction es' as [| e es' IH]; intros Hty; [reflexivity |].
  apply ids_well_typed_cons in Hty. destruct Hty as [He Hes].
  cbn [filterM filter]. rewrite (has_parent_resolves es m e Hfind He).
  cbn [bind]. rewrite IH by exact Hes. cbn [bind].
  destruct (resolves es e); reflexivity.
Qed.

Lemma children_of_kids es m :
  (forall p, match PyMap.find m (PStr p) with
             | Some _ => true
             | None => false
             end = negb (String.eqb p "") && known es p) ->
  forall es' (children0 : PyMap.t (list Entry)),
    ids_well_typed es' = true -> keys_are_str children0 ->
    exists children,
      foldM (fun children entry =>
               p <- has_parent m entry ;;
               if p then
                 let siblings :=
                   match PyMap.find children (parent_uuid entry) with
                   | Some l => l
                   | None => []
                   end in
                 Ok (PyMap.put children (parent_uuid entry) (siblings ++ [entry]))
               else Ok children) es' children0 = Ok children /\
      keys_are_str children /\
      forall u, lookup_list children (PStr u)
                = lookup_list children0 (PStr u) ++ filter (child_of es u) es'.
Proof.
  intros Hfind. induction es' as [| e es' IH]; intros children0 Hty Hk.
  - exists children0. split; [reflexivity | split; [exact Hk |]].
    intros u. now rewrite app_nil_r.
  - apply ids_well_typed_cons in Hty. destruct Hty as [He Hes].
    cbn [foldM filter]. rewrite (has_parent_resolves es m e Hfind He). cbn [bind].
    unfold child_of at 1.
    destruct (resolves es e) eqn:Hres.
    + assert (Hp : parent_uuid e = PStr (parent_str e)).
      { unfold resolves, parent_str in *.
        destruct (parent_uuid e); try discriminate Hres; reflexivity. }
      rewrite Hp.
      destruct (IH (PyMap.put children0 (PStr (parent_str e))
                      (match PyMap.find children0 (PStr (parent_str e)) with
                       | Some l => l
                       | None => []
                       end ++ [e])) Hes (put_keys_are_str _ _ _ Hk))
        as [children [Hfold [Hk' Hlook]]].
      exists children. split; [exact Hfold | split; [exact Hk' |]].
      intros u. rewrite Hlook. unfold lookup_list.
      rewrite find_put_str by exact Hk. simpl andb.
      destruct (String.eqb (parent_str e) u) eqn:Hu.
      * apply String.eqb_eq in Hu. subst u. now rewrite <- app_assoc.
      * reflexivity.
    + simpl andb. apply (IH children0 Hes Hk).
Qed.

(** On a session whose ids are strings, the maps that [get_conversations]
    builds are [roots] and [kids]. *)
Lemma get_conversations_typed fuel s :
  ids_well_typed (entries s) = true ->
  exists children,
    get_conversations fuel s = threads_from fuel children (roots (entries s)) /\
    forall u, lookup_list children (PStr u) = kids (entries s) u.
Proof.
  intros Hty. unfold get_conversations.
  destruct (uuid_index_known _ Hty) as [m [Hm Hfind]]. rewrite Hm.
  rewrite (roots_of_roots _ m Hfind _ Hty).
  destruct (children_of_kids _ m Hfind (entries s) [] Hty (Forall_nil _))
    as [children [Hch [_ Hlook]]].
  assert (Hch' : children_of m (entries s) = Ok children) by exact Hch.
  rewrite Hch'.
  exists children. split; [reflexivity |]. intros u. apply Hlook.
Qed.

Lemma walk_app es a b ta tb :
  walk es a ta -> walk es b tb -> walk es (a ++ b) (ta ++ tb).
Proof.
  intros Ha Hb. induction Ha as [| e rest t1 t2 H1 IH1 H2 IH2]; [exact Hb |].
  simpl. rewrite <- app_assoc. constructor; assumption.
Qed.

Lemma walk_app_inv es a b t :
  walk es (a ++ b) t -> exists ta tb, t = ta ++ tb /\ walk es a ta /\ walk es b tb.
Proof.
  revert t; induction a as [| e a IH]; intros t H.
  - exists [], t. repeat split; [constructor | exact H].
  - simpl in H. inversion H as [| e' rest t1 t2 H1 H2]; subst.
    destruct (IH _ H2) as [ta [tb [-> [Ha Hb]]]].
    exists (e :: t1 ++ ta), tb. rewrite app_assoc. repeat split; [| exact Hb].
    constructor; assumption.
Qed.

Lemma walk_length es l t : walk es l t -> List.length l <= List.length t.
Proof.
  induction 1 as [| e rest t1 t2 H1 IH1 H2 IH2]; simpl; [lia |].
  rewrite length_app. lia.
Qed.

Lemma pop_snoc {A} (stack : list A) e : pop (stack ++ [e]) = Some (stack, e).
Proof. unfold pop. rewrite rev_app_distr. simpl. now rewrite rev_involutive. Qed.

Lemma uuid_of_typed es e :
  ids_well_typed es = true -> In e es -> uuid (base e) = PStr (uuid_str e).
Proof.
  unfold ids_well_typed. rewrite forallb_forall. intros H Hin.
  specialize (H e Hin). apply andb_prop in H. destruct H as [H _].
  unfold uuid_str. destruct (uuid (base e)); try discriminate; reflexivity.
Qed.

Lemma kids_incl es u : incl (kids es u) es.
Proof. intros x Hx. apply filter_In in Hx. tauto. Qed.

Section Traversal.

Variable es : list Entry.
Variable children : PyMap.t (list Entry).
Hypothesis es_typed : ids_well_typed es = true.
Hypothesis children_kids :
  forall u, lookup_list children (PStr u) = kids es u.

(** One iteration of the loop: the top of the stack (the head of [st],
    the last element of the Python list) moves to the thread and its
    children take its place, the first child on top. *)
Lemma dfs_loop_step fuel e st thread :
  In e es ->
  dfs_loop (S fuel) children (rev (e :: st)) thread
  = dfs_loop fuel children (rev (kids es (uuid_str e) ++ st)) (thread ++ [e]).
Proof.
  intros Hin. cbn [rev dfs_loop]. rewrite pop_snoc.
  rewrite (uuid_of_typed es e es_typed Hin).
  unfold PyMap.mem. cbn [Py.check_hashable Py.hashable bind].
  rewrite rev_app_distr, <- children_kids. unfold lookup_list.
  destruct (PyMap.find children (PStr (uuid_str e))); [reflexivity |].
  simpl. now rewrite app_nil_r.
Qed.

Lemma dfs_loop_empty fuel thread :
  dfs_loop fuel children [] thread = Some (Ok thread).
Proof. destruct fuel; reflexivity. Qed.


(** With one unit of fuel per entry of the walk, the loop returns it. *)
Lemma dfs_loop_complete fuel :
  forall st thread t',
    incl st es -> walk es st t' -> List.length t' <= fuel ->
    dfs_loop fuel children (rev st) thread = Some (Ok (thread ++ t')).
Proof.
  induction fuel as [| fuel IH]; intros st thread t' Hincl Hw Hlen.
  - destruct t'; [| simpl in Hlen; lia].
    inversion Hw; subst. simpl. now rewrite app_nil_r.
  - inversion Hw as [| e rest t1 t2 H1 H2]; subst.
    + rewrite dfs_loop_empty. now rewrite app_nil_r.
    + rewrite dfs_loop_step by (apply Hincl; now left).
      rewrite (IH _ _ (t1 ++ t2)).
      * now rewrite <- app_assoc.
      * apply incl_app; [apply kids_incl |].
        intros x Hx. apply Hincl. now right.
      * apply walk_app; assumption.
      * simpl in Hlen. lia.
Qed.


Lemma threads_from_complete fuel :
  forall rs threads,
    incl rs es -> threads_are_walks es rs threads ->
    Forall (fun t => List.length t <= fuel) threads ->
    threads_from fuel children rs = Some (Ok threads).
Proof.
  unfold threads_are_walks.
  induction rs as [| r rs IH]; intros threads Hincl Hw Hlen.
  - simpl in Hw. inversion Hw; subst. reflexivity.
  - assert (Hrs : incl rs es) by (intros x Hx; apply Hincl; now right).
    cbn [threads_from]. cbn [filter] in Hw.
    destruct (is_user_or_assistant r); [| apply IH; assumption].
    inversion Hw as [| r' t rs' ts Hr Hrest]; subst.
    inversion Hlen as [| t' ts' Ht Hts]; subst.
    change [r] with (rev [r]).
    rewrite (dfs_loop_complete fuel [r] [] t);
      [| intros x [<- | []]; apply Hincl; now left | exact Hr | exact Ht].
    rewrite (IH ts Hrs Hrest Hts). simpl.
    inversion Hr; subst. reflexivity.
Qed.

End Traversal.

Lemma flat_map_app_perm {A B} (f g : A -> list B) xs :
  Permutation (flat_map (fun x => f x ++ g x) xs) (flat_map f xs ++ flat_map g xs).
Proof.
  induction xs as [| x xs IH]; simpl; [constructor |].
  rewrite <- !app_assoc. apply Permutation_app_head.
  rewrite IH. apply Permutation_app_swap_app.
Qed.

Lemma flat_map_empty {A B} (xs : list A) :
  flat_map (fun _ => @nil B) xs = [].
Proof. induction xs; simpl; auto. Qed.

Lemma flat_map_filter {A} (c : A -> bool) xs :
  flat_map (fun x => if c x then [x] else []) xs = filter c xs.
Proof.
  induction xs as [| x xs IH]; simpl; [reflexivity |].
  rewrite IH. destruct (c x); reflexivity.
Qed.

Lemma flat_map_swap {A B} (R : A -> B -> bool) (l : list A) (xs : list B) :
  Permutation (flat_map (fun e => filter (R e) xs) l)
              (flat_map (fun x => flat_map (fun e => if R e x then [x] else []) l) xs).
Proof.
  induction l as [| e l IH]; simpl.
  - now rewrite flat_map_empty.
  - rewrite flat_map_app_perm, flat_map_filter.
    apply Permutation_app_head, IH.
Qed.

Lemma walk_nil_inv es t : walk es [] t -> t = [].
Proof. intros H. now inversion H. Qed.

(** The walk of a forest is the forest followed by the walk of the children
    of its entries, up to order. *)
Lemma walk_peel es l t :
  walk es l t ->
  exists t', walk es (next es l) t' /\ Permutation t (l ++ t').
Proof.
  induction 1 as [| e rest t1 t2 H1 _ H2 [t2' [Hw2 Hp2]]].
  - exists []. split; constructor.
  - exists (t1 ++ t2'). split.
    + simpl. apply walk_app; assumption.
    + simpl. constructor. rewrite Hp2. apply Permutation_app_swap_app.
Qed.

Lemma walk_levels es k :
  forall l t, walk es l t ->
  exists t', walk es (gen es k l) t' /\ Permutation t (levels es k l ++ t').
Proof.
  induction k as [| k IH]; intros l t Hw.
  - exists t. split; [exact Hw | reflexivity].
  - destruct (walk_peel _ _ _ Hw) as [t1 [Hw1 Hp1]].
    destruct (IH _ _ Hw1) as [t' [Hw' Hp']].
    exists t'. split; [exact Hw' |].
    simpl. rewrite Hp1, Hp', app_assoc. reflexivity.
Qed.

Lemma walk_unpeel es l :
  forall t', walk es (next es l) t' -> exists t, walk es l t.
Proof.
  induction l as [| e l IH]; intros t' Hw.
  - exists []. constructor.
  - simpl in Hw. apply walk_app_inv in Hw.
    destruct Hw as [ta [tb [_ [Ha Hb]]]].
    destruct (IH _ Hb) as [t Ht].
    exists (e :: ta ++ t). constructor; assumption.
Qed.

(** When some generation of [l] is empty, the walk of [l] exists. *)
Lemma walk_exists es k :
  forall l, gen es k l = [] -> exists t, walk es l t.
Proof.
  induction k as [| k IH]; intros l H.
  - simpl in H. subst. exists []. constructor.
  - simpl in H. destruct (IH _ H) as [t' Hw]. eapply walk_unpeel, Hw.
Qed.

Lemma walk_concat es rs ts :
  Forall2 (fun r t => walk es [r] t) rs ts -> walk es rs (List.concat ts).
Proof.
  induction 1 as [| r t rs ts Hr _ IH]; simpl; [constructor |].
  inversion Hr as [| e rest t1 t2 H1 H2]; subst.
  apply walk_nil_inv in H2. subst t2. rewrite app_nil_r. simpl.
  constructor; assumption.
Qed.

Lemma walk_split es rs :
  forall t, walk es rs t ->
  exists ts, Forall2 (fun r t => walk es [r] t) rs ts /\ List.concat ts = t.
Proof.
  induction rs as [| r rs IH]; intros t Hw.
  - apply walk_nil_inv in Hw. subst. exists []. split; constructor.
  - inversion Hw as [| e rest t1 t2 H1 H2]; subst.
    destruct (IH _ H2) as [ts [Hts Hc]].
    exists ((r :: t1) :: ts). split.
    + constructor; [| exact Hts].
      rewrite <- (app_nil_r t1). constructor; [exact H1 | constructor].
    + simpl. now rewrite Hc.
Qed.

Lemma next_perm es l l' : Permutation l l' -> Permutation (next es l) (next es l').
Proof. intros H. unfold next. now apply Permutation_flat_map. Qed.

Lemma gen_perm es k : forall l l',
  Permutation l l' -> Permutation (gen es k l) (gen es k l').
Proof.
  induction k as [| k IH]; intros l l' H; simpl; [exact H |].
  apply IH, next_perm, H.
Qed.

Lemma levels_perm es k : forall l l',
  Permutation l l' -> Permutation (levels es k l) (levels es k l').
Proof.
  induction k as [| k IH]; intros l l' H; simpl; [constructor |].
  apply Permutation_app; [exact H | apply IH, next_perm, H].
Qed.

Lemma ancestor_add es j k x :
  ancestor es (j + k) x
  = match ancestor es j x with
    | Some y => ancestor es k y
    | None => None
    end.
Proof.
  revert x; induction j as [| j IH]; intros x; simpl; [reflexivity |].
  destruct (resolves es x); [| reflexivity].
  destruct (parent_entry es x); [apply IH | reflexivity].
Qed.

(** An entry is at one level at most. *)
Lemma at_level_unique es x i i' :
  at_level es i x = true -> at_level es i' x = true -> i = i'.
Proof.
  assert (Hlt : forall a b, a < b -> at_level es a x = true ->
                            at_level es b x = false).
  { intros a b Hab Ha. unfold at_level in *.
    replace b with (a + S (b - a - 1)) by lia. rewrite ancestor_add.
    destruct (ancestor es a x) as [r |]; [| discriminate].
    apply andb_prop in Ha. destruct Ha as [Hr _].
    simpl. destruct (resolves es r); [discriminate | reflexivity]. }
  intros Hi Hi'. destruct (Nat.lt_trichotomy i i') as [H | [H | H]]; auto.
  - rewrite (Hlt _ _ H Hi) in Hi'. discriminate.
  - rewrite (Hlt _ _ H Hi') in Hi. discriminate.
Qed.

(** With distinct uuids, a uuid that is known names exactly one entry. *)
Lemma unique_entry es p :
  unique_uuids es -> p <> "" -> known es p = true ->
  exists e0, filter (fun e => String.eqb (uuid_str e) p) es = [e0] /\
             find (fun e => String.eqb (uuid_str e) p) es = Some e0.
Proof.
  unfold unique_uuids, known.
  induction es as [| e es IH]; simpl; intros Hu Hp Hk; [discriminate |].
  destruct (String.eqb_spec (uuid_str e) p) as [Heq | Hne].
  - exists e. split; [| reflexivity]. f_equal.
    apply filter_none. intros x Hx.
    destruct (String.eqb_spec (uuid_str x) p) as [Hx' | ]; [| reflexivity].
    exfalso. rewrite Heq in Hu.
    destruct (String.eqb_spec p ""); [contradiction |]. simpl in Hu.
    inversion Hu as [| y l Hnotin _]; subst. apply Hnotin.
    apply filter_In. split.
    + apply in_map_iff. exists x. auto.
    + apply negb_true_iff, String.eqb_neq. congruence.
  - simpl in Hk. apply IH; auto.
    destruct (negb (String.eqb (uuid_str e) "")); [now inversion Hu | exact Hu].
Qed.

(** The children of the entries of one level are the next level. *)
Lemma level_next es j :
  unique_uuids es -> Permutation (next es (level es j)) (level es (S j)).
Proof.
  intros Hu. unfold next, level, kids.
  rewrite (flat_map_swap (fun e => child_of es (uuid_str e))).
  rewrite <- (flat_map_filter (at_level es (S j)) es).
  erewrite flat_map_ext; [reflexivity |].
  intros x. unfold child_of. unfold at_level at 2. cbn [ancestor].
  destruct (resolves es x) eqn:Hres; cbn [andb]; [| apply flat_map_empty].
  unfold resolves in Hres. apply andb_prop in Hres. destruct Hres as [Hp Hk].
  destruct (String.eqb_spec (parent_str x) "") as [| Hne]; [discriminate |].
  destruct (unique_entry es (parent_str x) Hu Hne Hk) as [e0 [Hf Hfind]].
  unfold parent_entry. rewrite Hfind. fold (at_level es j e0).
  transitivity
    (map (fun _ => x)
       (filter (fun e => String.eqb (uuid_str e) (parent_str x))
          (filter (at_level es j) es))).
  - generalize (filter (at_level es j) es).
    intros l. induction l as [| e l IHl]; simpl; [reflexivity |].
    rewrite (String.eqb_sym (parent_str x) (uuid_str e)).
    destruct (String.eqb (uuid_str e) (parent_str x)); simpl; now rewrite IHl.
  - rewrite filter_filter.
    rewrite (filter_ext _ (fun e => String.eqb (uuid_str e) (parent_str x)
                                    && at_level es j e))
      by (intros a; apply andb_comm).
    rewrite <- filter_filter, Hf. simpl.
    destruct (at_level es j e0); reflexivity.
Qed.

Lemma gen_level es j k :
  unique_uuids es -> Permutation (gen es k (level es j)) (level es (j + k)).
Proof.
  intros Hu. revert j; induction k as [| k IH]; intros j; simpl.
  - now rewrite Nat.add_0_r.
  - rewrite (gen_perm es k _ _ (level_next es j Hu)), IH.
    replace (S j + k) with (j + S k) by lia. reflexivity.
Qed.

Lemma flat_map_seq_shift {B} (f : nat -> list B) k :
  forall a, flat_map f (seq (S a) k) = flat_map (fun i => f (S i)) (seq a k).
Proof.
  induction k as [| k IH]; intros a; simpl; [reflexivity | now rewrite IH].
Qed.

Lemma levels_level es j k :
  unique_uuids es ->
  Permutation (levels es k (level es j))
              (flat_map (fun i => level es (j + i)) (seq 0 k)).
Proof.
  intros Hu. revert j; induction k as [| k IH]; intros j; [constructor |].
  cbn [levels]. rewrite (levels_perm es k _ _ (level_next es j Hu)), IH.
  cbn [seq flat_map]. rewrite Nat.add_0_r. apply Permutation_app_head.
  rewrite flat_map_seq_shift.
  erewrite flat_map_ext; [reflexivity |].
  intros i. simpl. f_equal. lia.
Qed.

(** Buckets that no element shares add up to the elements that fall in some
    bucket. *)
Lemma buckets_partition {A} (c : nat -> A -> bool) (xs : list A) k :
  (forall x i i', c i x = true -> c i' x = true -> i = i') ->
  Permutation (flat_map (fun i => filter (c i) xs) (seq 0 k))
              (filter (fun x => existsb (fun i => c i x) (seq 0 k)) xs).
Proof.
  intros Huniq. induction xs as [| x xs IH]; simpl.
  - now rewrite flat_map_empty.
  - rewrite (flat_map_ext _ (fun i => (if c i x then [x] else []) ++ filter (c i) xs))
      by (intros i; destruct (c i x); reflexivity).
    rewrite flat_map_app_perm, IH.
    assert (Hone : forall l, NoDup l ->
               flat_map (fun i => if c i x then [x] else []) l
               = if existsb (fun i => c i x) l then [x] else []).
    { induction 1 as [| i l Hnotin Hnd IHl]; [reflexivity |].
      simpl. destruct (c i x) eqn:Hi; simpl; [| exact IHl].
      rewrite IHl.
      destruct (existsb (fun i0 => c i0 x) l) eqn:Hex; [| reflexivity].
      exfalso. apply existsb_exists in Hex. destruct Hex as [i' [Hin Hi']].
      assert (i = i') by (eapply Huniq; eassumption).
      subst. contradiction. }
    rewrite (Hone _ (seq_NoDup k 0)). destruct (existsb _ _); reflexivity.
Qed.

Lemma existsb_seq_S (f : nat -> bool) k :
  existsb f (seq 0 (S k)) = f 0 || existsb (fun i => f (S i)) (seq 0 k).
Proof.
  cbn [seq existsb]. f_equal. rewrite <- seq_shift.
  generalize (seq 0 k). intros l.
  induction l as [| i l IHl]; simpl; [reflexivity | now rewrite IHl].
Qed.

Lemma existsb_pointwise {A} (f g : A -> bool) l :
  (forall x, f x = g x) -> existsb f l = existsb g l.
Proof.
  intros H. induction l as [| x l IH]; simpl; [reflexivity | now rewrite H, IH].
Qed.

Lemma existsb_false {A} (l : list A) : existsb (fun _ => false) l = false.
Proof. induction l; simpl; auto. Qed.

Lemma root_of_at_level es fuel :
  forall x,
    match root_of es fuel x with
    | Some r => is_user_or_assistant r
    | None => false
    end = existsb (fun i => at_level es i x) (seq 0 (S fuel)).
Proof.
  assert (Hstep : forall x i,
             at_level es (S i) x
             = if resolves es x then
                 match parent_entry es x with
                 | Some p => at_level es i p
                 | None => false
                 end
               else false).
  { intros x i. unfold at_level. cbn [ancestor].
    destruct (resolves es x); [| reflexivity].
    destruct (parent_entry es x); reflexivity. }
  assert (Hzero : forall x,
             at_level es 0 x = negb (resolves es x) && is_user_or_assistant x)
    by reflexivity.
  induction fuel as [| fuel IH]; intros x.
  - rewrite existsb_seq_S, Hzero. cbn [seq existsb root_of].
    destruct (resolves es x); simpl; [reflexivity | now rewrite orb_false_r].
  - rewrite existsb_seq_S, Hzero. cbn [root_of].
    rewrite (existsb_pointwise _ _ (seq 0 (S fuel)) (Hstep x)).
    destruct (resolves es x); cbn [negb andb orb].
    + destruct (parent_entry es x) as [p |]; [apply IH |].
      now rewrite existsb_false.
    + rewrite existsb_false. now rewrite orb_false_r.
Qed.

Lemma roots_level0 es :
  filter is_user_or_assistant (roots es) = level es 0.
Proof. unfold roots, level. rewrite filter_filter. reflexivity. Qed.





Lemma subseq_filter {A} (f : A -> bool) (l : list A) : subseq (filter f l) l.
Proof.
  induction l as [| x l IH]; simpl; [constructor |].
  destruct (f x); constructor; exact IH.
Qed.


(** ** Sessions in which uuids repeat *)

Lemma at_depth_threaded es j x :
  at_depth es j x = true -> threaded es x = true.
Proof.
  unfold threaded. destruct j; cbn [at_depth].
  - intros H. apply andb_prop in H. destruct H as [_ ->]. apply orb_true_r.
  - destruct (resolves es x); [reflexivity | discriminate].
Qed.

(** An entry is at one depth at most. *)
Lemma at_depth_unique es i :
  forall i' x, at_depth es i x = true -> at_depth es i' x = true -> i = i'.
Proof.
  induction i as [| i IH]; intros [| i'] x Hi Hi'; cbn [at_depth] in *;
    try reflexivity.
  - destruct (resolves es x); discriminate.
  - destruct (resolves es x); discriminate.
  - destruct (resolves es x); [| discriminate].
    destruct (thread_parent es x) as [p |]; [| discriminate].
    f_equal. eapply IH; eassumption.
Qed.

Lemma find_hd_filter {A} (P : A -> bool) l : find P l = hd_error (filter P l).
Proof.
  induction l as [| x l IH]; simpl; [reflexivity |].
  destruct (P x); [reflexivity | exact IH].
Qed.

(** Among entries with distinct uuids, at most one has a given uuid. *)
Lemma filter_uuid_nodup (l : list Entry) p :
  NoDup (map uuid_str l) ->
  filter (fun y => String.eqb (uuid_str y) p) l = [] \/
  exists a, filter (fun y => String.eqb (uuid_str y) p) l = [a].
Proof.
  induction l as [| a l IH]; simpl; intros Hnd; [now left |].
  inversion Hnd as [| u us Hnotin Hnd']; subst.
  destruct (String.eqb_spec (uuid_str a) p) as [Ha | Ha]; [| apply IH, Hnd'].
  right. exists a. f_equal. apply filter_none. intros x Hx.
  destruct (String.eqb_spec (uuid_str x) p) as [Hxp |]; [| reflexivity].
  exfalso. apply Hnotin. rewrite Ha, <- Hxp. apply in_map, Hx.
Qed.

(** The entries of the threads with the uuid that an entry names as its
    parent are among those that [parents_distinct] speaks of. *)
Lemma named_by_child es x y :
  In x es -> resolves es x = true ->
  String.eqb (uuid_str y) (parent_str x) = true ->
  named_as_parent es y = true.
Proof.
  intros Hx Hres Hy. unfold named_as_parent. apply existsb_exists.
  exists x. split; [exact Hx |]. unfold child_of. rewrite Hres.
  rewrite String.eqb_sym. exact Hy.
Qed.

Lemma thread_parent_filter es x :
  In x es -> resolves es x = true ->
  thread_parent es x
  = hd_error (filter (fun y => String.eqb (uuid_str y) (parent_str x))
                (filter (fun e => threaded es e && named_as_parent es e) es)).
Proof.
  intros Hx Hres. unfold thread_parent. rewrite find_hd_filter, filter_filter.
  f_equal. apply filter_ext_in. intros y _.
  destruct (String.eqb (uuid_str y) (parent_str x)) eqn:Hy.
  - rewrite (named_by_child es x y Hx Hres Hy). now rewrite !andb_true_r.
  - now rewrite !andb_false_r.
Qed.

Lemma flat_map_pointwise {A B} (f g : A -> list B) l :
  (forall a, In a l -> f a = g a) -> flat_map f l = flat_map g l.
Proof.
  induction l as [| x l IH]; intros H; simpl; [reflexivity |].
  rewrite (H x) by now left. f_equal. apply IH. intros a Ha. apply H. now right.
Qed.

(** The children of the entries of one depth are the entries of the next. *)
Lemma depth_next es j :
  parents_distinct es ->
  Permutation (next es (filter (at_depth es j) es))
              (filter (at_depth es (S j)) es).
Proof.
  intros Hd. unfold next, kids.
  rewrite (flat_map_swap (fun e => child_of es (uuid_str e))).
  rewrite <- (flat_map_filter (at_depth es (S j)) es).
  erewrite flat_map_pointwise; [reflexivity |].
  intros x Hx. unfold child_of. cbn [at_depth].
  destruct (resolves es x) eqn:Hres; cbn [andb]; [| apply flat_map_empty].
  transitivity
    (map (fun _ => x)
       (filter (fun e => String.eqb (uuid_str e) (parent_str x))
          (filter (at_depth es j) es))).
  - generalize (filter (at_depth es j) es).
    intros l. induction l as [| e l IHl]; simpl; [reflexivity |].
    rewrite (String.eqb_sym (parent_str x) (uuid_str e)).
    destruct (String.eqb (uuid_str e) (parent_str x)); simpl; now rewrite IHl.
  - assert (Heq : filter (fun e => String.eqb (uuid_str e) (parent_str x))
                    (filter (at_depth es j) es)
                  = filter (at_depth es j)
                      (filter (fun y => String.eqb (uuid_str y) (parent_str x))
                         (filter (fun e => threaded es e && named_as_parent es e)
                            es))).
    { rewrite !filter_filter. apply filter_ext_in. intros y _.
      destruct (String.eqb (uuid_str y) (parent_str x)) eqn:Hy;
        [| now rewrite !andb_false_r].
      rewrite (named_by_child es x y Hx Hres Hy), !andb_true_r.
      destruct (at_depth es j y) eqn:Hj; [| now rewrite andb_false_r].
      now rewrite (at_depth_threaded es j y Hj). }
    rewrite Heq, (thread_parent_filter es x Hx Hres).
    destruct (filter_uuid_nodup _ (parent_str x) Hd) as [-> | [a ->]];
      [reflexivity |].
    cbn [filter hd_error]. destruct (at_depth es j a); reflexivity.
Qed.

Lemma gen_depth es j k :
  parents_distinct es ->
  Permutation (gen es k (filter (at_depth es j) es))
              (filter (at_depth es (j + k)) es).
Proof.
  intros Hd. revert j; induction k as [| k IH]; intros j; simpl.
  - now rewrite Nat.add_0_r.
  - rewrite (gen_perm es k _ _ (depth_next es j Hd)), IH.
    replace (S j + k) with (j + S k) by lia. reflexivity.
Qed.

Lemma levels_depth es j k :
  parents_distinct es ->
  Permutation (levels es k (filter (at_depth es j) es))
              (flat_map (fun i => filter (at_depth es (j + i)) es) (seq 0 k)).
Proof.
  intros Hd. revert j; induction k as [| k IH]; intros j; [constructor |].
  cbn [levels]. rewrite (levels_perm es k _ _ (depth_next es j Hd)), IH.
  cbn [seq flat_map]. rewrite Nat.add_0_r. apply Permutation_app_head.
  rewrite flat_map_seq_shift.
  erewrite flat_map_ext; [reflexivity |].
  intros i. cbv beta. replace (S j + i) with (j + S i) by lia. reflexivity.
Qed.

(** An entry [j] links below a root has [j] ancestors, all different. *)
Lemma thread_lineage es j :
  forall x,
    at_depth es j x = true ->
    exists l,
      List.length l = j /\ NoDup l /\ incl l es /\
      Forall (fun y => exists k, k < j /\ at_depth es k y = true) l.
Proof.
  induction j as [| j IH]; intros x Hx.
  - exists []. repeat split; try constructor. intros y [].
  - cbn [at_depth] in Hx.
    destruct (resolves es x); [| discriminate].
    destruct (thread_parent es x) as [p |] eqn:Hp; [| discriminate].
    pose proof (find_some _ _ Hp) as [Hin _].
    destruct (IH p Hx) as [l [Hlen [Hnd [Hincl Hall]]]].
    exists (p :: l). split; [simpl; now rewrite Hlen | split; [| split]].
    + constructor; [| exact Hnd]. intros Hmem.
      rewrite Forall_forall in Hall. destruct (Hall p Hmem) as [k [Hk Hlev]].
      pose proof (at_depth_unique es k j p Hlev Hx). lia.
    + intros y [<- | Hy]; [exact Hin | now apply Hincl].
    + constructor; [exists j; split; [lia | exact Hx] |].
      eapply Forall_impl; [| exact Hall].
      intros y [k [Hk Hlev]]. exists k. split; [lia | exact Hlev].
Qed.

(** No entry is more links below a root than there are entries, whatever the
    parent links are: the loop meets no cycle. *)
Lemma at_depth_bounded es j x :
  at_depth es j x = true -> j <= List.length es.
Proof.
  intros H. destruct (thread_lineage es j x H) as [l [Hlen [Hnd [Hincl _]]]].
  rewrite <- Hlen. apply NoDup_incl_length; assumption.
Qed.

Lemma gen_depth_exhausted es :
  parents_distinct es ->
  gen es (S (List.length es)) (filter (at_depth es 0) es) = [].
Proof.
  intros Hd. apply Permutation_nil. symmetry.
  rewrite (gen_depth es 0 _ Hd). cbn [Nat.add].
  rewrite filter_none; [reflexivity |].
  intros x _. destruct (at_depth es (S (List.length es)) x) eqn:H; [| reflexivity].
  apply at_depth_bounded in H. lia.
Qed.

Lemma thread_root_at_depth es fuel :
  forall x,
    match thread_root es fuel x with
    | Some r => is_user_or_assistant r
    | None => false
    end = existsb (fun i => at_depth es i x) (seq 0 (S fuel)).
Proof.
  induction fuel as [| fuel IH]; intros x.
  - rewrite existsb_seq_S. cbn [seq existsb thread_root at_depth].
    destruct (resolves es x); simpl; [reflexivity | now rewrite orb_false_r].
  - rewrite existsb_seq_S. cbn [thread_root].
    change (at_depth es 0 x) with (negb (resolves es x) && is_user_or_assistant x).
    rewrite (existsb_pointwise (fun i => at_depth es (S i) x)
               (fun i => if resolves es x then
                           match thread_parent es x with
                           | Some p => at_depth es i p
                           | None => false
                           end
                         else false) (seq 0 (S fuel)) (fun i => eq_refl)).
    destruct (resolves es x); cbn [negb andb orb].
    + destruct (thread_parent es x) as [p |]; [apply IH |].
      now rewrite existsb_false.
    + rewrite existsb_false. now rewrite orb_false_r.
Qed.

Lemma roots_depth0 es :
  filter is_user_or_assistant (roots es) = filter (at_depth es 0) es.
Proof. unfold roots. rewrite filter_filter. reflexivity. Qed.

(** The walk of the user and assistant roots holds, once each, the entries
    whose parent links lead to such a root. *)
Lemma conversation_walk_covers es t :
  parents_distinct es -> walk es (filter (at_depth es 0) es) t ->
  Permutation t (filter (in_conversation es) es).
Proof.
  intros Hd Hw.
  destruct (walk_levels es (S (List.length es)) _ _ Hw) as [t' [Hw' Hp]].
  rewrite gen_depth_exhausted in Hw' by assumption.
  apply walk_nil_inv in Hw'. subst t'. rewrite app_nil_r in Hp.
  rewrite Hp, (levels_depth es 0 _ Hd).
  rewrite (buckets_partition (at_depth es) es (S (List.length es)))
    by (intros x i i'; apply at_depth_unique).
  rewrite (filter_ext _ (in_conversation es)); [reflexivity |].
  intros x. unfold in_conversation. now rewrite thread_root_at_depth.
Qed.


(** With one iteration per entry, [get_conversations] returns the walks of
    the user and assistant roots. *)
Lemma get_conversations_returns fuel s :
  ids_well_typed (entries s) = true ->
  parents_distinct (entries s) ->
  List.length (entries s) <= fuel ->
  exists threads,
    get_conversations fuel s = Some (Ok threads) /\
    Forall2 (fun r t => walk (entries s) [r] t)
            (filter is_user_or_assistant (roots (entries s))) threads /\
    Permutation (List.concat threads)
                (filter (in_conversation (entries s)) (entries s)).
Proof.
  intros Hty Hd Hfuel.
  destruct (walk_exists (entries s) (S (List.length (entries s)))
              (filter (at_depth (entries s) 0) (entries s))
              (gen_depth_exhausted _ Hd)) as [t Hw].
  pose proof (conversation_walk_covers _ _ Hd Hw) as Hcover.
  rewrite <- roots_depth0 in Hw.
  destruct (walk_split _ _ _ Hw) as [threads [Hthreads Hconcat]].
  exists threads.
  destruct (get_conversations_typed fuel s Hty) as [children [Hget Hkids]].
  split; [| split; [exact Hthreads | now rewrite Hconcat]].
  rewrite Hget.
  apply (threads_from_complete (entries s) children Hty Hkids fuel).
  - intros x Hx. apply filter_In in Hx. tauto.
  - exact Hthreads.
  - assert (Hlen : List.length t <= fuel).
    { rewrite (Permutation_length Hcover).
      etransitivity; [apply filter_length_le | exact Hfuel]. }
    rewrite <- Hconcat in Hlen. clear - Hlen.
    induction threads as [| th threads IH]; [constructor |].
    simpl in Hlen. rewrite length_app in Hlen.
    constructor; [lia | apply IH; lia].
Qed.

Lemma thread_ancestor_stays_none es j :
  forall x, thread_ancestor es j x = None -> thread_ancestor es (S j) x = None.
Proof.
  induction j as [| j IH]; intros x H; [discriminate H |].
  cbn [thread_ancestor] in H.
  change (thread_ancestor es (S (S j)) x)
    with (if resolves es x then
            match thread_parent es x with
            | Some p => thread_ancestor es (S j) p
            | None => None
            end
          else None).
  destruct (resolves es x); [| reflexivity].
  destruct (thread_parent es x) as [p |]; [apply IH, H | reflexivity].
Qed.

Lemma links_only_parent es x :
  conversation_links_only es = true -> In x es -> resolves es x = true ->
  is_user_or_assistant x = true /\
  exists p, thread_parent es x = Some p /\ In p es /\ threaded es p = true.
Proof.
  unfold conversation_links_only. rewrite forallb_forall. intros Hl Hx Hres.
  specialize (Hl x Hx). rewrite Hres in Hl. cbn [negb orb] in Hl.
  apply andb_prop in Hl. destruct Hl as [Hua Hex]. split; [exact Hua |].
  apply existsb_exists in Hex. destruct Hex as [y [Hy Hyp]].
  apply andb_prop in Hyp. destruct Hyp as [Hyua Hyu].
  destruct (thread_parent es x) as [p |] eqn:Hp.
  - exists p. split; [reflexivity |]. apply find_some in Hp.
    destruct Hp as [Hin Hp]. apply andb_prop in Hp. tauto.
  - exfalso. apply (find_none _ _ Hp) in Hy. unfold threaded in Hy.
    rewrite Hyua, Hyu, orb_true_r in Hy. discriminate.
Qed.

Lemma thread_root_none es fuel :
  conversation_links_only es = true ->
  forall x, In x es -> thread_root es fuel x = None ->
            thread_ancestor es (S fuel) x <> None.
Proof.
  intros Hl. induction fuel as [| fuel IH]; intros x Hx H; cbn [thread_root] in H;
    destruct (resolves es x) eqn:Hres; try discriminate H;
    destruct (links_only_parent es x Hl Hx Hres) as [_ [p [Hp [Hpin _]]]].
  - cbn [thread_ancestor]. rewrite Hres, Hp. discriminate.
  - rewrite Hp in H. apply IH in H; [| exact Hpin].
    change (thread_ancestor es (S (S fuel)) x)
      with (if resolves es x then
              match thread_parent es x with
              | Some p => thread_ancestor es (S fuel) p
              | None => None
              end
            else None).
    rewrite Hres, Hp. exact H.
Qed.

Lemma thread_root_is_root es fuel :
  forall x r,
    thread_root es fuel x = Some r ->
    resolves es r = false /\ (r = x \/ threaded es r = true).
Proof.
  induction fuel as [| fuel IH]; intros x r H; cbn [thread_root] in H;
    destruct (resolves es x) eqn:Hres; try discriminate H;
    try (inversion H; subst r; split; [exact Hres | now left]).
  destruct (thread_parent es x) as [p |] eqn:Hp; [| discriminate H].
  destruct (IH p r H) as [Hr [-> | Hthr]]; split; auto.
  right. apply find_some in Hp. destruct Hp as [_ Hp].
  apply andb_prop in Hp. tauto.
Qed.

(** When the parent links connect user and assistant entries only and have
    no cycle, the entries under a user or assistant root are the user and
    assistant entries. *)
Lemma links_only_in_conversation es :
  conversation_links_only es = true -> no_link_cycle es = true ->
  forall x, In x es -> in_conversation es x = is_user_or_assistant x.
Proof.
  intros Hl Hc x Hx. unfold in_conversation.
  destruct (thread_root es (List.length es) x) as [r |] eqn:Hr.
  - destruct (thread_root_is_root es _ x r Hr) as [Hroot [-> | Hthr]];
      [reflexivity |].
    unfold threaded in Hthr. rewrite Hroot in Hthr. cbn [orb] in Hthr.
    rewrite Hthr. destruct (resolves es x) eqn:Hres.
    + symmetry. apply (links_only_parent es x Hl Hx Hres).
    + destruct (List.length es); cbn [thread_root] in Hr; rewrite Hres in Hr;
        inversion Hr; subst r; symmetry; exact Hthr.
  - exfalso. apply (thread_root_none es _ Hl x Hx) in Hr. apply Hr.
    apply thread_ancestor_stays_none.
    unfold no_link_cycle in Hc. rewrite forallb_forall in Hc.
    specialize (Hc x Hx).
    destruct (thread_ancestor es (List.length es) x); [discriminate | reflexivity].
Qed.

(** The claim as first written fails, on sessions without any cycle.  A
    system entry whose parent is a user message is in that message's thread;
    a user message whose parent is a system root is in no thread; an answer
    to a uuid that two user messages share is in the thread of each; and a
    uuid that is a list makes [get_conversations] raise [TypeError]. *)
Lemma C2_threads_differ_from_the_conversation_entries :
  (no_link_cycle (entries session_with_system_child) = true /\
   get_conversations 2 session_with_system_child
   = Some (Ok [[user_node "u1" PNone "hi"; system_node "s1" (PStr "u1")]]) /\
   is_user_or_assistant (system_node "s1" (PStr "u1")) = false) /\
  (no_link_cycle (entries session_with_system_root) = true /\
   get_conversations 2 session_with_system_root = Some (Ok []) /\
   is_user_or_assistant (user_node "u2" (PStr "s0") "hi") = true) /\
  (no_link_cycle (entries session_with_shared_uuid) = true /\
   get_conversations 3 session_with_shared_uuid
   = Some (Ok [[user_node "u1" PNone "first"; assistant_node "a1" (PStr "u1") "reply"];
               [user_node "u1" PNone "second";
                assistant_node "a1" (PStr "u1") "reply"]])) /\
  (no_link_cycle (entries session_with_list_uuid) = true /\
   forall fuel, get_conversations fuel session_with_list_uuid = Some (Raise TypeError)).
Proof. repeat split; reflexivity. Qed.

(** C2 (amended). For a session whose uuids are strings and whose parent
    references are strings or [None], and in which no uuid that is named as a
    parent belongs to two entries that can be in a thread (the roots of
    another kind than user and assistant, such as the file-history snapshots
    and the summaries that repeat the uuid of a message, can not),
    [get_conversations] returns, with fuel for one iteration per entry and
    whether or not the parent links have a cycle, one thread for each root
    that is a user or an assistant entry, starting with that root; the
    threads together hold exactly the entries whose parent links lead to such
    a root, of whatever kind, each once.  When the parent links connect user
    and assistant entries only and have no cycle, these are exactly the user
    and assistant entries of the session. *)
Theorem C2_threads_cover_entries_under_conversation_roots :
  forall s fuel,
    ids_well_typed (entries s) = true ->
    parents_distinct (entries s) ->
    List.length (entries s) <= fuel ->
    exists threads,
      get_conversations fuel s = Some (Ok threads) /\
      Permutation (List.concat threads)
                  (filter (in_conversation (entries s)) (entries s)) /\
      Forall2 (fun r t => exists rest, t = r :: rest)
              (filter is_user_or_assistant (roots (entries s))) threads /\
      (conversation_links_only (entries s) = true ->
       no_link_cycle (entries s) = true ->
       Permutation (List.concat threads)
                   (filter is_user_or_assistant (entries s))).
Proof.
  intros s fuel Hty Hd Hfuel.
  destruct (get_conversations_returns fuel s Hty Hd Hfuel)
    as [threads [Hget [Hwalks Hcover]]].
  exists threads. split; [exact Hget | split; [exact Hcover | split]].
  - clear - Hwalks. induction Hwalks as [| r t rs ts Hr _ IH]; constructor; auto.
    inversion Hr; subst. eauto.
  - intros Hl Hc. rewrite Hcover.
    rewrite (filter_ext_in _ _ _ (links_only_in_conversation _ Hl Hc)).
    reflexivity.
Qed.

Lemma session_with_snapshot_distinct :
  parents_distinct (entries session_with_snapshot).
Proof.
  unfold parents_distinct. simpl. repeat constructor; simpl; intuition discriminate.
Qed.

Lemma C2_threads_cover_entries_under_conversation_roots_witness :
  exists threads,
    get_conversations 4 session_with_snapshot = Some (Ok threads) /\
    Permutation (List.concat threads)
                [user_node "u1" PNone "hi"; assistant_node "a1" (PStr "u1") "hello"].
Proof.
  destruct (C2_threads_cover_entries_under_conversation_roots
              session_with_snapshot 4 eq_refl session_with_snapshot_distinct
              (le_n 4))
    as [threads [Hget [_ [_ Hall]]]].
  exists threads. split; [exact Hget | apply Hall; reflexivity].
Defined.





(* ================================================================== *)
(** * Round trips of blocks and messages *)
(* ================================================================== *)

Lemma block_to_dict_parse rt b :
  exists d, block_to_dict b = PDict d /\
            block_to_dict (parse_content_block rt d) = PDict d /\
            (settled b -> parse_content_block rt d = b).
Proof.
  destruct b as [[text] | [thinking signature] | [id name input]
                 | [tool_use_id content is_error]].
  - eexists. split; [reflexivity |]. split; [reflexivity |]. reflexivity.
  - destruct signature; (eexists; split; [reflexivity |]);
      (split; [reflexivity |]); reflexivity.
  - eexists. split; [reflexivity |]. split; [reflexivity |]. reflexivity.
  - unfold block_to_dict, ToolResultContent.to_dict. cbn [ToolResultContent.is_error].
    destruct (Py.truthy is_error) eqn:Ht.
    + eexists. split; [reflexivity |].
      split; [| reflexivity].
      unfold parse_content_block. cbn -[Py.truthy].
      unfold ToolResultContent.to_dict. cbn -[Py.truthy]. rewrite Ht. reflexivity.
    + eexists. split; [reflexivity |].
      split; [reflexivity |].
      intros [Hs | Hs]; [simpl in Hs; congruence |].
      simpl in Hs. subst. reflexivity.
Qed.

(** X1. Writing a content block with [to_dict] and reading the record back
    with [parse_content_block] gives a block that writes the same record;
    it is the block itself for a text, thinking or tool-use block, and for a
    tool result whose [is_error] is truthy or [False]. *)
Theorem X1_block_record_roundtrip :
  forall rt b,
    exists d,
      block_to_dict b = PDict d /\
      block_to_dict (parse_content_block rt d) = PDict d /\
      (settled b -> parse_content_block rt d = b).
Proof.
  intros rt b.
  destruct (block_to_dict b) as [| | | | | | d] eqn:Hd;
    try (destruct b as [t | t | t | t]; simpl in Hd;
         unfold ThinkingContent.to_dict, ToolResultContent.to_dict in Hd;
         try destruct (ThinkingContent.signature t);
         try destruct (Py.truthy (ToolResultContent.is_error t));
         discriminate Hd).
  exists d. split; [reflexivity |].
  destruct (block_to_dict_parse rt b) as [d' [Hd' [Hstable Hsame]]].
  rewrite Hd in Hd'. inversion Hd'; subst d'. split; assumption.
Qed.

Lemma X1_block_record_roundtrip_witness :
  parse_content_block inert_runtime
    [("type", PStr "thinking"); ("thinking", PStr "hm"); ("signature", PStr "sg")]
  = Thinking (ThinkingContent.mk (PStr "hm") (PStr "sg")).
Proof.
  destruct (X1_block_record_roundtrip inert_runtime
              (Thinking (ThinkingContent.mk (PStr "hm") (PStr "sg"))))
    as [d [Hd [_ H]]].
  inversion Hd; subst d. apply H. exact I.
Defined.

Lemma parse_content_records rt blocks :
  parse_content rt (PList (map block_to_dict blocks))
  = map (fun b => match block_to_dict b with
                  | PDict d => parse_content_block rt d
                  | _ => Text (TextContent.mk (PStr (py_str rt (block_to_dict b))))
                  end) blocks.
Proof. simpl. rewrite map_map. reflexivity. Qed.

Lemma parse_content_settled rt blocks :
  Forall settled blocks ->
  parse_content rt (PList (map block_to_dict blocks)) = blocks.
Proof.
  intros H. rewrite parse_content_records.
  induction H as [| b blocks Hb _ IH]; [reflexivity |].
  simpl. rewrite IH. f_equal.
  destruct (block_to_dict_parse rt b) as [d [Hd [_ Hp]]].
  rewrite Hd. apply Hp, Hb.
Qed.

Lemma parse_content_stable rt blocks :
  map block_to_dict (parse_content rt (PList (map block_to_dict blocks)))
  = map block_to_dict blocks.
Proof.
  rewrite parse_content_records, map_map.
  apply map_ext. intros b.
  destruct (block_to_dict_parse rt b) as [d [Hd [Hs _]]].
  rewrite Hd. exact Hs.
Qed.

(** X2. When the original content is not a string, [serialize_content]
    returns the list of the block records and never raises; parsing that list
    with [parse_content] gives blocks that serialize to the same list, and
    gives the blocks themselves when every tool result has a truthy or
    [False] [is_error]. *)
Theorem X2_content_list_roundtrip :
  forall rt blocks original,
    is_str original = false ->
    exists v,
      serialize_content blocks original = Ok v /\
      serialize_content (parse_content rt v) original = Ok v /\
      List.length (parse_content rt v) = List.length blocks /\
      (Forall settled blocks -> parse_content rt v = blocks).
Proof.
  intros rt blocks original Ho.
  exists (PList (map block_to_dict blocks)).
  assert (Hser : forall bs, serialize_content bs original
                            = Ok (PList (map block_to_dict bs)))
    by (intros bs; destruct original; try discriminate; reflexivity).
  split; [apply Hser |]. split; [| split].
  - rewrite Hser, parse_content_stable. reflexivity.
  - rewrite parse_content_records. now rewrite !length_map.
  - apply parse_content_settled.
Qed.

Lemma X2_content_list_roundtrip_witness :
  exists v,
    serialize_content [unsettled_block] PNone = Ok v /\
    serialize_content (parse_content inert_runtime v) PNone = Ok v.
Proof.
  destruct (X2_content_list_roundtrip inert_runtime [unsettled_block] PNone eq_refl)
    as [v [H1 [H2 _]]].
  exists v. split; assumption.
Defined.

Lemma usage_from_to u :
  exists u',
    Usage.from_dict (Usage.to_dict u) = Ok u' /\
    Usage.to_dict u' = Usage.to_dict u /\
    (Usage._raw u = None ->
       Usage.input_tokens u' = Usage.input_tokens u /\
       Usage.output_tokens u' = Usage.output_tokens u /\
       Usage.cache_creation_input_tokens u'
       = Usage.cache_creation_input_tokens u /\
       Usage.cache_read_input_tokens u' = Usage.cache_read_input_tokens u /\
       (kept_or_default (PStr "") (Usage.service_tier u) ->
          Usage.service_tier u' = Usage.service_tier u)).
Proof.
  destruct u as [i o cc cr st [r |]]; unfold Usage.to_dict; cbn -[Py.truthy].
  - eexists. split; [reflexivity |]. split; [reflexivity |]. discriminate.
  - destruct (Py.truthy st) eqn:Hst; cbn -[Py.truthy];
      (eexists; split; [reflexivity |]); (split; [reflexivity |]);
      intros _; repeat split; try reflexivity.
    intros [H | H]; [congruence | now rewrite H].
Qed.

(** X3. [Usage.from_dict] accepts [None], giving [Usage()], and a dict, which
    [to_dict] then gives back unchanged; on any other value it raises
    [AttributeError].  Reading back what [to_dict] writes always succeeds and
    writes the same record again; for a [Usage] built without a raw record the
    four counters come back unchanged, and so does [service_tier] when it is
    truthy or the empty string. *)
Theorem X3_usage_roundtrip :
  (forall d u, Usage.from_dict d = Ok u ->
     (d = PNone /\ u = Usage.default) \/ Usage.to_dict u = d) /\
  (forall d, d <> PNone -> (forall r, d <> PDict r) ->
     Usage.from_dict d = Raise AttributeError) /\
  (forall u, exists u',
     Usage.from_dict (Usage.to_dict u) = Ok u' /\
     Usage.to_dict u' = Usage.to_dict u /\
     (Usage._raw u = None ->
        Usage.input_tokens u' = Usage.input_tokens u /\
        Usage.output_tokens u' = Usage.output_tokens u /\
        Usage.cache_creation_input_tokens u'
        = Usage.cache_creation_input_tokens u /\
        Usage.cache_read_input_tokens u' = Usage.cache_read_input_tokens u /\
        (kept_or_default (PStr "") (Usage.service_tier u) ->
           Usage.service_tier u' = Usage.service_tier u))).
Proof.
  split; [| split].
  - intros d u H. destruct d; simpl in H; try discriminate.
    + left. inversion H; auto.
    + right. inversion H; subst. reflexivity.
  - intros d Hn Hd. destruct d; try reflexivity.
    + contradiction.
    + exfalso. apply (Hd d). reflexivity.
  - apply usage_from_to.
Qed.

Lemma X3_usage_roundtrip_witness :
  Usage.to_dict Usage.default
  = PDict [("input_tokens", PInt 0); ("output_tokens", PInt 0);
           ("cache_creation_input_tokens", PInt 0);
           ("cache_read_input_tokens", PInt 0)] /\
  Usage.from_dict (PInt 3) = Raise AttributeError.
Proof.
  split; [reflexivity |].
  apply (proj1 (proj2 X3_usage_roundtrip) (PInt 3)); discriminate.
Defined.

(** X4. A [UserMessage] read from a dict writes that dict back.  One built
    without a raw record writes its role and the list of its block records,
    never a plain string and never an exception; reading that record back
    gives the same role, a message that writes the same record, and the same
    blocks when every tool result has a truthy or [False] [is_error]. *)
Theorem X4_user_message_roundtrip :
  forall rt,
    (forall d m, UserMessage.from_dict rt d = Ok m ->
       UserMessage.to_dict m = Ok d) /\
    (forall m, UserMessage._raw m = None ->
       exists m',
         UserMessage.to_dict m
         = Ok (PDict [("role", UserMessage.role m);
                      ("content",
                       PList (map block_to_dict (UserMessage.content m)))]) /\
         (r <- UserMessage.to_dict m ;; UserMessage.from_dict rt r) = Ok m' /\
         UserMessage.to_dict m' = UserMessage.to_dict m /\
         UserMessage.role m' = UserMessage.role m /\
         (Forall settled (UserMessage.content m) ->
            UserMessage.content m' = UserMessage.content m)).
Proof.
  intros rt. split.
  - intros d m H. unfold UserMessage.from_dict in H. bind_inv H.
    destruct d; try discriminate Ha. inversion Ha; subst.
    inversion H; subst. reflexivity.
  - intros [role content raw] Hraw. simpl in Hraw. subst raw.
    eexists. split; [reflexivity |]. split; [reflexivity |].
    split; [reflexivity |]. split; [reflexivity |].
    intros Hs. apply parse_content_settled, Hs.
Qed.

Lemma X4_user_message_roundtrip_witness :
  exists m',
    (r <- UserMessage.to_dict
            (UserMessage.mk (PStr "user") [unsettled_block] None) ;;
     UserMessage.from_dict inert_runtime r) = Ok m' /\
    UserMessage.to_dict m'
    = UserMessage.to_dict (UserMessage.mk (PStr "user") [unsettled_block] None).
Proof.
  destruct (proj2 (X4_user_message_roundtrip inert_runtime)
              (UserMessage.mk (PStr "user") [unsettled_block] None) eq_refl)
    as [m' [_ [H [Hd _]]]].
  exists m'. split; [exact H | exact Hd].
Defined.

(** X5. An [AssistantMessage] read from a dict writes that dict back.  One
    built without a raw record never raises when written; reading the record
    back succeeds and gives a message that writes the same record, with the
    same role, stop reason and stop sequence, the same [model] and
    [message_id] when they are truthy or empty strings, a [usage] that writes
    the same record, and the same blocks when every tool result has a truthy
    or [False] [is_error]. *)
Theorem X5_assistant_message_roundtrip :
  forall rt,
    (forall d m, AssistantMessage.from_dict rt d = Ok m ->
       AssistantMessage.to_dict m = Ok d) /\
    (forall m, AssistantMessage._raw m = None ->
       exists r m',
         AssistantMessage.to_dict m = Ok r /\
         AssistantMessage.from_dict rt r = Ok m' /\
         AssistantMessage.to_dict m' = Ok r /\
         AssistantMessage.role m' = AssistantMessage.role m /\
         AssistantMessage.stop_reason m' = AssistantMessage.stop_reason m /\
         AssistantMessage.stop_sequence m' = AssistantMessage.stop_sequence m /\
         Usage.to_dict (AssistantMessage.usage m')
         = Usage.to_dict (AssistantMessage.usage m) /\
         (kept_or_default (PStr "") (AssistantMessage.model m) ->
            AssistantMessage.model m' = AssistantMessage.model m) /\
         (kept_or_default (PStr "") (AssistantMessage.message_id m) ->
            AssistantMessage.message_id m' = AssistantMessage.message_id m) /\
         (Forall settled (AssistantMessage.content m) ->
            AssistantMessage.content m' = AssistantMessage.content m)).
Proof.
  intros rt. split.
  - intros d m H. unfold AssistantMessage.from_dict in H. bind_inv H.
    destruct d; try discriminate Ha. inversion Ha; subst.
    bind_inv H. inversion H; subst. reflexivity.
  - intros [role content raw model message_id stop_reason stop_sequence usage] Hraw.
    simpl in Hraw. subst raw.
    destruct (usage_from_to usage) as [u' [Hu [Hud _]]].
    unfold AssistantMessage.to_dict.
    cbn [AssistantMessage._raw AssistantMessage.content AssistantMessage.role
         AssistantMessage.model AssistantMessage.message_id
         AssistantMessage.stop_reason AssistantMessage.stop_sequence
         AssistantMessage.usage serialize_content bind].
    destruct (Py.truthy model) eqn:Hm; destruct (Py.truthy message_id) eqn:Hi;
      cbn [app];
      (eexists; eexists; split; [reflexivity |]);
      unfold AssistantMessage.from_dict; cbn [Py.as_dict bind];
      unfold Dict.get_none, Dict.get; simpl Dict.lookup; cbv beta iota;
      rewrite Hu; cbn [bind];
      (split; [reflexivity |]); (split; [reflexivity |]);
      cbn [AssistantMessage.role AssistantMessage.stop_reason
           AssistantMessage.stop_sequence AssistantMessage.usage
           AssistantMessage.model AssistantMessage.message_id
           AssistantMessage.content];
      repeat split; try reflexivity; try exact Hud;
      try (intros [H | H]; [congruence | now rewrite H]);
      try (intros Hs; apply parse_content_settled, Hs).
Qed.

Lemma X5_assistant_message_roundtrip_witness :
  exists r m',
    AssistantMessage.to_dict
      (AssistantMessage.mk (PStr "assistant") [unsettled_block] None
         (PStr "") (PStr "msg_1") PNone PNone Usage.default) = Ok r /\
    AssistantMessage.from_dict inert_runtime r = Ok m' /\
    AssistantMessage.model m' = PStr "".
Proof.
  destruct (proj2 (X5_assistant_message_roundtrip inert_runtime)
              (AssistantMessage.mk (PStr "assistant") [unsettled_block] None
                 (PStr "") (PStr "msg_1") PNone PNone Usage.default) eq_refl)
    as [r [m' [H1 [H2 [_ [_ [_ [_ [_ [Hm _]]]]]]]]]].
  exists r, m'. split; [exact H1 |]. split; [exact H2 |].
  apply Hm. right. reflexivity.
Defined.

(* ================================================================== *)
(** * Which records are accepted *)
(* ================================================================== *)

Lemma parse_timestamp_cases rt now ts :
  if timestamp_ok ts
  then exists dt, _parse_timestamp rt now ts = Ok dt
  else _parse_timestamp rt now ts = Raise AttributeError.
Proof.
  unfold timestamp_ok, _parse_timestamp.
  destruct (Py.truthy ts) eqn:Ht; simpl.
  - rewrite orb_false_r. destruct ts; simpl; try reflexivity.
    destruct (fromisoformat rt _); eauto.
  - rewrite orb_true_r. eauto.
Qed.

Lemma usage_from_dict_cases v :
  match v with
  | PNone | PDict _ => exists u, Usage.from_dict v = Ok u
  | _ => Usage.from_dict v = Raise AttributeError
  end.
Proof. destruct v; simpl; eauto. Qed.

(** Either an entry, for an accepted record, or [AttributeError]. *)
Lemma parse_entry_cases rt now d :
  if accepted d
  then exists entry, parse_entry rt now (PDict d) = Ok entry
  else parse_entry rt now (PDict d) = Raise AttributeError.
Proof.
  unfold accepted, parse_entry. cbn [Py.as_dict bind].
  pose proof (parse_timestamp_cases rt now (Dict.get d "timestamp" (PStr "")))
    as Hts.
  destruct (Py.equal (Dict.get d "type" (PStr "")) (PStr "user")).
  { unfold UserEntry.from_dict.
    destruct (timestamp_ok _); [destruct Hts as [dt ->] | rewrite Hts];
      cbn [bind andb]; [| reflexivity].
    destruct (Dict.get d "message" (PDict [])); cbn; eauto. }
  destruct (Py.equal (Dict.get d "type" (PStr "")) (PStr "assistant")).
  { unfold AssistantEntry.from_dict.
    destruct (timestamp_ok _); [destruct Hts as [dt ->] | rewrite Hts];
      cbn [bind andb]; [| reflexivity].
    destruct (Dict.get d "message" (PDict [])) as [| | | | | | m];
      try reflexivity.
    unfold AssistantMessage.from_dict. cbn [Py.as_dict bind].
    pose proof (usage_from_dict_cases (Dict.get_none m "usage")) as Hu.
    destruct (Dict.get_none m "usage");
      try (rewrite Hu; reflexivity);
      destruct Hu as [u ->]; cbn [bind]; eauto. }
  destruct (Py.equal (Dict.get d "type" (PStr "")) (PStr "system")).
  { unfold SystemEntry.from_dict.
    destruct (timestamp_ok _); [destruct Hts as [dt ->] | rewrite Hts];
      cbn [bind]; eauto. }
  destruct (Py.equal (Dict.get d "type" (PStr "")) (PStr "file-history-snapshot")).
  { unfold FileHistorySnapshotEntry.from_dict.
    destruct (Dict.get d "snapshot" (PDict [])) as [| | | | | | snap];
      try reflexivity.
    cbn [Py.as_dict bind].
    pose proof (parse_timestamp_cases rt now (Dict.get snap "timestamp" (PStr "")))
      as Hsn.
    destruct (timestamp_ok (Dict.get snap "timestamp" (PStr "")));
      [destruct Hsn as [dt ->] | rewrite Hsn]; cbn [bind]; eauto. }
  destruct (Py.equal (Dict.get d "type" (PStr "")) (PStr "summary")).
  { unfold SummaryEntry.from_dict. eauto. }
  destruct (Py.equal (Dict.get d "type" (PStr "")) (PStr "queue-operation")).
  { unfold QueueOperationEntry.from_dict.
    destruct (timestamp_ok _); [destruct Hts as [dt ->] | rewrite Hts];
      cbn [bind]; eauto. }
  destruct (timestamp_ok _); [destruct Hts as [dt ->] | rewrite Hts];
    cbn [bind]; eauto.
Qed.

(** X6. [parse_entry] returns an entry exactly for a dict that has what its
    kind needs -- a timestamp that is a string or falsy (read inside the
    [snapshot] dict for a file-history snapshot, not read at all for a
    summary), a [message] that is a dict for a user or assistant record, a
    [usage] that is [None] or a dict for an assistant record -- and raises
    [AttributeError], never another exception, on everything else.  Whether
    it returns depends neither on the clock nor on the library calls. *)
Theorem X6_parse_entry_accepts :
  forall rt now v,
    ((exists entry, parse_entry rt now v = Ok entry) <->
     (exists d, v = PDict d /\ accepted d = true)) /\
    (forall e, parse_entry rt now v = Raise e -> e = AttributeError) /\
    (forall rt' now',
       (exists entry, parse_entry rt now v = Ok entry) ->
       exists entry', parse_entry rt' now' v = Ok entry').
Proof.
  intros rt now v.
  assert (Hiff : forall rt0 now0,
             (exists entry, parse_entry rt0 now0 v = Ok entry) <->
             (exists d, v = PDict d /\ accepted d = true)).
  { intros rt0 now0. split.
    - intros [entry H]. destruct v as [| | | | | | d]; try discriminate H.
      exists d. split; [reflexivity |].
      pose proof (parse_entry_cases rt0 now0 d) as Hc.
      destruct (accepted d); [reflexivity | congruence].
    - intros [d [-> Ha]].
      pose proof (parse_entry_cases rt0 now0 d) as Hc.
      rewrite Ha in Hc. exact Hc. }
  split; [apply Hiff | split].
  - intros e H. destruct v as [| | | | | | d];
      try (inversion H; reflexivity).
    pose proof (parse_entry_cases rt now d) as Hc.
    destruct (accepted d); [destruct Hc as [entry Hc] |]; congruence.
  - intros rt' now' H. apply Hiff. apply (Hiff rt now). exact H.
Qed.

Lemma X6_parse_entry_accepts_witness :
  (exists entry, parse_entry inert_runtime epoch (PDict summary_with_number)
                 = Ok entry) /\
  parse_entry inert_runtime epoch
    (PDict [("type", PStr "system"); ("timestamp", PInt 5)])
  = Raise AttributeError.
Proof.
  split.
  - apply (proj1 (X6_parse_entry_accepts inert_runtime epoch
                    (PDict summary_with_number))).
    exists summary_with_number. split; reflexivity.
  - destruct (parse_entry inert_runtime epoch
                (PDict [("type", PStr "system"); ("timestamp", PInt 5)]))
      as [entry | e] eqn:H.
    + discriminate H.
    + f_equal.
      apply (proj1 (proj2 (X6_parse_entry_accepts inert_runtime epoch
                             (PDict [("type", PStr "system");
                                     ("timestamp", PInt 5)]))) e H).
Defined.

(* ================================================================== *)
(** * Sessions and files *)
(* ================================================================== *)

Lemma new_session_fields p es :
  file_path (new_session p es) = p /\ entries (new_session p es) = es.
Proof.
  unfold new_session, __post_init__. simpl.
  destruct (find _ es); split; reflexivity.
Qed.

Lemma find_first {A} (test : A -> bool) pre x post :
  forallb (fun y => negb (test y)) pre = true -> test x = true ->
  find test (pre ++ x :: post) = Some x.
Proof.
  induction pre as [| y pre IH]; simpl; intros Hpre Hx.
  - now rewrite Hx.
  - apply andb_prop in Hpre. destruct Hpre as [Hy Hpre].
    apply negb_true_iff in Hy. rewrite Hy. now apply IH.
Qed.

Lemma find_nowhere {A} (test : A -> bool) l :
  forallb (fun y => negb (test y)) l = true -> find test l = None.
Proof.
  induction l as [| y l IH]; simpl; intros H; [reflexivity |].
  apply andb_prop in H. destruct H as [Hy H].
  apply negb_true_iff in Hy. rewrite Hy. now apply IH.
Qed.

(** X9. A [Session] is built with the path and the entries it is given; its
    [session_id] is the [sessionId] of the first entry whose [sessionId] is
    truthy, whatever entries follow, and the empty string when no entry has
    one.  Running [__post_init__] again changes nothing. *)
Theorem X9_session_id_is_first_truthy :
  forall p es,
    file_path (new_session p es) = p /\
    entries (new_session p es) = es /\
    (forallb (fun e => negb (Py.truthy (session_id_of e))) es = true ->
       session_id (new_session p es) = PStr "") /\
    (forall pre e post,
       es = pre ++ e :: post ->
       forallb (fun x => negb (Py.truthy (session_id_of x))) pre = true ->
       Py.truthy (session_id_of e) = true ->
       session_id (new_session p es) = session_id_of e) /\
    __post_init__ (new_session p es) = new_session p es.
Proof.
  intros p es. destruct (new_session_fields p es) as [Hp He].
  split; [exact Hp | split; [exact He |]].
  unfold new_session, __post_init__. cbn [entries file_path].
  split; [| split].
  - intros H. now rewrite (find_nowhere _ _ H).
  - intros pre e post -> Hpre Hx.
    now rewrite (find_first (fun x => Py.truthy (session_id_of x)) pre e post Hpre Hx).
  - destruct (find _ es) as [e |] eqn:Hf; cbn [entries file_path]; now rewrite Hf.
Qed.

Lemma X9_session_id_is_first_truthy_witness :
  session_id
    (new_session "f.jsonl"
       ([system_node "s1" PNone] ++
        entry_of_session "u1" "S1" :: [entry_of_session "u2" "S2"]))
  = PStr "S1".
Proof.
  exact (proj1 (proj2 (proj2 (proj2 (X9_session_id_is_first_truthy "f.jsonl" _))))
           [system_node "s1" PNone] (entry_of_session "u1" "S1")
           [entry_of_session "u2" "S2"] eq_refl eq_refl eq_refl).
Defined.

Lemma enumerate_snd {A} (xs : list A) start :
  map snd (enumerate xs start) = xs.
Proof.
  revert start; induction xs as [| x xs IH]; intros start; simpl;
    [| rewrite IH]; reflexivity.
Qed.

Lemma enumerate_length {A} (xs : list A) start :
  List.length (enumerate xs start) = List.length xs.
Proof.
  revert start; induction xs as [| x xs IH]; intros start; simpl;
    [| rewrite IH]; reflexivity.
Qed.

Lemma parse_lines_values rt clock numbered :
  forall acc parsed,
    foldM (parse_line rt clock) numbered acc = Ok parsed ->
    map to_dict parsed = map to_dict acc ++ decoded_values (map snd numbered) /\
    List.length parsed <= List.length acc + List.length numbered.
Proof.
  induction numbered as [| [n l] numbered IH]; intros acc parsed H.
  - simpl in H. inversion H; subst. rewrite app_nil_r. simpl. split; [reflexivity | lia].
  - cbn [foldM] in H. bind_inv H. apply IH in H. destruct H as [H Hlen].
    unfold parse_line in Ha. cbn [map snd decoded_values flat_map].
    fold (decoded_values (map snd numbered)). unfold decoded.
    destruct (String.eqb (Str.strip (line_text l)) "").
    + inversion Ha; subst. simpl in *. split; [exact H | lia].
    + destruct (loads l) as [d | | e].
      * bind_inv Ha. inversion Ha; subst.
        destruct (parse_entry_raw _ _ _ _ Ha0) as [r [-> Hr]].
        rewrite H, map_app, <- app_assoc. cbn [map app].
        unfold to_dict at 2. rewrite Hr.
        rewrite length_app in Hlen. simpl in *. split; [reflexivity | lia].
      * inversion Ha; subst. simpl in *. split; [exact H | lia].
      * discriminate Ha.
Qed.

Lemma parse_session_file_lines rt clock p file s :
  parse_session_file rt clock p file = Ok s ->
  exists parsed,
    foldM (parse_line rt clock) (enumerate (file_lines file) 1) [] = Ok parsed /\
    read_error file = None /\ s = new_session p parsed.
Proof.
  unfold parse_session_file. intros H. bind_inv H.
  destruct (read_error file); [discriminate H |].
  inversion H; subst. eauto.
Qed.

(** X7. When [parse_session_file] returns, the session has the path it was
    given and one entry for each line that decodes, in the order of the
    file, each holding the decoded record as its raw record; blank and
    malformed lines leave no entry. *)
Theorem X7_parsed_entries_are_decoded_lines :
  forall rt clock p file s,
    parse_session_file rt clock p file = Ok s ->
    file_path s = p /\
    map to_dict (entries s) = decoded_values (file_lines file) /\
    List.length (entries s) <= List.length (file_lines file) /\
    (forallb skipped (file_lines file) = true -> entries s = []).
Proof.
  intros rt clock p [file err] s H.
  apply parse_session_file_lines in H. destruct H as [a [Ha [_ ->]]].
  cbn [file_lines] in *.
  destruct (new_session_fields p a) as [Hp He]. rewrite Hp, He.
  apply parse_lines_values in Ha. destruct Ha as [Hv Hlen].
  rewrite enumerate_snd in Hv. simpl in Hv.
  rewrite enumerate_length in Hlen. simpl in Hlen.
  split; [reflexivity | split; [exact Hv | split; [exact Hlen |]]].
  intros Hall.
  assert (Hnone : decoded_values file = []).
  { clear - Hall. induction file as [| l file IH]; [reflexivity |].
    simpl in Hall. apply andb_prop in Hall. destruct Hall as [Hl Hall].
    cbn [decoded_values flat_map]. fold (decoded_values file).
    rewrite (IH Hall). unfold skipped in Hl. unfold decoded.
    destruct (String.eqb _ ""); [reflexivity |].
    destruct (loads l); [discriminate | reflexivity | discriminate]. }
  rewrite Hnone in Hv. destruct a; [reflexivity | discriminate].
Qed.

Lemma X7_parsed_entries_are_decoded_lines_witness :
  exists s,
    parse_session_file inert_runtime (fun _ => epoch) "f.jsonl" two_record_file
    = Ok s /\
    map to_dict (entries s)
    = [PDict [("type", PStr "summary"); ("summary", PStr "s")];
       PDict [("type", PStr "user"); ("sessionId", PStr "S1")]].
Proof.
  eexists. split; [reflexivity |].
  apply (X7_parsed_entries_are_decoded_lines inert_runtime (fun _ => epoch)
           "f.jsonl" two_record_file).
  reflexivity.
Defined.

Lemma parse_verify_raise rt clock numbered e :
  forall acc mismatched,
    foldM (parse_line rt clock) numbered acc = Raise e <->
    foldM (verify_line rt clock) numbered mismatched = Raise e.
Proof.
  induction numbered as [| [n l] numbered IH]; intros acc mismatched.
  - simpl. split; discriminate.
  - cbn [foldM]. unfold parse_line at 1, verify_line at 1.
    destruct (String.eqb (Str.strip (line_text l)) ""); cbn [bind]; [apply IH |].
    destruct (loads l) as [d | | e']; cbn [bind];
      [| apply IH | split; intros H; inversion H; reflexivity].
    destruct (parse_entry rt (clock n) d) as [entry | e']; cbn [bind].
    + destruct (Py.not_equal d (to_dict entry)); cbn [bind]; apply IH.
    + split; intros H; inversion H; reflexivity.
Qed.

Lemma parse_verify_return rt clock numbered :
  forall acc mismatched,
    (exists parsed, foldM (parse_line rt clock) numbered acc = Ok parsed) <->
    (exists l, foldM (verify_line rt clock) numbered mismatched = Ok l).
Proof.
  intros acc mismatched.
  destruct (foldM (parse_line rt clock) numbered acc) as [parsed | e] eqn:Hp;
    destruct (foldM (verify_line rt clock) numbered mismatched) as [l | e'] eqn:Hv.
  - split; eauto.
  - apply (parse_verify_raise rt clock numbered e' acc mismatched) in Hv.
    congruence.
  - apply (parse_verify_raise rt clock numbered e acc mismatched) in Hp.
    congruence.
  - split; intros [x H]; discriminate H.
Qed.

Lemma parse_lines_parseable rt clock numbered :
  forall acc,
    (exists parsed, foldM (parse_line rt clock) numbered acc = Ok parsed) <->
    parseable rt clock numbered.
Proof.
  induction numbered as [| [n l] numbered IH]; intros acc.
  - simpl. split; [| eauto]. intros _ n l [].
  - cbn [foldM]. unfold parse_line at 1. split.
    + intros [parsed H] n' l' Hin.
      destruct Hin as [Heq | Hin].
      * inversion Heq; subst n' l'. unfold decoded, loads_raises.
        destruct (String.eqb (Str.strip (line_text l)) "");
          [split; [reflexivity | discriminate] |].
        destruct (loads l) as [d | | e]; cbn [bind] in H;
          [| split; [reflexivity | discriminate] | discriminate H].
        split; [reflexivity |]. intros original Hd. inversion Hd; subst.
        destruct (parse_entry rt (clock n) original) as [entry |];
          [eauto | discriminate].
      * assert (Hrest : exists acc', exists parsed',
                   foldM (parse_line rt clock) numbered acc' = Ok parsed').
        { destruct (String.eqb (Str.strip (line_text l)) ""); cbn [bind] in H; [eauto |].
          destruct (loads l) as [d | | e]; cbn [bind] in H;
            [| eauto | discriminate H].
          destruct (parse_entry rt (clock n) d); cbn [bind] in H; [eauto | discriminate]. }
        destruct Hrest as [acc' Hrest]. apply IH in Hrest.
        apply Hrest; exact Hin.
    + intros Hp.
      pose proof (parseable_tail _ _ _ _ Hp) as Hp'.
      destruct (Hp n l (or_introl eq_refl)) as [Hr Hd].
      unfold decoded in Hd. unfold loads_raises in Hr.
      destruct (String.eqb (Str.strip (line_text l)) "") eqn:Hb; cbn [bind];
        [apply IH, Hp' |].
      destruct (loads l) as [d | | e] eqn:Hl; cbn [bind];
        [| apply IH, Hp' | discriminate Hr].
      destruct (Hd d eq_refl) as [entry He].
      rewrite He. cbn [bind]. apply IH, Hp'.
Qed.

Lemma parse_session_file_returns rt clock p file :
  (exists s, parse_session_file rt clock p file = Ok s) <->
  read_error file = None /\
  parseable rt clock (enumerate (file_lines file) 1).
Proof.
  rewrite <- (parse_lines_parseable rt clock (enumerate (file_lines file) 1) []).
  unfold parse_session_file.
  destruct (foldM (parse_line rt clock) (enumerate (file_lines file) 1) [])
    as [parsed | e]; cbn [bind].
  - destruct (read_error file); split.
    + intros [x H]; discriminate H.
    + intros [H _]; discriminate H.
    + eauto.
    + eauto.
  - split; [intros [x H] | intros [_ [x H]]]; discriminate H.
Qed.

(** The exception of a line that stops the loop of [parse_session_file]. *)
Lemma parse_lines_raise rt clock numbered e :
  forall acc,
    foldM (parse_line rt clock) numbered acc = Raise e ->
    exists n l,
      In (n, l) numbered /\
      (loads_raises l = Some e \/
       exists original, decoded l = Some original /\
                        parse_entry rt (clock n) original = Raise e /\
                        e = AttributeError).
Proof.
  induction numbered as [| [n l] numbered IH]; intros acc H; [discriminate H |].
  cbn [foldM] in H. unfold parse_line at 1 in H.
  assert (Hlater : forall acc',
             foldM (parse_line rt clock) numbered acc' = Raise e ->
             exists n' l',
               In (n', l') ((n, l) :: numbered) /\
               (loads_raises l' = Some e \/
                exists original, decoded l' = Some original /\
                                 parse_entry rt (clock n') original = Raise e /\
                                 e = AttributeError)).
  { intros acc' H'. destruct (IH _ H') as [n' [l' [Hin Hc]]].
    exists n', l'. split; [right; exact Hin | exact Hc]. }
  unfold loads_raises, decoded.
  destruct (String.eqb (Str.strip (line_text l)) "") eqn:Hb; cbn [bind] in H;
    [eapply Hlater, H |].
  destruct (loads l) as [d | | e'] eqn:Hl; cbn [bind] in H; [| eapply Hlater, H |].
  - destruct (parse_entry rt (clock n) d) as [entry | e'] eqn:He; cbn [bind] in H;
      [eapply Hlater, H |].
    inversion H; subst e'. exists n, l. split; [now left |].
    right. exists d. unfold decoded. rewrite Hb, Hl.
    split; [reflexivity | split; [exact He |]].
    destruct d as [| | | | | | r]; try (inversion He; reflexivity).
    pose proof (parse_entry_cases rt (clock n) r) as Hc.
    destruct (accepted r); [destruct Hc as [x Hc] |]; congruence.
  - inversion H; subst e'. exists n, l. split; [now left |].
    left. unfold loads_raises. now rewrite Hb, Hl.
Qed.

(** X8. [parse_session_file] returns a session exactly when the file is read
    to its end without an exception, [json.loads] raises nothing but
    [JSONDecodeError], and every line that decodes is a record that
    [parse_entry] accepts.  Otherwise it raises, and [verify_roundtrip]
    raises the same exception on the same file: neither skips a line that
    decodes to something else than such a record.  The exception is the one
    that [json.loads] raised on a line, the [AttributeError] of [parse_entry]
    on a decoded line, or the one that ended the reading. *)
Theorem X8_parse_session_file_fails_like_verifier :
  forall rt clock p file,
    ((exists s, parse_session_file rt clock p file = Ok s) <->
     read_error file = None /\
     parseable rt clock (enumerate (file_lines file) 1)) /\
    (forall e, parse_session_file rt clock p file = Raise e <->
               verify_roundtrip rt clock file = Raise e) /\
    (forall e, parse_session_file rt clock p file = Raise e ->
               (exists l, In l (file_lines file) /\ loads_raises l = Some e) \/
               (e = AttributeError /\
                exists n l original,
                  nth_error (file_lines file) n = Some l /\
                  decoded l = Some original /\
                  parse_entry rt (clock (S n)) original = Raise AttributeError) \/
               read_error file = Some e).
Proof.
  intros rt clock p file.
  split; [apply parse_session_file_returns | split].
  - intros e. unfold parse_session_file, verify_roundtrip.
    pose proof (parse_verify_raise rt clock (enumerate (file_lines file) 1)) as Hr.
    destruct (foldM (parse_line rt clock) (enumerate (file_lines file) 1) [])
      as [parsed | e1] eqn:Hp;
      destruct (foldM (verify_line rt clock) (enumerate (file_lines file) 1) [])
        as [mismatched | e2] eqn:Hv; cbn [bind].
    + destruct (read_error file); split; intros H; try discriminate H;
        inversion H; reflexivity.
    + apply (Hr e2 [] []) in Hv. congruence.
    + apply (Hr e1 [] []) in Hp. congruence.
    + assert (e1 = e2).
      { apply (Hr e1 [] []) in Hp. congruence. }
      subst e2. split; intros H; inversion H; reflexivity.
  - intros e H. unfold parse_session_file in H.
    destruct (foldM (parse_line rt clock) (enumerate (file_lines file) 1) [])
      as [parsed | e1] eqn:Hp; cbn [bind] in H.
    + right; right. destruct (read_error file); [| discriminate H].
      inversion H; reflexivity.
    + inversion H; subst e1.
      destruct (parse_lines_raise _ _ _ _ _ Hp) as [n [l [Hin Hc]]].
      destruct Hc as [Hc | [original [Hd [He ->]]]].
      * left. exists l. split; [eapply In_enumerate, Hin | exact Hc].
      * right; left. split; [reflexivity |].
        assert (Hgen : forall (xs : list line) start,
                   In (n, l) (enumerate xs start) ->
                   start <= n /\ nth_error xs (n - start) = Some l).
        { induction xs as [| x xs IH]; intros start Hx; [destruct Hx |].
          destruct Hx as [Hx | Hx].
          - inversion Hx; subst. rewrite Nat.sub_diag. split; [lia | reflexivity].
          - apply IH in Hx. destruct Hx as [Hle Hnth]. split; [lia |].
            replace (n - start) with (S (n - S start)) by lia. exact Hnth. }
        apply Hgen in Hin. destruct Hin as [Hle Hnth].
        exists (n - 1), l, original.
        replace (S (n - 1)) with n by lia. auto.
Qed.

Lemma X8_parse_session_file_fails_like_verifier_witness :
  parse_session_file inert_runtime (fun _ => epoch) "f.jsonl" number_file
  = Raise AttributeError.
Proof.
  apply (proj2 (proj1 (proj2 (X8_parse_session_file_fails_like_verifier
                                inert_runtime (fun _ => epoch) "f.jsonl"
                                number_file)) AttributeError)).
  reflexivity.
Defined.

Lemma append_assoc_str (a b c : string) :
  ((a ++ b) ++ c = a ++ (b ++ c))%string.
Proof. induction a as [| x a IH]; simpl; [reflexivity | now rewrite IH]. Qed.

Lemma append_nil_r_str (a : string) : (a ++ "" = a)%string.
Proof. induction a as [| x a IH]; simpl; [reflexivity | now rewrite IH]. Qed.

Lemma concat_empty_cons x xs :
  String.concat "" (x :: xs) = (x ++ String.concat "" xs)%string.
Proof.
  destruct xs as [| y xs]; [now rewrite append_nil_r_str | reflexivity].
Qed.

(** The text of the lines of [es], each followed by a line feed. *)
Lemma lines_text_cons dumps e es :
  lines_text dumps (e :: es)
  = ((serialize_entry dumps e ++ newline) ++ lines_text dumps es)%string.
Proof. unfold lines_text. cbn [map]. apply concat_empty_cons. Qed.

Lemma lines_text_app dumps es1 es2 :
  lines_text dumps (es1 ++ es2)
  = (lines_text dumps es1 ++ lines_text dumps es2)%string.
Proof.
  induction es1 as [| e es1 IH]; [reflexivity |].
  cbn [app]. rewrite !lines_text_cons, IH. now rewrite !append_assoc_str.
Qed.








(** X11. Serializing a session that [parse_session_file] returned gives
    [json.dumps] of each decoded record of the file, in order, joined by line
    feeds: every line that decodes comes back as the dump of its record, and
    blank and malformed lines are dropped. *)
Theorem X11_to_jsonl_of_parsed_file :
  forall rt clock dumps p file s,
    parse_session_file rt clock p file = Ok s ->
    to_jsonl dumps s
    = Str.join newline (map dumps (decoded_values (file_lines file))) /\
    map (serialize_entry dumps) (entries s)
    = map dumps (decoded_values (file_lines file)).
Proof.
  intros rt clock dumps p file s H.
  assert (Hv : map to_dict (entries s) = decoded_values (file_lines file)).
  { apply parse_session_file_lines in H. destruct H as [a [Ha [_ ->]]].
    destruct (new_session_fields p a) as [_ He]. rewrite He.
    apply parse_lines_values in Ha. destruct Ha as [Hv _].
    rewrite enumerate_snd in Hv. exact Hv. }
  assert (Hm : map (serialize_entry dumps) (entries s)
               = map dumps (decoded_values (file_lines file))).
  { rewrite <- Hv, map_map. reflexivity. }
  split; [| exact Hm]. unfold to_jsonl. cbv zeta. now rewrite Hm.
Qed.

Lemma X11_to_jsonl_of_parsed_file_witness :
  exists s,
    parse_session_file inert_runtime (fun _ => epoch) "f.jsonl" two_record_file
    = Ok s /\
    to_jsonl (fun _ => "{}") s = ("{}" ++ newline ++ "{}")%string.
Proof.
  eexists. split; [reflexivity |].
  apply (X11_to_jsonl_of_parsed_file inert_runtime (fun _ => epoch)
           (fun _ => "{}") "f.jsonl" two_record_file).
  reflexivity.
Defined.

(* ================================================================== *)
(** * The verifier never reports a mismatch *)
(* ================================================================== *)

Lemma verify_roundtrip_returns_parseable rt clock file v :
  verify_roundtrip rt clock file = Ok v ->
  read_error file = None /\
  parseable rt clock (enumerate (file_lines file) 1).
Proof.
  intros H. unfold verify_roundtrip in H.
  destruct (foldM (verify_line rt clock) (enumerate (file_lines file) 1) [])
    as [mismatched | e] eqn:Hv; cbn [bind] in H; [| discriminate H].
  split; [destruct (read_error file); [discriminate H | reflexivity] |].
  apply (parse_lines_parseable rt clock (enumerate (file_lines file) 1) []).
  apply (parse_verify_return rt clock _ [] []). eauto.
Qed.

Lemma verify_roundtrip_verdict_true rt clock file v :
  lines_well_formed (file_lines file) ->
  verify_roundtrip rt clock file = Ok v -> v = (true, []).
Proof.
  intros Hwf H.
  destruct (verify_roundtrip_returns_parseable _ _ _ _ H) as [Hread Hp].
  rewrite (verify_roundtrip_never_differs rt clock file Hwf Hread Hp) in H.
  now inversion H.
Qed.

Lemma put_values {V} (P : V -> Prop) (m : PyMap.t V) k v :
  Forall (fun kv => P (snd kv)) m -> P v ->
  Forall (fun kv => P (snd kv)) (PyMap.put m k v).
Proof.
  induction m as [| [k1 v1] m IH]; intros Hm Hv; simpl.
  - constructor; [exact Hv | constructor].
  - inversion Hm as [| x l H1 Hrest]; subst.
    destruct (Py.key_eq k1 k); constructor; auto.
Qed.

(** The state of the loops of [verify_all_roundtrips]: string keys, and
    every verdict a success. *)
Lemma verify_files_invariant rt clock files :
  forall results results',
    (forall f, In f files -> lines_well_formed (jsonl_lines f)) ->
    keys_are_str results ->
    Forall (fun kv => snd kv = (true, @nil nat)) results ->
    foldM (fun results f =>
             verdict <- verify_roundtrip rt (clock (jsonl_path f)) (jsonl_text f) ;;
             Ok (PyMap.put results (PStr (jsonl_path f)) verdict))
          files results = Ok results' ->
    keys_are_str results' /\
    Forall (fun kv => snd kv = (true, @nil nat)) results' /\
    (forall p, PyMap.find results (PStr p) <> None ->
               PyMap.find results' (PStr p) <> None) /\
    (forall f, In f files -> PyMap.find results' (PStr (jsonl_path f)) <> None).
Proof.
  induction files as [| f files IH]; intros results results' Hwf Hk Hv H.
  - simpl in H. inversion H; subst. repeat split; auto; intros ? [].
  - cbn [foldM] in H. bind_inv H. bind_inv Ha. inversion Ha; subst; clear Ha.
    apply verify_roundtrip_verdict_true in Ha0; [| apply Hwf; now left].
    subst a0.
    apply IH in H.
    + destruct H as [Hk' [Hv' [Hmono Hall]]].
      split; [exact Hk' | split; [exact Hv' | split]].
      * intros p Hp. apply Hmono. rewrite find_put_str by exact Hk.
        destruct (String.eqb (jsonl_path f) p); [discriminate | exact Hp].
      * intros f' [<- | Hin]; [| now apply Hall].
        apply Hmono. rewrite find_put_str by exact Hk.
        rewrite String.eqb_refl. discriminate.
    + intros f' Hin. apply Hwf. now right.
    + now apply put_keys_are_str.
    + apply (put_values (fun v => v = (true, @nil nat))); [exact Hv | reflexivity].
Qed.

(** X12. On files whose decoded lines are values as [json.loads] builds them
    (the keys of every dict distinct), [verify_roundtrip] can only return a
    success: whenever it returns, the verdict is [True] and no line is
    reported.  So [verify_all_roundtrips], when it returns, holds a verdict
    under the path of every file of every subdirectory, and every verdict it
    holds is that success. *)
Theorem X12_verifier_never_reports_a_mismatch :
  forall rt,
    (forall clock file v,
       lines_well_formed (file_lines file) ->
       verify_roundtrip rt clock file = Ok v -> v = (true, [])) /\
    (forall clock listing results,
       (forall f, In f (listing_files listing) ->
                  lines_well_formed (jsonl_lines f)) ->
       verify_all_roundtrips rt clock listing = Ok results ->
       Forall (fun kv => snd kv = (true, [])) results /\
       (forall f, In f (listing_files listing) ->
          PyMap.find results (PStr (jsonl_path f)) = Some (true, []))).
Proof.
  intros rt. split; [intros clock; apply verify_roundtrip_verdict_true |].
  intros clock listing results Hwf H.
  assert (Hgen : forall listing results0 results',
             (forall f, In f (listing_files listing) ->
                        lines_well_formed (jsonl_lines f)) ->
             keys_are_str results0 ->
             Forall (fun kv => snd kv = (true, @nil nat)) results0 ->
             foldM (fun results child =>
                      match child_files child with
                      | Some files =>
                          foldM (fun results f =>
                                   verdict <- verify_roundtrip rt (clock (jsonl_path f))
                                                               (jsonl_text f) ;;
                                   Ok (PyMap.put results (PStr (jsonl_path f)) verdict))
                                files results
                      | None => Ok results
                      end) listing results0 = Ok results' ->
             keys_are_str results' /\
             Forall (fun kv => snd kv = (true, @nil nat)) results' /\
             (forall p, PyMap.find results0 (PStr p) <> None ->
                        PyMap.find results' (PStr p) <> None) /\
             (forall f, In f (listing_files listing) ->
                        PyMap.find results' (PStr (jsonl_path f)) <> None)).
  { clear. induction listing as [| child listing IH];
      intros results0 results' Hwf Hk Hv H.
    - simpl in H. inversion H; subst. repeat split; auto; intros ? [].
    - cbn [foldM] in H. bind_inv H. cbn [listing_files flat_map] in Hwf.
      fold (listing_files listing) in Hwf.
      assert (Hstep : keys_are_str a /\
                      Forall (fun kv => snd kv = (true, @nil nat)) a /\
                      (forall p, PyMap.find results0 (PStr p) <> None ->
                                 PyMap.find a (PStr p) <> None) /\
                      (forall f, In f match child_files child with
                                      | Some files => files
                                      | None => []
                                      end ->
                                 PyMap.find a (PStr (jsonl_path f)) <> None)).
      { destruct (child_files child) as [files |].
        - eapply verify_files_invariant; try eassumption.
          intros f Hin. apply Hwf, in_or_app. now left.
        - inversion Ha; subst. repeat split; auto; intros ? []. }
      destruct Hstep as [Hka [Hva [Hmono1 Hall1]]].
      apply IH in H; auto.
      + destruct H as [Hk' [Hv' [Hmono Hall]]].
        split; [exact Hk' | split; [exact Hv' | split]].
        * intros p Hp. apply Hmono, Hmono1, Hp.
        * intros f Hin. cbn [listing_files flat_map] in Hin.
          fold (listing_files listing) in Hin.
          apply in_app_or in Hin. destruct Hin as [Hin | Hin].
          -- apply Hmono, Hall1, Hin.
          -- apply Hall, Hin.
      + intros f Hin. apply Hwf, in_or_app. now right. }
  destruct (Hgen listing [] results Hwf (Forall_nil _) (Forall_nil _) H)
    as [_ [Hv [_ Hall]]].
  split; [exact Hv |].
  intros f Hin. specialize (Hall f Hin).
  destruct (PyMap.find results (PStr (jsonl_path f))) as [v |] eqn:Hf;
    [| contradiction].
  f_equal.
  assert (Hin' : forall (m : PyMap.t (bool * list nat)) k v,
             PyMap.find m k = Some v -> In v (map snd m)).
  { clear. induction m as [| [k1 v1] m IHm]; intros k v Hf; [discriminate |].
    simpl in Hf. destruct (Py.key_eq k1 k).
    - inversion Hf; subst. now left.
    - right. eapply IHm, Hf. }
  apply Hin' in Hf. apply in_map_iff in Hf. destruct Hf as [kv [<- Hkv]].
  rewrite Forall_forall in Hv. apply Hv, Hkv.
Qed.

Lemma sample_listing_well_formed :
  forall f, In f (listing_files sample_listing) -> lines_well_formed (jsonl_lines f).
Proof.
  intros f Hin l original Hl Hd. simpl in Hin.
  destruct Hin as [<- | [<- | []]]; simpl in Hl;
    repeat (destruct Hl as [<- | Hl]; [try discriminate Hd |]); try contradiction;
    inversion Hd; subst; simpl; repeat constructor; simpl; intuition discriminate.
Qed.

Lemma X12_verifier_never_reports_a_mismatch_witness :
  exists results,
    verify_all_roundtrips inert_runtime (fun _ _ => epoch) sample_listing
    = Ok results /\
    Forall (fun kv => snd kv = (true, [])) results.
Proof.
  eexists. split; [reflexivity |].
  apply (proj2 (X12_verifier_never_reports_a_mismatch inert_runtime)
           (fun _ _ => epoch) sample_listing _ sample_listing_well_formed).
  reflexivity.
Defined.

(* ================================================================== *)
(** * What every interaction satisfies *)
(* ================================================================== *)

Lemma text_actions_app l m :
  text_actions (l ++ m) = text_actions l ++ text_actions m.
Proof.
  induction l as [| a l IH]; simpl; [reflexivity |].
  destruct (String.eqb (Action.action_type a) "text"); [| exact IH].
  destruct (Action.text a); [simpl; now rewrite IH | exact IH].
Qed.

Lemma text_actions_nonempty acts :
  Forall action_shape acts -> Forall (fun t => t <> "") (text_actions acts).
Proof.
  induction 1 as [| a acts Ha _ IH]; simpl; [constructor |].
  destruct Ha; simpl; try exact IH. constructor; assumption.
Qed.

Lemma join_snoc ts s :
  ts <> [] ->
  Str.join newline (ts ++ [s]) = (Str.join newline ts ++ newline ++ s)%string.
Proof.
  unfold Str.join. induction ts as [| t ts IH]; intros Hne; [contradiction |].
  destruct ts as [| t' ts]; [reflexivity |].
  change (String.concat newline ((t :: t' :: ts) ++ [s]))
    with (t ++ newline ++ String.concat newline ((t' :: ts) ++ [s]))%string.
  rewrite IH by discriminate.
  change (String.concat newline (t :: t' :: ts))
    with (t ++ newline ++ String.concat newline (t' :: ts))%string.
  now rewrite !append_assoc_str.
Qed.

Lemma join_nonempty t ts : t <> "" -> Str.join newline (t :: ts) <> "".
Proof.
  unfold Str.join. intros Ht. destruct t as [| c t]; [contradiction |].
  destruct ts; discriminate.
Qed.

(** Appending a text to [final_response] keeps it the join of the texts. *)
Lemma final_response_step (old : option string) ts s :
  old = match ts with [] => None | t :: l => Some (Str.join newline (t :: l)) end ->
  Forall (fun t => t <> "") ts ->
  Some (match old with
        | Some r => if truthy_str (Some r) then (r ++ newline ++ s)%string else s
        | None => s
        end)
  = match ts ++ [s] with
    | [] => None
    | t :: l => Some (Str.join newline (t :: l))
    end.
Proof.
  intros -> Hne. destruct ts as [| t ts]; [reflexivity |].
  inversion Hne as [| x l Ht _]; subst.
  assert (Htruthy : truthy_str (Some (Str.join newline (t :: ts))) = true).
  { simpl. apply negb_true_iff, String.eqb_neq. now apply join_nonempty. }
  rewrite Htruthy.
  change (match (t :: ts) ++ [s] with
          | [] => None
          | t0 :: l => Some (Str.join newline (t0 :: l))
          end) with (Some (Str.join newline ((t :: ts) ++ [s]))).
  rewrite join_snoc by discriminate. reflexivity.
Qed.

(** The actions of an assistant entry are thinking and tool-use actions
    without result. *)
Lemma extract_block_shapes ts st b st' :
  extract_block ts st b = Ok st' ->
  Forall action_shape (fst (fst st)) /\ text_actions (fst (fst st)) = [] ->
  Forall action_shape (fst (fst st')) /\ text_actions (fst (fst st')) = [].
Proof.
  destruct st as [[acts parts] flag]. unfold extract_block.
  destruct b as [t | t | t | t]; intros H [Hs Ht]; cbn [fst] in *.
  - destruct (TextContent.text t); try discriminate.
    destruct (_ || _); inversion H; subst; auto.
  - inversion H; subst. cbn [fst]. rewrite text_actions_app, Ht. split.
    + apply Forall_app. split; [exact Hs |]. repeat constructor.
    + reflexivity.
  - inversion H; subst. cbn [fst]. rewrite text_actions_app, Ht. split.
    + apply Forall_app. split; [exact Hs |]. repeat constructor.
    + reflexivity.
  - inversion H; subst; auto.
Qed.

Lemma extract_actions_shapes e acts text flag :
  _extract_actions_from_assistant e = Ok (acts, text, flag) ->
  Forall action_shape acts /\ text_actions acts = [].
Proof.
  unfold _extract_actions_from_assistant. intros H. bind_inv H. bind_inv H.
  destruct a0 as [[acts' parts] flag']. inversion H; subst.
  change acts with (fst (fst (acts, parts, flag))).
  eapply (foldM_invariant
            (fun st => Forall action_shape (fst (fst st)) /\
                       text_actions (fst (fst st)) = []));
    [| | exact Ha0].
  - intros st x st' HP Hstep. eapply extract_block_shapes; eassumption.
  - split; [constructor | reflexivity].
Qed.

Lemma apply_tool_result_ok cur item :
  interaction_ok cur -> interaction_ok (apply_tool_result cur item).
Proof.
  destruct item as [tool_id [r ie]]. intros [Hs [Hf [Hc Hm]]].
  destruct (apply_tool_result_spec cur tool_id r ie)
    as [[pre [a [post [Hl [_ [Ha [_ ->]]]]]]] | [_ [_ ->]]];
    [| repeat split; assumption].
  rewrite Hl in Hs. apply Forall_app in Hs. destruct Hs as [Hpre Hrest].
  inversion Hrest as [| x l Hshape Hpost]; subst.
  unfold is_tool_use_with_id in Ha. apply andb_prop in Ha. destruct Ha as [Hty _].
  assert (Hnew : action_shape (Action.with_result a r ie))
    by (destruct Hshape; try discriminate Hty; constructor).
  assert (Htexts : text_actions (pre ++ Action.with_result a r ie :: post)
                   = text_actions (pre ++ a :: post)).
  { rewrite !text_actions_app. reflexivity. }
  split; [| split; [| split]].
  - cbn [Interaction.actions Interaction.with_actions].
    apply Forall_app. split; [exact Hpre | constructor; assumption].
  - unfold final_response_ok in *.
    cbn [Interaction.actions Interaction.with_actions Interaction.final_response].
    now rewrite Htexts, <- Hl.
  - exact Hc.
  - exact Hm.
Qed.

Lemma user_followup_ok rt st e st' cur :
  current_interaction st = Some cur -> interaction_ok cur ->
  user_followup rt st e = Ok st' ->
  exists cur', st' = set_current st cur' /\ interaction_ok cur'.
Proof.
  intros Hc [Hs [Hf [Hcr Hm]]] H. unfold user_followup in H. rewrite Hc in H.
  bind_inv H.
  destruct (_is_cancellation_message a) eqn:Hcancel;
    [| destruct (_is_auto_compact_message a) eqn:Hcompact].
  - inversion H; subst. eexists. split; [reflexivity |].
    repeat split; try assumption.
    right. exists (Str.strip a). split; [| reflexivity].
    unfold _is_cancellation_message in Hcancel.
    apply existsb_exists in Hcancel. destruct Hcancel as [m [Hin Heq]].
    apply String.eqb_eq in Heq. now subst.
  - inversion H; subst. eexists. split; [reflexivity |].
    split; [| split; [| split]]; try assumption.
    + cbn [Interaction.actions Interaction.with_actions].
      apply Forall_app. split; [exact Hs |]. repeat constructor. exact Hcompact.
    + unfold final_response_ok in *.
      cbn [Interaction.actions Interaction.with_actions Interaction.final_response].
      rewrite text_actions_app. cbn. now rewrite app_nil_r.
  - bind_inv H. inversion H; subst. eexists. split; [reflexivity |].
    assert (Hok : interaction_ok cur) by (repeat split; assumption).
    clear - Hok. revert cur Hok.
    induction a0 as [| item items IH]; intros cur Hok; simpl; [exact Hok |].
    apply IH, apply_tool_result_ok, Hok.
Qed.

Lemma assistant_response_ok st e m st' cur :
  current_interaction st = Some cur -> interaction_ok cur ->
  assistant_response st e m = Ok st' ->
  exists cur', st' = set_current st cur' /\ interaction_ok cur'.
Proof.
  intros Hc [Hs [Hf [Hcr Hm]]] H. unfold assistant_response in H. rewrite Hc in H.
  bind_inv H. destruct a as [[acts text] flag].
  destruct (extract_actions_shapes _ _ _ _ Ha) as [Hacts Hnotext].
  cbv zeta in H. cbn [Interaction.actions Interaction.with_actions Interaction.model
                      Interaction.final_response] in H.
  set (cur1 := Interaction.with_actions cur (Interaction.actions cur ++ acts)) in *.
  assert (Hok1 : interaction_ok cur1).
  { repeat split; try assumption.
    - cbn. apply Forall_app. split; assumption.
    - unfold final_response_ok in *. cbn.
      now rewrite text_actions_app, Hnotext, app_nil_r. }
  set (cur2 := match Interaction.model cur with
               | PNone =>
                   if Py.truthy (AssistantMessage.model m)
                   then Interaction.with_model cur1 (AssistantMessage.model m)
                   else cur1
               | _ => cur1
               end) in *.
  assert (Hok2 : interaction_ok cur2 /\
                 Interaction.actions cur2 = Interaction.actions cur1 /\
                 Interaction.final_response cur2 = Interaction.final_response cur1).
  { destruct Hok1 as [H1 [H2 [H3 H4]]]. subst cur2.
    destruct (Interaction.model cur);
      try (split; [repeat split; assumption | split; reflexivity]).
    destruct (Py.truthy (AssistantMessage.model m)) eqn:Htm;
      (split; [| split; reflexivity]); repeat split; try assumption.
    right. exact Htm. }
  destruct Hok2 as [[H1 [H2 [H3 H4]]] [Hacts2 Hfin2]].
  assert (Hsame : interaction_ok cur2) by (repeat split; assumption).
  destruct text as [s |]; [| inversion H; subst; eauto].
  destruct (truthy_str (Some s)) eqn:Hts; [| inversion H; subst; eauto].
  inversion H; subst st'; clear H. eexists. split; [reflexivity |].
  assert (Hs_ne : s <> "").
  { simpl in Hts. apply negb_true_iff in Hts. now apply String.eqb_neq. }
  split; [| split; [| split]].
  - cbn. apply Forall_app. split; [exact H1 |]. repeat constructor. exact Hs_ne.
  - unfold final_response_ok in *.
    cbn [Interaction.actions Interaction.with_actions Interaction.final_response
         Interaction.with_final_response].
    rewrite text_actions_app.
    change (text_actions [Action.with_text
                            (Action.make "text" (timestamp (base e))) s])
      with [s].
    apply final_response_step; [exact H2 | apply text_actions_nonempty, H1].
  - exact H3.
  - exact H4.
Qed.

Lemma build_step_ok rt st e st' :
  Forall interaction_ok (all_interactions st) ->
  build_step rt st e = Ok st' ->
  Forall interaction_ok (all_interactions st').
Proof.
  intros Hinv H.
  assert (Hset : forall cur cur',
             current_interaction st = Some cur -> interaction_ok cur' ->
             Forall interaction_ok (all_interactions (set_current st cur'))).
  { intros cur cur' Hc Hok. unfold all_interactions in *. rewrite Hc in Hinv.
    cbn. apply Forall_app in Hinv. destruct Hinv as [Hi _].
    apply Forall_app. split; [exact Hi | constructor; [exact Hok | constructor]]. }
  assert (Hcur : forall cur, current_interaction st = Some cur -> interaction_ok cur).
  { intros cur Hc. unfold all_interactions in Hinv. rewrite Hc in Hinv.
    apply Forall_app in Hinv. destruct Hinv as [_ Hl]. now inversion Hl. }
  unfold build_step in H.
  destruct e; try (inversion H; subst; exact Hinv);
    bind_inv H; destruct a; try (inversion H; subst; exact Hinv).
  - unfold start_interaction in H. bind_inv H. inversion H; subst; clear H.
    unfold all_interactions in *. cbn.
    apply Forall_app. split.
    + destruct (current_interaction st); [exact Hinv |].
      now rewrite app_nil_r in Hinv.
    + constructor; [| constructor].
      repeat split; left; reflexivity.
  - destruct (current_interaction st) as [cur |] eqn:Hc.
    + destruct (user_followup_ok _ _ _ _ _ Hc (Hcur _ eq_refl) H) as [cur' [-> Hok]].
      eapply Hset; [reflexivity | exact Hok].
    + unfold user_followup in H. rewrite Hc in H. inversion H; subst. exact Hinv.
  - simpl in Ha. discriminate Ha.
  - destruct (current_interaction st) as [cur |] eqn:Hc.
    + destruct (assistant_response_ok _ _ _ _ _ Hc (Hcur _ eq_refl) H)
        as [cur' [-> Hok]].
      eapply Hset; [reflexivity | exact Hok].
    + unfold assistant_response in H. rewrite Hc in H. inversion H; subst.
      exact Hinv.
Qed.

Lemma build_interactions_ok rt es l :
  build_interactions rt es = Ok l -> Forall interaction_ok l.
Proof.
  intros H. destruct (build_interactions_all _ _ _ H) as [st [Hfold ->]].
  eapply (foldM_invariant (fun st => Forall interaction_ok (all_interactions st)));
    [| | exact Hfold].
  - intros st0 x st1 HP Hstep. eapply build_step_ok; eassumption.
  - constructor.
Qed.

(** X13. In every interaction that [build_interactions] returns,
    [final_response] is the texts of the text actions of the interaction, in
    order, joined by line feeds; it is [None] exactly when the interaction
    has no text action, and it is never the empty string. *)
Theorem X13_final_response_is_joined_text_actions :
  forall rt es l,
    build_interactions rt es = Ok l ->
    Forall (fun i =>
              final_response_ok i /\
              (Interaction.final_response i = None <->
               text_actions (Interaction.actions i) = []) /\
              Interaction.final_response i <> Some "") l.
Proof.
  intros rt es l H. apply build_interactions_ok in H.
  eapply Forall_impl; [| exact H].
  intros i [Hs [Hf _]]. split; [exact Hf |].
  unfold final_response_ok in Hf. rewrite Hf.
  pose proof (text_actions_nonempty _ Hs) as Hne.
  destruct (text_actions (Interaction.actions i)) as [| t ts].
  - split; [split; reflexivity | discriminate].
  - inversion Hne as [| x xs Ht _]; subst.
    split; [split; discriminate |].
    intros Heq. inversion Heq as [Hj]. now apply (join_nonempty t ts).
Qed.

Lemma X13_final_response_is_joined_text_actions_witness :
  exists l,
    build_interactions inert_runtime cancelled_turn = Ok l /\
    Forall final_response_ok l.
Proof.
  destruct (build_interactions_total inert_runtime cancelled_turn eq_refl)
    as [l Hl].
  exists l. split; [exact Hl |].
  eapply Forall_impl;
    [| exact (X13_final_response_is_joined_text_actions
                inert_runtime cancelled_turn l Hl)].
  intros i H. apply H.
Defined.

(** X14. In every interaction that [build_interactions] returns,
    [cancel_reason] is [None] or one of the two cancellation messages
    (without surrounding blanks), and [model] is [None] or a truthy value. *)
Theorem X14_cancel_reason_and_model_values :
  forall rt es l,
    build_interactions rt es = Ok l ->
    Forall (fun i => cancel_reason_ok i /\ model_ok i) l.
Proof.
  intros rt es l H. apply build_interactions_ok in H.
  eapply Forall_impl; [| exact H].
  intros i [_ [_ [Hc Hm]]]. split; assumption.
Qed.

Lemma X14_cancel_reason_and_model_values_witness :
  exists l,
    build_interactions inert_runtime cancelled_turn = Ok l /\
    Forall cancel_reason_ok l.
Proof.
  destruct (build_interactions_total inert_runtime cancelled_turn eq_refl)
    as [l Hl].
  exists l. split; [exact Hl |].
  eapply Forall_impl;
    [| exact (X14_cancel_reason_and_model_values
                inert_runtime cancelled_turn l Hl)].
  intros i H. apply H.
Defined.

(** X15. Every action of every interaction that [build_interactions]
    returns has one of five shapes: a thinking action, a tool use without
    result, a tool use with its result, a text that is not empty, or the
    summary of an auto-compact message, with every other field at its
    default.  So every action has a timestamp and one of the four action
    types, and only tool-use actions carry a result. *)
Theorem X15_action_shapes :
  forall rt es l,
    build_interactions rt es = Ok l ->
    Forall (fun i =>
              Forall (fun a =>
                        action_shape a /\
                        Action.timestamp a <> None /\
                        In (Action.action_type a)
                           ["thinking"; "tool_use"; "text"; "auto_compact"] /\
                        (Action.tool_result a <> None ->
                         Action.action_type a = "tool_use"))
                     (Interaction.actions i)) l.
Proof.
  intros rt es l H. apply build_interactions_ok in H.
  eapply Forall_impl; [| exact H].
  intros i [Hs _]. eapply Forall_impl; [| exact Hs].
  intros a Ha. split; [exact Ha |].
  destruct Ha; cbn; (split; [discriminate |]); (split; [tauto |]);
    intros Hr; try reflexivity; contradiction.
Qed.

Lemma X15_action_shapes_witness :
  exists l,
    build_interactions inert_runtime cancelled_turn = Ok l /\
    Forall (fun i => Forall action_shape (Interaction.actions i)) l.
Proof.
  destruct (build_interactions_total inert_runtime cancelled_turn eq_refl)
    as [l Hl].
  exists l. split; [exact Hl |].
  eapply Forall_impl;
    [| exact (X15_action_shapes inert_runtime cancelled_turn l Hl)].
  intros i H. eapply Forall_impl; [| exact H]. intros a Ha. apply Ha.
Defined.

(* ================================================================== *)
(** * Which entries the builder looks at *)
(* ================================================================== *)

Lemma build_step_other rt st e :
  is_user_or_assistant e = false -> build_step rt st e = Ok st.
Proof. destruct e; intros H; try discriminate H; reflexivity. Qed.

(** X16. Only user and assistant entries count for [build_interactions]:
    an entry of any other class -- system, summary, file-history snapshot,
    queue operation or unknown -- leaves the builder as it is, so the result
    (the interactions, or the exception) is that of the user and assistant
    entries alone. *)
Theorem X16_only_user_and_assistant_entries_count :
  forall rt es,
    build_interactions rt (filter is_user_or_assistant es)
    = build_interactions rt es /\
    (forall st e, is_user_or_assistant e = false -> build_step rt st e = Ok st).
Proof.
  intros rt es. split; [| intros st e; apply build_step_other].
  unfold build_interactions. f_equal. generalize (mk_builder [] None 0).
  induction es as [| e es IH]; intros st; [reflexivity |].
  cbn [filter]. destruct (is_user_or_assistant e) eqn:He.
  - cbn [foldM]. destruct (build_step rt st e); cbn [bind]; [apply IH | reflexivity].
  - cbn [foldM]. rewrite (build_step_other rt st e He). cbn [bind]. apply IH.
Qed.

Lemma X16_only_user_and_assistant_entries_count_witness :
  build_step inert_runtime (mk_builder [] None 0) (system_node "s1" PNone)
  = Ok (mk_builder [] None 0).
Proof.
  apply (proj2 (X16_only_user_and_assistant_entries_count inert_runtime [])).
  reflexivity.
Defined.

Lemma build_step_grows rt st e st' :
  build_step rt st e = Ok st' ->
  if starts_interaction e then interactions st' = all_interactions st
  else interactions st' = interactions st.
Proof.
  intros H. destruct (starts_interaction e) eqn:Hh.
  - unfold starts_interaction in Hh. unfold build_step in H.
    destruct e; try discriminate Hh;
      bind_inv H; rewrite Ha in Hh; destruct a; try discriminate Hh.
    unfold start_interaction in H. bind_inv H. inversion H; subst; clear H.
    unfold all_interactions. cbn.
    destruct (current_interaction st); [reflexivity | now rewrite app_nil_r].
  - unfold build_step in H. unfold starts_interaction in Hh.
    destruct e; try (inversion H; subst; reflexivity);
      bind_inv H; rewrite Ha in Hh; destruct a; try discriminate Hh;
      try (inversion H; subst; reflexivity).
    + eapply user_followup_header; eassumption.
    + eapply assistant_response_header; eassumption.
Qed.

Lemma build_loop_grows rt es :
  forall st st',
    foldM (build_step rt) es st = Ok st' ->
    exists more, interactions st' = interactions st ++ more.
Proof.
  induction es as [| e es IH]; intros st st' H.
  - simpl in H. inversion H; subst. exists []. now rewrite app_nil_r.
  - cbn [foldM] in H. bind_inv H. apply build_step_grows in Ha.
    destruct (IH _ _ H) as [more Hmore]. rewrite Hmore.
    destruct (starts_interaction e).
    + rewrite Ha. unfold all_interactions. rewrite <- app_assoc. eauto.
    + rewrite Ha. eauto.
Qed.

(** X17. An interaction that is closed stays as it is: when
    [build_interactions] returns on a sequence of entries, it returns on
    every prefix of the sequence, and all interactions of the prefix but the
    last are the first interactions of the whole, unchanged; when the entry
    after the prefix is a human message, that holds for the last interaction
    of the prefix as well. *)
Theorem X17_closed_interactions_are_final :
  forall rt es1 es2 l,
    build_interactions rt (es1 ++ es2) = Ok l ->
    exists l1,
      build_interactions rt es1 = Ok l1 /\
      (exists more, l = removelast l1 ++ more) /\
      (forall e rest, es2 = e :: rest -> starts_interaction e = true ->
                      exists more, l = l1 ++ more).
Proof.
  intros rt es1 es2 l H.
  destruct (build_interactions_all _ _ _ H) as [st2 [Hfold ->]].
  rewrite foldM_app in Hfold. bind_inv Hfold. rename a into st1.
  exists (all_interactions st1). split; [| split].
  - unfold build_interactions. rewrite Ha. cbn [bind]. unfold all_interactions.
    destruct (current_interaction st1); [reflexivity | now rewrite app_nil_r].
  - destruct (build_loop_grows _ _ _ _ Hfold) as [more Hmore].
    unfold all_interactions. rewrite Hmore.
    destruct (current_interaction st1) as [cur1 |].
    + rewrite removelast_last, <- app_assoc. eauto.
    + rewrite app_nil_r.
      destruct (interactions st1) as [| i0 l0]; [simpl; eauto |].
      assert (Hl : i0 :: l0 = removelast (i0 :: l0) ++ [last (i0 :: l0) i0])
        by (apply app_removelast_last; discriminate).
      generalize dependent (removelast (i0 :: l0)). intros pre Hl.
      rewrite Hl, <- !app_assoc. eauto.
  - intros e rest -> Hh. cbn [foldM] in Hfold. bind_inv Hfold.
    apply build_step_grows in Ha0. rewrite Hh in Ha0.
    destruct (build_loop_grows _ _ _ _ Hfold) as [more Hmore].
    unfold all_interactions at 1. rewrite Hmore, Ha0, <- app_assoc. eauto.
Qed.

Lemma X17_closed_interactions_are_final_witness :
  exists l1 l,
    build_interactions inert_runtime [human_entry "u1" "first"] = Ok l1 /\
    build_interactions inert_runtime
      ([human_entry "u1" "first"] ++
       [human_entry "u2" "second";
        assistant_entry "a1" [Text (TextContent.mk (PStr "ok"))]]) = Ok l /\
    exists more, l = l1 ++ more.
Proof.
  destruct (build_interactions_total inert_runtime
              ([human_entry "u1" "first"] ++
               [human_entry "u2" "second";
                assistant_entry "a1" [Text (TextContent.mk (PStr "ok"))]])
              eq_refl) as [l Hl].
  destruct (X17_closed_interactions_are_final inert_runtime _ _ l Hl)
    as [l1 [H1 [_ H2]]].
  exists l1, l. split; [exact H1 |]. split; [exact Hl |].
  apply (H2 _ _ eq_refl). reflexivity.
Defined.

(* ================================================================== *)
(** * Threads in the presence of parent-link cycles *)
(* ================================================================== *)

Lemma at_level_S es j x :
  at_level es (S j) x
  = if resolves es x then
      match parent_entry es x with
      | Some p => at_level es j p
      | None => false
      end
    else false.
Proof.
  unfold at_level. cbn [ancestor].
  destruct (resolves es x); [| reflexivity].
  destruct (parent_entry es x); reflexivity.
Qed.

(** The entry that a parent reference names is the one that its own uuid
    names. *)
Lemma parent_entry_canonical es x p :
  parent_entry es x = Some p ->
  In p es /\ find (fun e => String.eqb (uuid_str e) (uuid_str p)) es = Some p.
Proof.
  unfold parent_entry. intros H. pose proof (find_some _ _ H) as [Hin Heq].
  apply String.eqb_eq in Heq. rewrite Heq. split; assumption.
Qed.

(** An entry [j] links below a root has [j] ancestors with pairwise
    distinct uuids. *)
Lemma lineage es j :
  forall x,
    at_level es j x = true ->
    exists l,
      List.length l = j /\ NoDup (map uuid_str l) /\ incl l es /\
      Forall (fun y =>
                (exists k, k < j /\ at_level es k y = true) /\
                find (fun e => String.eqb (uuid_str e) (uuid_str y)) es = Some y) l.
Proof.
  induction j as [| j IH]; intros x Hx.
  - exists []. repeat split; try constructor. intros y [].
  - rewrite at_level_S in Hx.
    destruct (resolves es x); [| discriminate].
    destruct (parent_entry es x) as [p |] eqn:Hp; [| discriminate].
    destruct (parent_entry_canonical _ _ _ Hp) as [Hin Hcan].
    destruct (IH p Hx) as [l [Hlen [Hnd [Hincl Hall]]]].
    exists (p :: l). split; [simpl; now rewrite Hlen | split; [| split]].
    + cbn [map]. constructor; [| exact Hnd].
      intros Hmem. apply in_map_iff in Hmem. destruct Hmem as [y [Hu Hy]].
      rewrite Forall_forall in Hall. destruct (Hall y Hy) as [[k [Hk Hlev]] Hcany].
      rewrite Hu, Hcan in Hcany. inversion Hcany; subst y.
      pose proof (at_level_unique es p k j Hlev Hx). lia.
    + intros y [<- | Hy]; [exact Hin | now apply Hincl].
    + constructor.
      * split; [exists j; split; [lia | exact Hx] | exact Hcan].
      * eapply Forall_impl; [| exact Hall].
        intros y [[k [Hk Hlev]] Hcany]. split; [| exact Hcany].
        exists k. split; [lia | exact Hlev].
Qed.

(** No entry is more links below a root than there are entries. *)
Lemma at_level_bounded es j x :
  at_level es j x = true -> j <= List.length es.
Proof.
  intros H. destruct (lineage es j x H) as [l [Hlen [Hnd [Hincl _]]]].
  rewrite <- Hlen, <- (length_map uuid_str l), <- (length_map uuid_str es).
  apply NoDup_incl_length; [exact Hnd |].
  intros u Hu. apply in_map_iff in Hu. destruct Hu as [y [<- Hy]].
  apply in_map, Hincl, Hy.
Qed.

Lemma gen_exhausted es :
  unique_uuids es -> gen es (S (List.length es)) (level es 0) = [].
Proof.
  intros Hu. apply Permutation_nil. symmetry.
  rewrite (gen_level es 0 _ Hu). cbn [Nat.add].
  unfold level. rewrite filter_none; [reflexivity |].
  intros x _. destruct (at_level es (S (List.length es)) x) eqn:H; [| reflexivity].
  apply at_level_bounded in H. lia.
Qed.

Lemma thread_walk_covers es t :
  unique_uuids es -> walk es (level es 0) t ->
  Permutation t (filter (under_conversation_root es) es).
Proof.
  intros Hu Hw.
  destruct (walk_levels es (S (List.length es)) _ _ Hw) as [t' [Hw' Hp]].
  rewrite gen_exhausted in Hw' by assumption.
  apply walk_nil_inv in Hw'. subst t'. rewrite app_nil_r in Hp.
  rewrite Hp, (levels_level es 0 _ Hu). unfold level.
  rewrite (buckets_partition (at_level es) es (S (List.length es)))
    by (intros x i i'; apply at_level_unique).
  rewrite (filter_ext _ (under_conversation_root es)); [reflexivity |].
  intros x. unfold under_conversation_root. now rewrite root_of_at_level.
Qed.

(** X18. Parent-link cycles never keep [get_conversations] from returning:
    for a session with string ids and distinct non-empty uuids, whatever its
    parent links, it returns once it has fuel for one iteration per entry;
    its threads are the walks of the user and assistant roots and hold, once
    each, exactly the entries whose parent links lead to such a root.  An
    entry whose parent links do not end -- one on a cycle, or below one -- is
    in no thread. *)
Theorem X18_threads_despite_cycles :
  forall s fuel,
    ids_well_typed (entries s) = true ->
    unique_uuids (entries s) ->
    List.length (entries s) <= fuel ->
    exists threads,
      get_conversations fuel s = Some (Ok threads) /\
      Forall2 (fun r t => walk (entries s) [r] t)
              (filter is_user_or_assistant (roots (entries s))) threads /\
      Permutation (List.concat threads)
                  (filter (under_conversation_root (entries s)) (entries s)) /\
      (forall e, root_of (entries s) (List.length (entries s)) e = None ->
                 ~ In e (List.concat threads)).
Proof.
  intros s fuel Hty Hu Hfuel.
  destruct (walk_exists (entries s) (S (List.length (entries s)))
              (level (entries s) 0) (gen_exhausted _ Hu)) as [t Hw].
  pose proof (thread_walk_covers _ _ Hu Hw) as Hcover.
  rewrite <- roots_level0 in Hw.
  destruct (walk_split _ _ _ Hw) as [threads [Hthreads Hconcat]].
  exists threads.
  destruct (get_conversations_typed fuel s Hty) as [children [Hget Hkids]].
  split; [| split; [exact Hthreads | split]].
  - rewrite Hget.
    apply (threads_from_complete (entries s) children Hty Hkids fuel).
    + intros x Hx. apply filter_In in Hx. tauto.
    + exact Hthreads.
    + assert (Hlen : List.length t <= fuel).
      { rewrite (Permutation_length Hcover).
        etransitivity; [apply filter_length_le | exact Hfuel]. }
      rewrite <- Hconcat in Hlen. clear - Hlen.
      induction threads as [| th threads IH]; [constructor |].
      simpl in Hlen. rewrite length_app in Hlen.
      constructor; [lia | apply IH; lia].
  - now rewrite Hconcat.
  - intros e Hnone Hin. rewrite Hconcat in Hin.
    apply (Permutation_in _ Hcover) in Hin. apply filter_In in Hin.
    destruct Hin as [_ Hroot]. unfold under_conversation_root in Hroot.
    rewrite Hnone in Hroot. discriminate.
Qed.

Lemma cyclic_session_unique : unique_uuids (entries cyclic_session).
Proof.
  unfold unique_uuids. simpl.
  repeat constructor; simpl; intuition discriminate.
Qed.

Lemma X18_threads_despite_cycles_witness :
  no_parent_cycle (entries cyclic_session) = false /\
  exists threads,
    get_conversations 3 cyclic_session = Some (Ok threads) /\
    Permutation (List.concat threads) [user_node "u1" PNone "q"].
Proof.
  split; [reflexivity |].
  destruct (X18_threads_despite_cycles cyclic_session 3 eq_refl
              cyclic_session_unique (le_n 3)) as [threads [Hget [_ [Hp _]]]].
  exists threads. split; [exact Hget | exact Hp].
Defined.

(* ================================================================== *)
(** * Numeric ids of file names *)
(* ================================================================== *)

Lemma append_lacks_replace old' new pre rest :
  lacks "."%char pre = true ->
  Str.replace_str (String "."%char old') new (pre ++ rest)
  = (pre ++ Str.replace_str (String "."%char old') new rest)%string.
Proof.
  unfold Str.replace_str. induction pre as [| c pre IH]; intros H; [reflexivity |].
  simpl in H. apply andb_prop in H. destruct H as [Hc Hpre].
  cbn [String.append Str.replace_from String.prefix].
  destruct (Ascii.ascii_dec "."%char c) as [<- | _]; [discriminate Hc |].
  now rewrite IH.
Qed.

Lemma before_append sep pre rest :
  lacks sep pre = true ->
  Str.before sep (pre ++ String sep rest) = pre /\
  Str.before sep pre = pre.
Proof.
  induction pre as [| c pre IH]; intros H; simpl.
  - now rewrite Ascii.eqb_refl.
  - simpl in H. apply andb_prop in H. destruct H as [Hc Hpre].
    apply negb_true_iff in Hc. rewrite Hc.
    destruct (IH Hpre) as [-> ->]. split; reflexivity.
Qed.

Lemma isdigit_char_plain c :
  Str.isdigit_char c = true -> c <> "."%char /\ c <> "_"%char.
Proof.
  intros H. split; intros ->; discriminate H.
Qed.

Lemma digits_lack s :
  Str.all_chars Str.isdigit_char s = true ->
  lacks "."%char s = true /\ lacks "_"%char s = true.
Proof.
  induction s as [| c s IH]; simpl; intros H; [split; reflexivity |].
  apply andb_prop in H. destruct H as [Hc Hs].
  destruct (isdigit_char_plain c Hc) as [Hdot Hus].
  destruct (IH Hs) as [-> ->].
  apply Ascii.eqb_neq in Hdot, Hus. now rewrite Hdot, Hus.
Qed.

Lemma decimal_is_digit s :
  Str.all_chars decimal_char s = true -> Str.all_chars Str.isdigit_char s = true.
Proof.
  induction s as [| c s IH]; simpl; intros H; [reflexivity |].
  apply andb_prop in H. destruct H as [Hc Hs]. rewrite (IH Hs), andb_true_r.
  unfold Str.isdigit_char. unfold decimal_char in Hc. now rewrite Hc.
Qed.

Lemma string_of_uint_decimal d :
  Str.all_chars decimal_char (NilEmpty.string_of_uint d) = true.
Proof. induction d; simpl; auto. Qed.

Lemma of_nat_decimal n :
  Str.all_chars decimal_char (Str.of_nat n) = true /\ Str.of_nat n <> "".
Proof.
  unfold Str.of_nat, NilZero.string_of_uint.
  pose proof (to_uint_nonnil n) as Hn.
  destruct (Nat.to_uint n) as [| d | d | d | d | d | d | d | d | d | d] eqn:Hd;
    try contradiction;
    (split; [rewrite <- Hd at 1 | discriminate]);
    rewrite Hd; apply string_of_uint_decimal.
Qed.

Lemma py_int_of_nat lim n :
  within_digit_limit lim (Str.of_nat n) ->
  py_int lim (Str.of_nat n) = Returns (Z.of_nat n).
Proof.
  intros Hlim. unfold py_int, ascii_digits, Str.of_nat.
  rewrite NilZero.usu by apply to_uint_nonnil.
  rewrite DecimalNat.Unsigned.of_to.
  destruct Hlim as [-> | Hlen]; [reflexivity |].
  fold (Str.of_nat n).
  destruct (Nat.ltb_spec lim (String.length (Str.of_nat n))); [lia |].
  now rewrite andb_false_r.
Qed.

(** A name that begins with digit characters followed by an underscore, or
    by the suffix alone, is read through [int()] on those characters. *)
Lemma extract_numeric_id_digits lim digs rest :
  Str.all_chars Str.isdigit_char digs = true -> digs <> "" ->
  let outcome := match py_int lim digs with
                 | Returns n => Returns (Some n)
                 | RaisesValueError => RaisesValueError
                 end in
  extract_numeric_id lim (digs ++ String "_"%char rest) = outcome /\
  extract_numeric_id lim (digs ++ ".jsonl") = outcome.
Proof.
  intros Hd Hne outcome. destruct (digits_lack digs Hd) as [Hdot Hus].
  assert (Hisdigit : Str.isdigit digs = true).
  { unfold Str.isdigit. rewrite Hd, andb_true_r.
    apply negb_true_iff, String.eqb_neq, Hne. }
  unfold extract_numeric_id. split.
  - rewrite (append_lacks_replace "jsonl" "" digs _ Hdot).
    change (Str.replace_str ".jsonl" "" (String "_"%char rest))
      with (String "_"%char (Str.replace_str ".jsonl" "" rest)).
    unfold Str.split1.
    rewrite (proj1 (before_append "_"%char digs _ Hus)).
    rewrite Hisdigit, andb_true_r.
    destruct (Str.after _ _); reflexivity.
  - rewrite (append_lacks_replace "jsonl" "" digs _ Hdot).
    change (Str.replace_str ".jsonl" "" ".jsonl") with "".
    rewrite append_nil_r_str. unfold Str.split1.
    rewrite (proj2 (before_append "_"%char digs "" Hus)).
    rewrite Hisdigit, andb_true_r.
    destruct (Str.after _ _); reflexivity.
Qed.

(** X24. The number written in front of a file name is read back: for every
    number [n] whose decimal writing [int()] accepts, the names [n_rest], for
    any [rest], and [n.jsonl] have the numeric id [n]. *)
Theorem X24_numeric_id_roundtrip :
  forall lim n rest,
    within_digit_limit lim (Str.of_nat n) ->
    extract_numeric_id lim (Str.of_nat n ++ String "_"%char rest)
    = Returns (Some (Z.of_nat n)) /\
    extract_numeric_id lim (Str.of_nat n ++ ".jsonl")
    = Returns (Some (Z.of_nat n)).
Proof.
  intros lim n rest Hlim.
  destruct (of_nat_decimal n) as [Hdec Hne].
  pose proof (extract_numeric_id_digits lim (Str.of_nat n) rest
                (decimal_is_digit _ Hdec) Hne) as H.
  cbv zeta in H. rewrite (py_int_of_nat lim n Hlim) in H. exact H.
Qed.

Lemma X24_numeric_id_roundtrip_witness :
  extract_numeric_id 4300 "12_3f9a.jsonl" = Returns (Some 12%Z).
Proof.
  assert (Hlim : within_digit_limit 4300 (Str.of_nat 12))
    by (right; simpl; lia).
  exact (proj1 (X24_numeric_id_roundtrip 4300 12 "3f9a.jsonl" Hlim)).
Defined.

Lemma superscript_not_decimal c d :
  superscript_char c = true -> uint_of_char c d = None.
Proof.
  intros H. destruct d as [d |]; [| reflexivity].
  destruct c as [[] [] [] [] [] [] [] []]; try discriminate H; reflexivity.
Qed.

Lemma ascii_digits_superscript pre c post :
  superscript_char c = true -> ascii_digits (pre ++ String c post) = None.
Proof.
  intros Hc. unfold ascii_digits, NilZero.uint_of_string.
  assert (H : NilEmpty.uint_of_string (pre ++ String c post) = None).
  { induction pre as [| a pre IH]; cbn [String.append NilEmpty.uint_of_string].
    - now apply superscript_not_decimal.
    - rewrite IH. reflexivity. }
  rewrite H. destruct (pre ++ String c post)%string; reflexivity.
Qed.

(** X25. [extract_numeric_id] returns [None] on the empty name and on
    every name whose first character is neither a digit character nor a
    dot; and it raises [ValueError] on a name whose
    leading run of digit characters, ended by an underscore, holds a
    superscript two, three or one: [isdigit()] accepts it and [int()] does
    not. *)
Theorem X25_numeric_id_none_and_value_error :
  forall lim,
    extract_numeric_id lim "" = Returns None /\
    (forall c rest,
       Str.isdigit_char c = false -> c <> "."%char ->
       extract_numeric_id lim (String c rest) = Returns None) /\
    (forall pre c post rest,
       Str.all_chars Str.isdigit_char pre = true ->
       superscript_char c = true ->
       Str.all_chars Str.isdigit_char post = true ->
       extract_numeric_id lim (pre ++ String c post ++ String "_"%char rest)
       = RaisesValueError).
Proof.
  intros lim. split; [reflexivity | split].
  - intros c rest Hc Hdot. unfold extract_numeric_id, Str.replace_str.
    cbn [Str.replace_from String.prefix].
    destruct (Ascii.ascii_dec "."%char c) as [<- | _]; [contradiction |].
    unfold Str.split1. cbn [Str.before].
    destruct (Ascii.eqb c "_"%char).
    + destruct (Str.after _ _); reflexivity.
    + unfold Str.isdigit. cbn [Str.all_chars]. rewrite Hc.
      destruct (Str.after _ _); cbn; rewrite ?andb_false_r; reflexivity.
  - intros pre c post rest Hpre Hc Hpost.
    assert (Hdigit : Str.isdigit_char c = true).
    { unfold superscript_char in Hc. unfold Str.isdigit_char.
      destruct ((48 <=? nat_of_ascii c)%nat && (nat_of_ascii c <=? 57)%nat);
        [reflexivity |].
      cbn [orb]. exact Hc. }
    assert (Hall : Str.all_chars Str.isdigit_char (pre ++ String c post) = true).
    { clear - Hpre Hdigit Hpost. induction pre as [| a pre IH]; simpl in *.
      - now rewrite Hdigit, Hpost.
      - apply andb_prop in Hpre. destruct Hpre as [Ha Hpre].
        now rewrite Ha, IH. }
    assert (Hne : (pre ++ String c post)%string <> "")
      by (destruct pre; discriminate).
    pose proof (extract_numeric_id_digits lim (pre ++ String c post) rest
                  Hall Hne) as [H _].
    rewrite append_assoc_str in H.
    change (String c post ++ String "_"%char rest)%string
      with (String c (post ++ String "_"%char rest)).
    cbn [String.append] in H. rewrite H.
    unfold py_int. now rewrite ascii_digits_superscript.
Qed.

Lemma X25_numeric_id_none_and_value_error_witness :
  extract_numeric_id 4300 "agent-7f3a.jsonl" = Returns None /\
  extract_numeric_id 4300
    ("1" ++ String (ascii_of_nat 178) "" ++ "_x.jsonl")%string
  = RaisesValueError.
Proof.
  split.
  - apply (proj1 (proj2 (X25_numeric_id_none_and_value_error 4300)));
      [reflexivity | discriminate].
  - apply (proj2 (proj2 (X25_numeric_id_none_and_value_error 4300))
             "1" (ascii_of_nat 178) "" "x.jsonl"); reflexivity.
Defined.

(* ================================================================== *)
(** * Loading directories and counting interactions *)
(* ================================================================== *)

Lemma build_interactions_count rt es l :
  build_interactions rt es = Ok l ->
  List.length l = List.length (filter starts_interaction es).
Proof.
  intros H. destruct (build_interactions_all _ _ _ H) as [st [Hfold ->]].
  destruct (build_loop_invariant rt es _ _ [] Hfold) as [Hf _];
    [constructor | reflexivity |].
  simpl in Hf. apply Forall2_length in Hf. exact Hf.
Qed.

Lemma filter_flat_map_length {A B} (f : B -> bool) (g : A -> list B) xs :
  List.length (filter f (flat_map g xs))
  = fold_right (fun x n => List.length (filter f (g x)) + n) 0 xs.
Proof.
  induction xs as [| x xs IH]; simpl; [reflexivity |].
  now rewrite filter_app, length_app, IH.
Qed.

Lemma get_stats_loop rt loaded :
  forall total total',
    foldM (fun total s =>
             l <- session_interactions rt s ;; Ok (total + List.length l))
          loaded total = Ok total' ->
    total' = total + List.length (filter starts_interaction
                                         (flat_map entries loaded)).
Proof.
  induction loaded as [| s loaded IH]; intros total total' H.
  - simpl in H. inversion H; subst. simpl. lia.
  - cbn [foldM] in H. bind_inv H. bind_inv Ha. inversion Ha; subst; clear Ha.
    apply IH in H. rewrite H. cbn [flat_map].
    rewrite filter_app, length_app.
    unfold session_interactions in Ha0.
    rewrite (build_interactions_count _ _ _ Ha0). lia.
Qed.

(** X19. When [get_stats] returns, [total_sessions] is the number of loaded
    sessions and [total_interactions] is the number of entries, over all
    sessions, that are human messages; it returns whenever the entries of
    every session have the types that the builder relies on. *)
Theorem X19_get_stats_counts_human_messages :
  forall rt loaded,
    (forall stats, get_stats rt loaded = Ok stats ->
       stats = [("total_sessions", PInt (Z.of_nat (List.length loaded)));
                ("total_interactions",
                 PInt (Z.of_nat (List.length
                                   (filter starts_interaction
                                           (flat_map entries loaded)))))]) /\
    (sessions_well_typed loaded -> exists stats, get_stats rt loaded = Ok stats).
Proof.
  intros rt loaded. split.
  - intros stats H. unfold get_stats in H. bind_inv H. inversion H; subst.
    apply get_stats_loop in Ha. subst a. reflexivity.
  - intros Hwt. unfold get_stats.
    assert (Hloop : forall total, exists total',
               foldM (fun total s =>
                        l <- session_interactions rt s ;;
                        Ok (total + List.length l)) loaded total = Ok total').
    { induction Hwt as [| s loaded Hs _ IH]; intros total; [simpl; eauto |].
      cbn [foldM]. unfold session_interactions at 1.
      destruct (build_interactions_total rt (entries s) Hs) as [l ->].
      cbn [bind]. apply IH. }
    destruct (Hloop 0) as [total ->]. cbn [bind]. eauto.
Qed.

Lemma X19_get_stats_counts_human_messages_witness :
  exists stats,
    get_stats inert_runtime
      [mk_session "a.jsonl" two_turns (PStr ""); branching_session] = Ok stats /\
    stats = [("total_sessions", PInt 2); ("total_interactions", PInt 4)].
Proof.
  destruct (X19_get_stats_counts_human_messages inert_runtime
              [mk_session "a.jsonl" two_turns (PStr ""); branching_session])
    as [Hvalue Hreturns].
  destruct Hreturns as [stats H]; [repeat constructor |].
  exists stats. split; [exact H |].
  rewrite (Hvalue stats H). vm_compute. reflexivity.
Defined.




Lemma load_files_spec rt clock files :
  forall src all src' all',
    foldM (load_file rt clock) files (src, all) = Ok (src', all') ->
    exists ss, Forall2 (parsed_from rt clock) ss files /\
               src' = src ++ ss /\ all' = all ++ ss.
Proof.
  induction files as [| f files IH]; intros src all src' all' H.
  - simpl in H. inversion H; subst. exists []. rewrite !app_nil_r.
    repeat split. constructor.
  - cbn [foldM] in H. bind_inv H. unfold load_file in Ha. bind_inv Ha.
    inversion Ha; subst; clear Ha. apply IH in H.
    destruct H as [ss [Hss [-> ->]]]. exists (a0 :: ss).
    rewrite <- !app_assoc. repeat split. constructor; [exact Ha0 | exact Hss].
Qed.

Lemma load_files_returns rt clock files :
  forall st,
    (forall f, In f files -> parses rt clock f = true) ->
    exists st', foldM (load_file rt clock) files st = Ok st'.
Proof.
  induction files as [| f files IH]; intros [src all] Hall; [simpl; eauto |].
  cbn [foldM]. unfold load_file at 1.
  pose proof (Hall f (or_introl eq_refl)) as Hf. unfold parses in Hf.
  destruct (parse_session_file rt (clock (jsonl_path f)) (jsonl_path f)
              (jsonl_text f)); [| discriminate].
  cbn [bind]. apply IH. intros f' Hin. apply Hall. now right.
Qed.

(** The state of the loop over the children of the root. *)
Lemma load_children_spec rt clock listing :
  forall all srcs all' srcs',
    keys_are_str srcs ->
    foldM (load_child rt clock) listing (all, srcs) = Ok (all', srcs') ->
    keys_are_str srcs' /\
    (exists ss, Forall2 (parsed_from rt clock) ss (listing_files listing) /\
                all' = all ++ ss) /\
    (forall name, ~ In name (source_names listing) ->
                  PyMap.find srcs' (PStr name) = PyMap.find srcs (PStr name)) /\
    (NoDup (source_names listing) ->
     forall child files,
       In child listing -> child_files child = Some files ->
       exists ss, PyMap.find srcs' (PStr (child_name child)) = Some ss /\
                  Forall2 (parsed_from rt clock) ss files).
Proof.
  induction listing as [| child listing IH]; intros all srcs all' srcs' Hk H.
  - simpl in H. inversion H; subst. split; [exact Hk |]. split; [| split].
    + exists []. rewrite app_nil_r. split; constructor.
    + reflexivity.
    + intros _ child files [].
  - cbn [foldM] in H. bind_inv H. destruct a as [all1 srcs1].
    unfold load_child in Ha. cbn [listing_files source_names flat_map].
    fold (listing_files listing). fold (source_names listing).
    destruct (child_files child) as [files |] eqn:Hfiles.
    + bind_inv Ha. destruct a as [src_sessions all2].
      inversion Ha; subst all1 srcs1; clear Ha.
      apply load_files_spec in Ha0. destruct Ha0 as [ss1 [Hss1 [Hsrc ->]]].
      simpl in Hsrc. subst src_sessions.
      apply IH in H; [| now apply put_keys_are_str].
      destruct H as [Hk' [[ss2 [Hss2 ->]] [Hother Hnamed]]].
      split; [exact Hk' |]. split; [| split].
      * exists (ss1 ++ ss2). rewrite <- app_assoc. split; [| reflexivity].
        now apply Forall2_app.
      * intros name Hnot. rewrite Hother by (intros Hn; apply Hnot; now right).
        rewrite find_put_str by exact Hk.
        destruct (String.eqb_spec (child_name child) name) as [Heq | _];
          [| reflexivity].
        exfalso. apply Hnot. left. exact Heq.
      * intros Hnd child' files' Hin Hf'. cbn [app] in Hnd.
        inversion Hnd as [| x l Hnotin Hnd']; subst.
        destruct Hin as [<- | Hin].
        -- rewrite Hfiles in Hf'. inversion Hf'; subst files'.
           exists ss1. split; [| exact Hss1].
           rewrite Hother by exact Hnotin.
           rewrite find_put_str by exact Hk. now rewrite String.eqb_refl.
        -- now apply (Hnamed Hnd' child' files').
    + inversion Ha; subst all1 srcs1; clear Ha.
      apply IH in H; [| exact Hk].
      destruct H as [Hk' [Hall [Hother Hnamed]]].
      split; [exact Hk' | split; [exact Hall | split; [exact Hother |]]].
      intros Hnd child' files' Hin Hf'. cbn [app] in Hnd.
      destruct Hin as [<- | Hin]; [congruence |].
      now apply (Hnamed Hnd child' files').
Qed.

(** X21. When [load_claude_history] returns, [sessions] holds the session
    of every file of every subdirectory, in the order of the listing;
    [sessions_by_source] gives the sessions of the files of a subdirectory
    under its name (the names of a directory's children being distinct) and
    the empty list under any other name.  It returns exactly when
    [parse_session_file] returns for every file: one failing file fails the
    whole load. *)
Theorem X21_load_claude_history_sessions_and_sources :
  forall rt clock root listing,
    (forall h, load_claude_history rt clock root listing = Ok h ->
       root_path h = root /\
       Forall2 (parsed_from rt clock) (sessions h) (listing_files listing) /\
       (forall name, ~ In name (source_names listing) ->
                     sessions_by_source h name = []) /\
       (NoDup (source_names listing) ->
        forall child files,
          In child listing -> child_files child = Some files ->
          Forall2 (parsed_from rt clock)
                  (sessions_by_source h (child_name child)) files)) /\
    ((exists h, load_claude_history rt clock root listing = Ok h) <->
     forallb (parses rt clock) (listing_files listing) = true).
Proof.
  intros rt clock root listing. split.
  - intros h H. unfold load_claude_history in H. bind_inv H.
    destruct a as [all srcs]. inversion H; subst h; clear H.
    apply load_children_spec in Ha; [| constructor].
    destruct Ha as [_ [[ss [Hss Hall]] [Hother Hnamed]]].
    simpl in Hall. subst all. cbn [root_path sessions].
    split; [reflexivity | split; [exact Hss | split]].
    + intros name Hnot. unfold sessions_by_source. cbn [sources].
      now rewrite (Hother name Hnot).
    + intros Hnd child files Hin Hf.
      destruct (Hnamed Hnd child files Hin Hf) as [ss' [Hfind Hss']].
      unfold sessions_by_source. cbn [sources]. now rewrite Hfind.
  - split.
    + intros [h H]. unfold load_claude_history in H. bind_inv H.
      destruct a as [all srcs].
      apply load_children_spec in Ha; [| constructor].
      destruct Ha as [_ [[ss [Hss _]] _]].
      apply forallb_forall. intros f Hin.
      clear - Hss Hin. induction Hss as [| s f' ss fs Hsf _ IH]; [contradiction |].
      destruct Hin as [<- | Hin]; [| now apply IH].
      unfold parses. unfold parsed_from in Hsf. now rewrite Hsf.
    + intros Hall. unfold load_claude_history.
      assert (Hloop : forall listing0 st,
                 forallb (parses rt clock) (listing_files listing0) = true ->
                 exists st', foldM (load_child rt clock) listing0 st = Ok st').
      { clear. induction listing0 as [| child listing0 IH]; intros [all srcs] Hall;
          [simpl; eauto |].
        cbn [listing_files flat_map] in Hall. fold (listing_files listing0) in Hall.
        rewrite forallb_app in Hall. apply andb_prop in Hall.
        destruct Hall as [Hchild Hrest].
        cbn [foldM]. unfold load_child at 1.
        destruct (child_files child) as [files |]; cbn [bind]; [| now apply IH].
        destruct (load_files_returns rt clock files ([], all)) as [[src' all'] ->].
        - intros f Hin. rewrite forallb_forall in Hchild. now apply Hchild.
        - cbn [bind]. now apply IH. }
      destruct (Hloop listing ([], []) Hall) as [[all srcs] ->]. cbn [bind]. eauto.
Qed.

Lemma X21_load_claude_history_sessions_and_sources_witness :
  exists h,
    load_claude_history inert_runtime (fun _ _ => epoch) "root" sample_listing
    = Ok h /\
    map file_path (sessions_by_source h "proj")
    = ["root/proj/a.jsonl"; "root/proj/b.jsonl"] /\
    sessions_by_source h "README.md" = [].
Proof.
  eexists. split; [reflexivity |]. split; [reflexivity |].
  apply (proj1 (X21_load_claude_history_sessions_and_sources inert_runtime
                  (fun _ _ => epoch) "root" sample_listing) _ eq_refl).
  simpl. intuition discriminate.
Defined.

(* ================================================================== *)
(** * Views of a history *)
(* ================================================================== *)

Lemma filter_flat_map {A B} (f : B -> bool) (g : A -> list B) xs :
  filter f (flat_map g xs) = flat_map (fun x => filter f (g x)) xs.
Proof.
  induction xs as [| x xs IH]; simpl; [reflexivity |].
  now rewrite filter_app, IH.
Qed.

(** The class of a parsed entry is the one of the [type] of its record. *)
Lemma parse_entry_class rt now v e :
  parse_entry rt now v = Ok e ->
  match e with UserEntry _ _ _ => true | _ => false end = type_is "user" e /\
  match e with AssistantEntry _ _ _ => true | _ => false end
  = type_is "assistant" e /\
  match e with SystemEntry _ _ _ _ _ => true | _ => false end
  = type_is "system" e /\
  match e with SummaryEntry _ _ _ => true | _ => false end = type_is "summary" e.
Proof.
  unfold parse_entry. intros H. bind_inv H.
  destruct v; simpl in Ha; try discriminate. inversion Ha; subst a; clear Ha.
  cbv zeta in H.
  destruct (Py.equal (Dict.get d "type" (PStr "")) (PStr "user")) eqn:E1;
    [| destruct (Py.equal (Dict.get d "type" (PStr "")) (PStr "assistant")) eqn:E2;
       [| destruct (Py.equal (Dict.get d "type" (PStr "")) (PStr "system")) eqn:E3;
          [| destruct (Py.equal (Dict.get d "type" (PStr ""))
                                (PStr "file-history-snapshot")) eqn:E4;
             [| destruct (Py.equal (Dict.get d "type" (PStr ""))
                                   (PStr "summary")) eqn:E5;
                [| destruct (Py.equal (Dict.get d "type" (PStr ""))
                                      (PStr "queue-operation")) eqn:E6]]]]];
    unfold UserEntry.from_dict, AssistantEntry.from_dict, SystemEntry.from_dict,
      FileHistorySnapshotEntry.from_dict, SummaryEntry.from_dict,
      QueueOperationEntry.from_dict in H;
    repeat (let a := fresh "a" in let Ha := fresh "Ha" in
            apply bind_Ok_inv in H; destruct H as [a [Ha H]]);
    inversion H; subst e; unfold type_is; cbn [base raw];
    try (apply equal_str_r in E1; rewrite E1);
    try (apply equal_str_r in E2; rewrite E2);
    try (apply equal_str_r in E3; rewrite E3);
    try (apply equal_str_r in E4; rewrite E4);
    try (apply equal_str_r in E5; rewrite E5);
    rewrite ?E1, ?E2, ?E3, ?E5; repeat split; reflexivity.
Qed.

Lemma parse_lines_parsed rt clock numbered :
  forall acc parsed,
    Forall (parsed_entry rt) acc ->
    foldM (parse_line rt clock) numbered acc = Ok parsed ->
    Forall (parsed_entry rt) parsed.
Proof.
  induction numbered as [| [n l] numbered IH]; intros acc parsed Hacc H.
  - simpl in H. inversion H; subst. exact Hacc.
  - cbn [foldM] in H. bind_inv H. apply (IH a parsed); [| exact H].
    unfold parse_line in Ha.
    destruct (String.eqb (Str.strip (line_text l)) "");
      [inversion Ha; subst; exact Hacc |].
    destruct (loads l) as [d | | e];
      [| inversion Ha; subst; exact Hacc | discriminate Ha].
    bind_inv Ha. inversion Ha; subst.
    apply Forall_app. split; [exact Hacc |].
    constructor; [| constructor]. exists (clock n), d. exact Ha0.
Qed.

(** X22. In a session that [parse_session_file] returns, the four views
    select by the [type] of the records: [user_entries], [assistant_entries],
    [system_entries] and [summaries] are the entries whose record has the
    type user, assistant, system and summary, in the order of the file. *)
Theorem X22_session_views_select_by_record_type :
  forall rt clock p file s,
    parse_session_file rt clock p file = Ok s ->
    user_entries s = filter (type_is "user") (entries s) /\
    assistant_entries s = filter (type_is "assistant") (entries s) /\
    system_entries s = filter (type_is "system") (entries s) /\
    summaries s = filter (type_is "summary") (entries s).
Proof.
  intros rt clock p file s H.
  assert (Hall : Forall (parsed_entry rt) (entries s)).
  { apply parse_session_file_lines in H. destruct H as [a [Ha [_ ->]]].
    destruct (new_session_fields p a) as [_ ->].
    eapply parse_lines_parsed; [constructor | exact Ha]. }
  unfold user_entries, assistant_entries, system_entries, summaries.
  rewrite Forall_forall in Hall.
  repeat split; apply filter_ext_in; intros e He;
    destruct (Hall e He) as [now [v Hv]];
    apply parse_entry_class in Hv; tauto.
Qed.

Lemma X22_session_views_select_by_record_type_witness :
  exists s,
    parse_session_file inert_runtime (fun _ => epoch) "f.jsonl" two_record_file
    = Ok s /\
    summaries s = filter (type_is "summary") (entries s) /\
    List.length (summaries s) = 1.
Proof.
  eexists. split; [reflexivity |]. split; [| reflexivity].
  apply (X22_session_views_select_by_record_type inert_runtime (fun _ => epoch)
           "f.jsonl" two_record_file).
  reflexivity.
Defined.

Lemma filter_split_perm {A} (f : A -> bool) l :
  Permutation (filter (fun x => negb (f x)) l ++ filter f l) l.
Proof.
  induction l as [| x l IH]; simpl; [constructor |].
  destruct (f x); simpl.
  - rewrite <- Permutation_middle. now constructor.
  - now constructor.
Qed.

(** X23. The views of a history keep the order of its sessions and
    entries: the user and the assistant entries of the history are those of
    its sessions, session after session; and every session is either a
    regular session or an agent session, never both, the two views together
    holding the sessions of the history, each as often as it occurs
    there. *)
Theorem X23_history_views :
  forall pl h,
    all_user_entries h = flat_map user_entries (sessions h) /\
    all_assistant_entries h = flat_map assistant_entries (sessions h) /\
    Permutation (regular_sessions pl h ++ agent_sessions pl h) (sessions h) /\
    subseq (regular_sessions pl h) (sessions h) /\
    subseq (agent_sessions pl h) (sessions h) /\
    (forall s, In s (regular_sessions pl h) -> ~ In s (agent_sessions pl h)) /\
    List.length (regular_sessions pl h) + List.length (agent_sessions pl h)
    = List.length (sessions h).
Proof.
  intros pl h.
  split; [apply filter_flat_map | split; [apply filter_flat_map |]].
  unfold regular_sessions, agent_sessions.
  pose proof (filter_split_perm (is_agent pl) (sessions h)) as Hp.
  split; [exact Hp | split; [apply subseq_filter | split; [apply subseq_filter |]]].
  split.
  - intros s Hr Ha. apply filter_In in Hr. apply filter_In in Ha.
    destruct Hr as [_ Hr]. destruct Ha as [_ Ha]. rewrite Ha in Hr. discriminate.
  - rewrite <- length_app. apply Permutation_length, Hp.
Qed.

Lemma X23_history_views_witness :
  ~ In (mk_session "main" two_turns (PStr ""))
       (agent_sessions plain_paths mixed_history).
Proof.
  apply (proj1 (proj2 (proj2 (proj2 (proj2 (proj2
           (X23_history_views plain_paths mixed_history))))))).
  left. reflexivity.
Defined.
